(** * Customer-support routing engine: scoring, semantic cache, fallback
      dispatch and circuit breaking.

    A shallow embedding of the Python sources

      - app/services/error_handler.py      (modules [ErrorHandler],
                                            [Wrapper])
      - app/services/escalation_manager.py (modules [Escalation],
                                            [Tickets])
      - app/services/complexity_analyzer.py (modules [Complexity],
                                            [Complexity64], [Routing])
      - app/services/cache_service.py      (modules [Cache], [CacheStats])
      - app/routes/query.py                (module [Query])

    Conventions.
      - A Python [datetime] is a number of microseconds ([Z]); a
        [timedelta] is a difference of two of them.  Every method reads the
        clock once: the reading is the argument [now].
      - A Python [float] is a rational ([Q]); literals denote their decimal
        value.  Where the value of a sum of floats matters to the last
        bit, in the complexity score, the floats are the binary64 floats
        of the kernel (module [Complexity64]).
      - A Python [str] is a [string] whose characters are the code points
        0..255.
      - A [dict] whose iteration order is never observed is a [gmap]; a
        [dict] that is iterated is an association list in insertion order.
      - A raised exception is the [inr] of a sum. *)

From Stdlib Require Import ZArith QArith Qminmax Qabs String Ascii List Lia Lqa Bool.
From Stdlib Require Import Floats Uint63.
From stdpp Require Import gmap strings list fin_maps.
Import ListNotations.

Local Open Scope string_scope.
Local Open Scope Z_scope.

(* ===================================================================== *)
(** ** app/services/error_handler.py *)
(* ===================================================================== *)

Module ErrorHandler.

Inductive ErrorSeverity := LOW | MEDIUM | HIGH | CRITICAL.

(** The values of [breaker['state']]: the strings 'CLOSED', 'OPEN' and
    'HALF_OPEN'. *)
Inductive BreakerState := CLOSED | OPEN | HALF_OPEN.

#[global] Instance BreakerState_eq_dec : EqDecision BreakerState.
Proof. solve_decision. Defined.

(** A value of [self.error_counts]. *)
Record ErrorRecord := {
  count : Z;
  first_occurrence : Z;
  last_occurrence : Z;
  severity : ErrorSeverity;
  details : list (Z * string)
}.

(** A value of [self.circuit_breakers]. *)
Record Breaker := {
  state : BreakerState;
  opened_at : Z;
  failure_count : Z;
  breaker_severity : ErrorSeverity
}.

Record SystemErrorHandler := {
  error_counts : gmap string ErrorRecord;
  fallback_history : list (string * string * Z * Z);
  circuit_breakers : gmap string Breaker
}.

(** [SystemErrorHandler.__init__] *)
Definition init : SystemErrorHandler :=
  {| error_counts := ∅; fallback_history := []; circuit_breakers := ∅ |}.

(** [self.error_thresholds] *)
Definition error_thresholds (s : ErrorSeverity) : Z :=
  match s with
  | LOW => 10
  | MEDIUM => 5
  | HIGH => 3
  | CRITICAL => 1
  end.

(** [f"{component}:{error_type}"] *)
Definition make_key (component error_type : string) : string :=
  component +:+ ":" +:+ error_type.

(** [timedelta(minutes=5)] in microseconds. *)
Definition cooldown : Z := 5 * 60 * 1000000.

(** [_trigger_circuit_breaker]: an entry is created, in state OPEN, only
    when the key has none; an existing entry is left as it is.
    [self.error_counts[key]] is present whenever [record_error] calls
    this (lemma [record_error_counts_key]); the default stands for the
    KeyError of a call from elsewhere, of which there is none. *)
Definition _trigger_circuit_breaker (h : SystemErrorHandler)
    (component error_type : string) (sev : ErrorSeverity) (now : Z)
    : SystemErrorHandler :=
  let key := make_key component error_type in
  match circuit_breakers h !! key with
  | None =>
      {| error_counts := error_counts h;
         fallback_history := fallback_history h;
         circuit_breakers :=
           <[key := {| state := OPEN;
                       opened_at := now;
                       failure_count :=
                         default 0 (count <$> error_counts h !! key);
                       breaker_severity := sev |}]> (circuit_breakers h) |}
  | Some _ => h
  end.

(** [record_error].  [details] is [None] for a falsy argument. *)
Definition record_error (h : SystemErrorHandler)
    (error_type component : string) (sev : ErrorSeverity)
    (dets : option string) (now : Z) : SystemErrorHandler :=
  let key := make_key component error_type in
  let r0 :=
    match error_counts h !! key with
    | Some r => r
    | None => {| count := 0; first_occurrence := now;
                 last_occurrence := now; severity := sev; details := [] |}
    end in
  let r1 :=
    {| count := count r0 + 1;
       first_occurrence := first_occurrence r0;
       last_occurrence := now;
       severity := severity r0;
       details := match dets with
                  | Some d => details r0 ++ [(now, d)]
                  | None => details r0
                  end |} in
  let h1 :=
    {| error_counts := <[key := r1]> (error_counts h);
       fallback_history := fallback_history h;
       circuit_breakers := circuit_breakers h |} in
  if count r1 >=? error_thresholds sev
  then _trigger_circuit_breaker h1 component error_type sev now
  else h1.

(** [is_circuit_open]: the answer and the handler after the call (the
    OPEN entry becomes HALF_OPEN once more than five minutes have
    passed since [opened_at]). *)
Definition is_circuit_open (h : SystemErrorHandler)
    (component error_type : string) (now : Z)
    : bool * SystemErrorHandler :=
  let key := make_key component error_type in
  match circuit_breakers h !! key with
  | None => (false, h)
  | Some breaker =>
      match state breaker with
      | OPEN =>
          if now - opened_at breaker >? cooldown
          then (false,
                {| error_counts := error_counts h;
                   fallback_history := fallback_history h;
                   circuit_breakers :=
                     <[key := {| state := HALF_OPEN;
                                 opened_at := opened_at breaker;
                                 failure_count := failure_count breaker;
                                 breaker_severity :=
                                   breaker_severity breaker |}]>
                       (circuit_breakers h) |})
          else (true, h)
      | _ => (false, h)
      end
  end.

(** [record_success] *)
Definition record_success (h : SystemErrorHandler)
    (component error_type : string) : SystemErrorHandler :=
  let key := make_key component error_type in
  match circuit_breakers h !! key with
  | Some breaker =>
      match state breaker with
      | HALF_OPEN =>
          {| error_counts := error_counts h;
             fallback_history := fallback_history h;
             circuit_breakers :=
               <[key := {| state := CLOSED;
                           opened_at := opened_at breaker;
                           failure_count := failure_count breaker;
                           breaker_severity := breaker_severity breaker |}]>
                 (circuit_breakers h) |}
      | _ => h
      end
  | None => h
  end.

(** The three public operations, as calls on the shared handler. *)
Inductive call :=
| RecordError (error_type component : string) (sev : ErrorSeverity)
              (dets : option string) (now : Z)
| RecordSuccess (component error_type : string)
| IsCircuitOpen (component error_type : string) (now : Z).

Definition run_call (h : SystemErrorHandler) (c : call) : SystemErrorHandler :=
  match c with
  | RecordError et comp sev d now => record_error h et comp sev d now
  | RecordSuccess comp et => record_success h comp et
  | IsCircuitOpen comp et now => snd (is_circuit_open h comp et now)
  end.

Definition run_calls (h : SystemErrorHandler) (cs : list call)
    : SystemErrorHandler :=
  fold_left run_call cs h.

(** The state of the breaker of a key, if it has one. *)
Definition breaker_state (h : SystemErrorHandler) (key : string)
    : option BreakerState :=
  state <$> circuit_breakers h !! key.

Definition error_count (h : SystemErrorHandler) (key : string) : option Z :=
  count <$> error_counts h !! key.

End ErrorHandler.

(* ===================================================================== *)
(** ** Python floats and strings *)
(* ===================================================================== *)

Module Py.

(** [x < y] on floats. *)
Definition Qltb (x y : Q) : bool := negb (Qle_bool y x).

(** [str.isspace] of one character (code points 0..255). *)
Definition is_space (c : ascii) : bool :=
  let n := N_of_ascii c in
  ((9 <=? n) && (n <=? 13) || (28 <=? n) && (n <=? 32)
   || (n =? 133) || (n =? 160))%N.

(** [\w] of the [re] module on [str] patterns: alphanumeric or
    underscore (code points 0..255). *)
Definition is_word_char (c : ascii) : bool :=
  let n := N_of_ascii c in
  ((48 <=? n) && (n <=? 57) || (65 <=? n) && (n <=? 90)
   || (97 <=? n) && (n <=? 122) || (n =? 95)
   || (n =? 170) || (n =? 178) || (n =? 179) || (n =? 181)
   || (n =? 185) || (n =? 186) || (188 <=? n) && (n <=? 190)
   || (192 <=? n) && (n <=? 214) || (216 <=? n) && (n <=? 246)
   || (248 <=? n))%N.

(** [str.lower] of one character (code points 0..255). *)
Definition lower_char (c : ascii) : ascii :=
  let n := N_of_ascii c in
  if ((65 <=? n) && (n <=? 90) || (192 <=? n) && (n <=? 214)
      || (216 <=? n) && (n <=? 222))%N
  then ascii_of_N (n + 32)
  else c.

(** [s.lower()] *)
Fixpoint lower (s : string) : string :=
  match s with
  | EmptyString => EmptyString
  | String c s' => String (lower_char c) (lower s')
  end.

Definition is_empty (s : string) : bool :=
  match s with EmptyString => true | _ => false end.

Fixpoint lstrip (s : string) : string :=
  match s with
  | EmptyString => EmptyString
  | String c s' => if is_space c then lstrip s' else s
  end.

Fixpoint rstrip (s : string) : string :=
  match s with
  | EmptyString => EmptyString
  | String c s' =>
      let r := rstrip s' in
      if is_space c && is_empty r then EmptyString else String c r
  end.

(** [s.strip()] *)
Definition strip (s : string) : string := rstrip (lstrip s).

(** [not s or not s.strip()] *)
Definition blank (s : string) : bool := is_empty s || is_empty (strip s).

(** The maximal runs of characters that are not separators, left to
    right; [cur] is the run being read. *)
Fixpoint runs (sep : ascii -> bool) (s cur : string) : list string :=
  match s with
  | EmptyString => if is_empty cur then [] else [cur]
  | String c s' =>
      if sep c
      then (if is_empty cur then runs sep s' EmptyString
            else cur :: runs sep s' EmptyString)
      else runs sep s' (cur +:+ String c EmptyString)
  end.

(** [s.split()] *)
Definition split (s : string) : list string := runs is_space s EmptyString.

(** [re.findall(r'\b\w+\b', s)] *)
Definition findall_words (s : string) : list string :=
  runs (fun c => negb (is_word_char c)) s EmptyString.

(** [sub in s] *)
Fixpoint contains (sub s : string) : bool :=
  String.prefix sub s
  || match s with
     | EmptyString => false
     | String _ s' => contains sub s'
     end.

(** [len(s)] *)
Definition len (s : string) : Z := Z.of_nat (String.length s).

(** [s[:n]] for [n >= 0] *)
Definition take (n : nat) (s : string) : string := String.substring 0 n s.

(** The patterns of the [re] module that the sources use: literals,
    [(a|b)], concatenation, [.*] and [^]. *)
Inductive regex :=
| Lit (s : string)
| Or (r1 r2 : regex)
| Seq (r1 r2 : regex)
| DotStar
| Bol.

(** [(s1|s2|...)] over literals and over patterns. *)
Definition any_of (alts : list regex) : regex :=
  match alts with
  | [] => Lit EmptyString
  | r :: rs => fold_left Or rs r
  end.

Definition lits (alts : list string) : regex := any_of (map Lit alts).

(** A lower-case literal read at the head of [s] under [re.IGNORECASE]:
    what is left of [s], if it starts with the literal. *)
Fixpoint eat (l s : string) : option string :=
  match l with
  | EmptyString => Some s
  | String c l' =>
      match s with
      | EmptyString => None
      | String d s' =>
          if Ascii.eqb (lower_char d) c then eat l' s' else None
      end
  end.

(** What [.*] can leave: [s] and its suffixes up to the first newline. *)
Fixpoint dot_star (s : string) : list string :=
  s :: match s with
       | EmptyString => []
       | String c s' => if Ascii.eqb c "010"%char then [] else dot_star s'
       end.

(** All the ways [r] matches at the head of [s]: what each leaves.
    [whole] is the length of the searched string ([^] holds only at its
    start). *)
Fixpoint matches (whole : nat) (r : regex) (s : string) : list string :=
  match r with
  | Lit l => match eat l s with Some rest => [rest] | None => [] end
  | Or r1 r2 => matches whole r1 s ++ matches whole r2 s
  | Seq r1 r2 => flat_map (matches whole r2) (matches whole r1 s)
  | DotStar => dot_star s
  | Bol => if Nat.eqb (String.length s) whole then [s] else []
  end.

Fixpoint suffixes (s : string) : list string :=
  s :: match s with
       | EmptyString => []
       | String _ s' => suffixes s'
       end.

(** [re.search(pattern, s, re.IGNORECASE)] is not [None]. *)
Definition re_search (r : regex) (s : string) : bool :=
  existsb (fun t => match matches (String.length s) r t with
                    | [] => false
                    | _ => true
                    end) (suffixes s).

End Py.

(* ===================================================================== *)
(** ** app/services/escalation_manager.py *)
(* ===================================================================== *)

Module Escalation.

(** [self.complexity_threshold = 0.8], [self.sentiment_threshold = -0.5] *)
Definition complexity_threshold : Q := 8 # 10.
Definition sentiment_threshold : Q := - (5 # 10).

(** [should_escalate] *)
Definition should_escalate (complexity_score sentiment_score : Q)
    : bool * list string :=
  let reasons : list string := [] in
  let reasons :=
    if Py.Qltb complexity_threshold complexity_score
    then (reasons ++ ["complexity"])%list else reasons in
  let reasons :=
    if Py.Qltb sentiment_score sentiment_threshold
    then (reasons ++ ["sentiment"])%list else reasons in
  (Nat.ltb 0 (length reasons), reasons).

End Escalation.

(* ===================================================================== *)
(** ** app/services/complexity_analyzer.py *)
(* ===================================================================== *)

Module Complexity.
Import Py.

Inductive QueryType :=
| SIMPLE_FAQ | TECHNICAL | MULTI_STEP | TROUBLESHOOTING | INTEGRATION.

(** [self.technical_terms] *)
Definition technical_terms : list string :=
  [ "api"; "authentication"; "authorization"; "oauth"; "jwt"; "token";
    "endpoint"; "microservices"; "database"; "sql"; "nosql"; "mongodb";
    "postgresql"; "mysql"; "docker"; "kubernetes"; "container";
    "deployment"; "ci/cd"; "pipeline"; "webhook"; "rest"; "graphql";
    "json"; "xml"; "yaml"; "configuration"; "middleware"; "proxy";
    "gateway"; "load balancer"; "cache"; "redis"; "encryption"; "ssl";
    "tls"; "certificate"; "security"; "vulnerability"; "rate limiting";
    "throttling"; "scaling"; "performance"; "optimization"; "monitoring";
    "logging"; "metrics"; "analytics"; "debugging"; "error"; "exception";
    "timeout"; "latency"; "throughput"; "concurrent"; "async";
    "synchronous"; "queue"; "message broker"; "kafka"; "rabbitmq";
    "pub/sub"; "migration"; "schema"; "foreign key"; "constraint";
    "index"; "query"; "transaction"; "acid"; "consistency";
    "availability"; "partition tolerance"; "distributed"; "cluster";
    "node"; "replica"; "backup"; "recovery" ].

(** [r1 r2 ... rn] in sequence. *)
Definition cat (rs : list regex) : regex :=
  match rs with
  | [] => Lit EmptyString
  | r :: rest => fold_left Seq rest r
  end.

(** [self.simple_patterns] *)
Definition simple_patterns : list regex :=
  [ (* ^(what|where|when|who) (is|are|do|does|can|will) *)
    cat [Bol; lits ["what"; "where"; "when"; "who"]; Lit " ";
         lits ["is"; "are"; "do"; "does"; "can"; "will"]];
    (* ^(can you|could you|please) (help|tell|show|explain) *)
    cat [Bol; lits ["can you"; "could you"; "please"]; Lit " ";
         lits ["help"; "tell"; "show"; "explain"]];
    (* (business hours|office location|contact|phone|email) *)
    lits ["business hours"; "office location"; "contact"; "phone"; "email"];
    (* (reset password|forgot password|login|sign in) *)
    lits ["reset password"; "forgot password"; "login"; "sign in"];
    (* (pricing|cost|price|fee|billing) *)
    lits ["pricing"; "cost"; "price"; "fee"; "billing"];
    (* ^(what|where|when|who|how).*(hours|location|contact|price|cost) *)
    cat [Bol; lits ["what"; "where"; "when"; "who"; "how"]; DotStar;
         lits ["hours"; "location"; "contact"; "price"; "cost"]] ].

(** [self.integration_patterns] *)
Definition integration_patterns : list regex :=
  [ (* (integrate|integration|integrating).*(api|system|service) *)
    cat [lits ["integrate"; "integration"; "integrating"]; DotStar;
         lits ["api"; "system"; "service"]];
    (* (connect|connecting).*(api|system|service) *)
    cat [lits ["connect"; "connecting"]; DotStar;
         lits ["api"; "system"; "service"]];
    (* (setup|configure).*(integration|api) *)
    cat [lits ["setup"; "configure"]; DotStar; lits ["integration"; "api"]] ].

(** [self.troubleshooting_patterns] *)
Definition troubleshooting_patterns : list regex :=
  [ (* (trouble|problem|issue|error).*(with|in) *)
    cat [lits ["trouble"; "problem"; "issue"; "error"]; DotStar;
         lits ["with"; "in"]];
    (* (troubleshoot|troubleshooting|debug|debugging) *)
    lits ["troubleshoot"; "troubleshooting"; "debug"; "debugging"];
    (* (not working|doesn't work|broken|failed) *)
    lits ["not working"; "doesn't work"; "broken"; "failed"];
    (* (fix|solve|resolve).*(problem|issue|error) *)
    cat [lits ["fix"; "solve"; "resolve"]; DotStar;
         lits ["problem"; "issue"; "error"]] ].

(** [self.multi_step_patterns] *)
Definition multi_step_patterns : list regex :=
  [ (* (multiple|several|various|different).*(step|stage|phase|method) *)
    cat [lits ["multiple"; "several"; "various"; "different"]; DotStar;
         lits ["step"; "stage"; "phase"; "method"]];
    (* (first.*then|step.*step|stage.*stage) *)
    any_of [cat [Lit "first"; DotStar; Lit "then"];
            cat [Lit "step"; DotStar; Lit "step"];
            cat [Lit "stage"; DotStar; Lit "stage"]];
    (* (configure.*and.*setup|setup.*and.*configure) *)
    any_of [cat [Lit "configure"; DotStar; Lit "and"; DotStar; Lit "setup"];
            cat [Lit "setup"; DotStar; Lit "and"; DotStar; Lit "configure"]] ].

(** [self.technical_patterns] *)
Definition technical_patterns : list regex :=
  [ (* (configure|configuration|setup|install) *)
    lits ["configure"; "configuration"; "setup"; "install"];
    (* (migrate|migration|upgrade|update) *)
    lits ["migrate"; "migration"; "upgrade"; "update"];
    (* (architecture|design|implement|implementation) *)
    lits ["architecture"; "design"; "implement"; "implementation"];
    (* (custom|customization|customize) *)
    lits ["custom"; "customization"; "customize"];
    (* (performance|optimization|scale|scaling) *)
    lits ["performance"; "optimization"; "scale"; "scaling"] ].

(** [len(query.split())] *)
Definition word_count (query : string) : Z :=
  Z.of_nat (length (split query)).

(** [_calculate_length_score] *)
Definition _calculate_length_score (query : string) : Q :=
  Qmin (inject_Z (word_count query) / 40) (5 # 10).

(** [_count_technical_terms] *)
Definition _count_technical_terms (query : string) : Z :=
  let words := findall_words (lower query) in
  Z.of_nat (length (List.filter
                      (fun word => existsb (String.eqb word) technical_terms)
                      words)).

(** [_calculate_technical_score] *)
Definition _calculate_technical_score (query : string) : Q :=
  let technical_count := _count_technical_terms query in
  Qmin (inject_Z technical_count / 8 * (4 # 10)) (4 # 10).

(** One [for pattern in ...: if re.search(...)] loop: does a pattern of
    the group match? *)
Definition any_match (patterns : list regex) (query : string) : bool :=
  existsb (fun pattern => re_search pattern query) patterns.

(** [_analyze_question_type] *)
Definition _analyze_question_type (query : string) : QueryType :=
  if any_match simple_patterns query then SIMPLE_FAQ
  else if any_match integration_patterns query then INTEGRATION
  else if any_match troubleshooting_patterns query then TROUBLESHOOTING
  else if any_match multi_step_patterns query then MULTI_STEP
  else if any_match technical_patterns query then TECHNICAL
  else if word_count query >? 30 then MULTI_STEP
  else if existsb (fun term => contains term query) technical_terms
       then TECHNICAL
  else SIMPLE_FAQ.

(** [complexity_weights] *)
Definition complexity_weights (t : QueryType) : Q :=
  match t with
  | SIMPLE_FAQ => 0
  | TECHNICAL => 15 # 100
  | MULTI_STEP => 25 # 100
  | TROUBLESHOOTING => 2 # 10
  | INTEGRATION => 3 # 10
  end.

(** [_analyze_question_type_score] *)
Definition _analyze_question_type_score (query : string) : Q :=
  complexity_weights (_analyze_question_type query).

(** [calculate_complexity].  On a [str] no operation of the body raises,
    so the handler that returns 0.5 is never entered. *)
Definition calculate_complexity (query : string) : Q :=
  if blank query then 0
  else
    let query :=
      if len query >? 10000 then take (Z.to_nat 10000) query else query in
    let query_lower := strip (lower query) in
    let length_score := _calculate_length_score query_lower in
    let technical_score := _calculate_technical_score query_lower in
    let question_complexity_score :=
      _analyze_question_type_score query_lower in
    Qmin (length_score + technical_score + question_complexity_score) 1.

End Complexity.

(* ===================================================================== *)
(** ** app/services/cache_service.py *)
(* ===================================================================== *)

Module Cache.
Import Py.

(** The libraries the cache calls: scikit-learn's [TfidfVectorizer] and
    [cosine_similarity], and [hashlib.md5].  [None] is a raised
    exception. *)
Class Libraries := {
  vector : Type;
  fitted_vectorizer : Type;
  fit : list string -> option fitted_vectorizer;
  transform : fitted_vectorizer -> string -> option vector;
  cosine_similarity : vector -> vector -> option Q;
  md5_hexdigest : string -> string
}.

(** *** A [dict] in insertion order *)

Definition dict (V : Type) : Type := list (string * V).

Fixpoint dict_get {V} (k : string) (d : dict V) : option V :=
  match d with
  | [] => None
  | (k', v) :: d' => if String.eqb k k' then Some v else dict_get k d'
  end.

Definition dict_mem {V} (k : string) (d : dict V) : bool :=
  match dict_get k d with Some _ => true | None => false end.

(** [d[k] = v]: an existing key keeps its place, a new one goes last. *)
Fixpoint dict_set {V} (k : string) (v : V) (d : dict V) : dict V :=
  match d with
  | [] => [(k, v)]
  | (k', v') :: d' =>
      if String.eqb k k' then (k', v) :: d' else (k', v') :: dict_set k v d'
  end.

(** [del d[k]] *)
Fixpoint dict_del {V} (k : string) (d : dict V) : dict V :=
  match d with
  | [] => []
  | (k', v') :: d' =>
      if String.eqb k k' then d' else (k', v') :: dict_del k d'
  end.

Definition keys {V} (d : dict V) : list string := map fst d.

(** *** The cache *)

(** A value of [self.cache]. *)
Record Entry := {
  query : string;
  model : string;
  response : string;
  tokens_used : Z;
  created_at : Z
}.

(** What [get] returns on a hit ([response_time_ms], a stopwatch
    reading, is left out). *)
Record Hit := {
  hit_response : string;
  cached : bool;
  similarity : Q
}.

Section WithLibraries.
Context {L : Libraries}.

(** [vectorizer] is [Some] exactly when [self.fitted] is set. *)
Record SemanticCache := {
  similarity_threshold : Q;
  max_cache_size : Z;
  ttl_seconds : Z;
  cache : dict Entry;
  query_vectors : dict vector;
  vectorizer : option fitted_vectorizer
}.

(** [SemanticCache.__init__] *)
Definition init (similarity_threshold : Q) (max_cache_size ttl_seconds : Z)
    : SemanticCache :=
  {| similarity_threshold := similarity_threshold;
     max_cache_size := max_cache_size;
     ttl_seconds := ttl_seconds;
     cache := [];
     query_vectors := [];
     vectorizer := None |}.

Definition with_cache (c : SemanticCache) (d : dict Entry)
    (qv : dict vector) : SemanticCache :=
  {| similarity_threshold := similarity_threshold c;
     max_cache_size := max_cache_size c;
     ttl_seconds := ttl_seconds c;
     cache := d;
     query_vectors := qv;
     vectorizer := vectorizer c |}.

Definition with_vectorizer (c : SemanticCache) (qv : dict vector)
    (v : option fitted_vectorizer) : SemanticCache :=
  {| similarity_threshold := similarity_threshold c;
     max_cache_size := max_cache_size c;
     ttl_seconds := ttl_seconds c;
     cache := cache c;
     query_vectors := qv;
     vectorizer := v |}.

(** [_get_cache_key] *)
Definition _get_cache_key (query model : string) : string :=
  md5_hexdigest (query +:+ ":" +:+ model).

(** The loop of [_vectorize_query] that transforms the cached queries
    again.  A query whose transform raises is deleted from the
    dictionary being iterated, so the loop's next step raises; the
    flag tells whether the loop ran to its end. *)
Fixpoint revectorize (f : fitted_vectorizer) (cached_queries : list string)
    (qv : dict vector) : dict vector * bool :=
  match cached_queries with
  | [] => (qv, true)
  | cached_query :: rest =>
      match transform f cached_query with
      | Some v => revectorize f rest (dict_set cached_query v qv)
      | None => (dict_del cached_query qv, false)
      end
  end.

(** [_vectorize_query]: the cache after the call and the vector
    ([None] where the source returns [None], also from its handler). *)
Definition _vectorize_query (c : SemanticCache) (query : string)
    : SemanticCache * option vector :=
  if blank query then (c, None)
  else
    match vectorizer c with
    | Some f => (c, transform f query)
    | None =>
        match query_vectors c with
        | _ :: _ =>
            let all_queries := (keys (query_vectors c) ++ [query])%list in
            match fit all_queries with
            | None => (c, None)
            | Some f =>
                let '(qv, finished) :=
                  revectorize f (keys (query_vectors c)) (query_vectors c) in
                let c' := with_vectorizer c qv (Some f) in
                if finished then (c', transform f query) else (c', None)
            end
        | [] =>
            match fit [query] with
            | None => (c, None)
            | Some f =>
                (with_vectorizer c (query_vectors c) (Some f),
                 transform f query)
            end
        end
    end.

(** The loop of [_find_similar_query] over [self.cache.items()]. *)
Fixpoint scan (c : SemanticCache) (query_vector : vector) (m : string)
    (items : dict Entry) (best_similarity : Q) (best_key : option string)
    : option string :=
  match items with
  | [] => best_key
  | (cached_key, cached_data) :: rest =>
      if negb (String.eqb (model cached_data) m)
      then scan c query_vector m rest best_similarity best_key
      else
        match dict_get (query cached_data) (query_vectors c) with
        | Some cached_vector =>
            match cosine_similarity query_vector cached_vector with
            | Some sim =>
                if Qltb best_similarity sim
                   && Qle_bool (similarity_threshold c) sim
                then scan c query_vector m rest sim (Some cached_key)
                else scan c query_vector m rest best_similarity best_key
            | None => scan c query_vector m rest best_similarity best_key
            end
        | None => scan c query_vector m rest best_similarity best_key
        end
  end.

(** [_find_similar_query] *)
Definition _find_similar_query (c : SemanticCache) (query m : string)
    : SemanticCache * option string :=
  match query_vectors c with
  | [] => (c, None)
  | _ :: _ =>
      let '(c1, query_vector) := _vectorize_query c query in
      match query_vector with
      | None => (c1, None)
      | Some v => (c1, scan c1 v m (cache c1) 0 None)
      end
  end.

(** [_is_expired]; [timedelta(seconds=self.ttl_seconds)] in
    microseconds. *)
Definition _is_expired (c : SemanticCache) (cache_entry : Entry) (now : Z)
    : bool :=
  now - created_at cache_entry >? ttl_seconds c * 1000000.

(** [_remove_entry] *)
Definition _remove_entry (c : SemanticCache) (key : string)
    : SemanticCache :=
  match dict_get key (cache c) with
  | Some e =>
      with_cache c (dict_del key (cache c))
        (if dict_mem (query e) (query_vectors c)
         then dict_del (query e) (query_vectors c)
         else query_vectors c)
  | None => c
  end.

(** [_cleanup_expired] *)
Definition _cleanup_expired (c : SemanticCache) (now : Z) : SemanticCache :=
  let expired_keys :=
    keys (List.filter (fun kv => _is_expired c (snd kv) now) (cache c)) in
  fold_left _remove_entry expired_keys c.

(** [min(..., key=created_at)]: the first of the smallest. *)
Fixpoint oldest (items : dict Entry) (best : string * Entry) : string :=
  match items with
  | [] => fst best
  | (k, e) :: rest =>
      if (created_at e <? created_at (snd best))%Z
      then oldest rest (k, e) else oldest rest best
  end.

(** [_evict_oldest] *)
Definition _evict_oldest (c : SemanticCache) : SemanticCache :=
  match cache c with
  | [] => c
  | first :: rest => _remove_entry c (oldest rest first)
  end.

(** [get]: the cache after the call and what is returned. *)
Definition get (c : SemanticCache) (query m : string) (now : Z)
    : SemanticCache * option Hit :=
  if blank query then (c, None)
  else
    let c1 := _cleanup_expired c now in
    let cache_key := _get_cache_key query m in
    let exact :=
      match dict_get cache_key (cache c1) with
      | Some e => if _is_expired c1 e now then None else Some e
      | None => None
      end in
    match exact with
    | Some e =>
        (c1, Some {| hit_response := response e; cached := true;
                     similarity := 1 |})
    | None =>
        let '(c2, similar_key) := _find_similar_query c1 query m in
        match similar_key with
        | None => (c2, None)
        | Some similar_key =>
            if is_empty similar_key then (c2, None)
            else
              match dict_get similar_key (cache c2) with
              | None => (c2, None)
              | Some e =>
                  if _is_expired c2 e now then (c2, None)
                  else
                    let '(c3, query_vector) := _vectorize_query c2 query in
                    let cached_vector :=
                      dict_get (Cache.query e) (query_vectors c3) in
                    match query_vector, cached_vector with
                    | Some qv, Some cv =>
                        match cosine_similarity qv cv with
                        | Some sim =>
                            (c3, Some {| hit_response := response e;
                                         cached := true;
                                         similarity := sim |})
                        | None =>
                            (c3, Some {| hit_response := response e;
                                         cached := true;
                                         similarity :=
                                           similarity_threshold c3 |})
                        end
                    | _, _ => (c3, None)
                    end
              end
        end
    end.

(** [set] *)
Definition set (c : SemanticCache) (query m response : string)
    (tokens_used now : Z) : SemanticCache :=
  if blank query || is_empty response then c
  else
    let c1 :=
      if Z.of_nat (length (cache c)) >=? max_cache_size c
      then _evict_oldest c else c in
    let cache_key := _get_cache_key query m in
    let '(c2, query_vector) := _vectorize_query c1 query in
    let entry :=
      {| Cache.query := query; model := m; response := response;
         tokens_used := tokens_used; created_at := now |} in
    with_cache c2 (dict_set cache_key entry (cache c2))
      (match query_vector with
       | Some v => dict_set query v (query_vectors c2)
       | None => query_vectors c2
       end).

End WithLibraries.

End Cache.

(* ===================================================================== *)
(** ** app/routes/query.py *)
(* ===================================================================== *)

Module Query.
Import Py.

(** What [await client.post(...)] does: a response (its status code,
    the [(content, total_tokens)] read from its JSON body, [None] when
    reading them raises, and whether [X-Cache-Status] is "HIT"), or an
    exception of [httpx] or another one. *)
Inductive post_outcome :=
| Replied (status_code : Z) (parsed : option (string * option Z))
          (cache_hit : bool)
| ConnectError
| TimeoutException
| OtherError.

(** The exceptions that leave the two call functions (all of them are
    subclasses of [Exception]); messages are left out. *)
Inductive exn :=
| HTTPException (status_code : Z)
| Exception.

(** The process state a dispatch runs in: the requests posted so far
    ([(url, model)], oldest first), the sleeps taken (seconds), the
    error records of [performance_metrics]
    ([(error_type, endpoint, model)]) and the process-wide
    [system_error_handler]. *)
Record World := {
  posts : list (string * string);
  sleeps : list Z;
  error_rates : list (string * string * string);
  handler : ErrorHandler.SystemErrorHandler
}.

(** A computation that may raise. *)
Definition M (A : Type) : Type := World -> (A + exn) * World.

Definition ret {A} (a : A) : M A := fun w => (inl a, w).

Definition raise {A} (e : exn) : M A := fun w => (inr e, w).

Definition bind {A B} (m : M A) (k : A -> M B) : M B :=
  fun w =>
    match m w with
    | (inl a, w1) => k a w1
    | (inr e, w1) => (inr e, w1)
    end.

Notation "'perform' x <- m ; k" := (bind m (fun x => k))
  (at level 10, x name, m at level 100, k at level 200).

(** [await asyncio.sleep(seconds)] *)
Definition sleep (seconds : Z) : M unit :=
  fun w =>
    (inl tt,
     {| posts := posts w; sleeps := (sleeps w ++ [seconds])%list;
        error_rates := error_rates w; handler := handler w |}).

(** [performance_metrics.record_error(error_type, endpoint, model)] *)
Definition record_error (error_type endpoint model : string) : M unit :=
  fun w =>
    (inl tt,
     {| posts := posts w; sleeps := sleeps w;
        error_rates :=
          (error_rates w ++ [(error_type, endpoint, model)])%list;
        handler := handler w |}).

Definition kong_url : string := "http://localhost:8000/v1/chat/completions".
Definition groq_url : string :=
  "https://api.groq.com/openai/v1" +:+ "/chat/completions".

(** What one pass through the body of a retry loop ends in. *)
Inductive pass (A : Type) :=
| Return (a : A)           (* [return] *)
| Continue (wait : Z)      (* [await asyncio.sleep(wait); continue] *)
| Break                    (* [break] *)
| Raise (e : exn).         (* an exception leaves the loop *)
Arguments Return {A}.
Arguments Continue {A}.
Arguments Break {A}.
Arguments Raise {A}.

Definition reply : Type := string * option Z * bool.

(** The handlers [except httpx.ConnectError], [except
    httpx.TimeoutException] and [except Exception] of both loops. *)
Definition retry_or_break (attempt max_retries : Z) : pass reply :=
  if attempt <? max_retries then Continue (2 ^ attempt) else Break.

(** The body of the loop of [_call_llm_via_kong].  An [HTTPException]
    raised in the [try] is caught by its [except Exception]. *)
Definition kong_pass (attempt max_retries : Z) (o : post_outcome)
    : pass reply :=
  match o with
  | Replied status_code parsed cache_hit =>
      if status_code =? 200 then
        match parsed with
        | Some (content, tokens_used) =>
            Return (content, tokens_used, cache_hit)
        | None => retry_or_break attempt max_retries
        end
      else if status_code =? 429 then
        if attempt <? max_retries then Continue (2 ^ attempt)
        else retry_or_break attempt max_retries
      else if status_code >=? 500 then
        if attempt <? max_retries then Continue (2 ^ attempt)
        else retry_or_break attempt max_retries
      else retry_or_break attempt max_retries
  | ConnectError => retry_or_break attempt max_retries
  | TimeoutException => retry_or_break attempt max_retries
  | OtherError => retry_or_break attempt max_retries
  end.

(** The body of the loop of [_call_groq_direct]; here [except
    HTTPException: raise] lets an [HTTPException] out. *)
Definition groq_pass (attempt max_retries : Z) (o : post_outcome)
    : pass reply :=
  match o with
  | Replied status_code parsed _ =>
      if status_code =? 200 then
        match parsed with
        | Some (content, tokens_used) => Return (content, tokens_used, false)
        | None => retry_or_break attempt max_retries
        end
      else if status_code =? 429 then
        if attempt <? max_retries
        then Continue (Z.min 60 (2 ^ attempt * 5))
        else Raise (HTTPException 429)
      else if status_code =? 401 then Raise (HTTPException 401)
      else if status_code >=? 500 then
        if attempt <? max_retries then Continue (2 ^ attempt)
        else Raise (HTTPException status_code)
      else Raise (HTTPException status_code)
  | ConnectError => retry_or_break attempt max_retries
  | TimeoutException => retry_or_break attempt max_retries
  | OtherError => retry_or_break attempt max_retries
  end.

Section WithNetwork.
(** The outcome of a post, from the number of posts made before it,
    its URL and the model asked for. *)
Variable network : nat -> string -> string -> post_outcome.

(** [await client.post(url, json=payload, headers=headers)] with its
    exceptions as outcomes. *)
Definition post (url model : string) : M post_outcome :=
  fun w =>
    (inl (network (length (posts w)) url model),
     {| posts := (posts w ++ [(url, model)])%list; sleeps := sleeps w;
        error_rates := error_rates w; handler := handler w |}).

(** [for attempt in range(max_retries + 1)] with [n] passes left,
    then the two statements after the loop. *)
Fixpoint attempts (body : Z -> Z -> post_outcome -> pass reply)
    (url failure : string) (n : nat) (attempt max_retries : Z)
    (model : string) : M reply :=
  match n with
  | O =>
      perform _ <- record_error failure "/api/query" model;
      raise Exception
  | S n' =>
      perform o <- post url model;
      match body attempt max_retries o with
      | Return r => ret r
      | Continue wait =>
          perform _ <- sleep wait;
          attempts body url failure n' (attempt + 1) max_retries model
      | Break =>
          perform _ <- record_error failure "/api/query" model;
          raise Exception
      | Raise e => raise e
      end
  end.

(** [_call_llm_via_kong] *)
Definition _call_llm_via_kong (query model : string) (max_retries : Z)
    : M reply :=
  attempts kong_pass kong_url "kong_gateway_failure"
    (Z.to_nat (max_retries + 1)) 0 max_retries model.

(** [_call_groq_direct] *)
Definition _call_groq_direct (query model : string) (max_retries : Z)
    : M reply :=
  attempts groq_pass groq_url "groq_api_failure"
    (Z.to_nat (max_retries + 1)) 0 max_retries model.

(** [_generate_fallback_response] *)
Definition _generate_fallback_response (query : string) : string :=
  let greeting := "Hello! I'm currently experiencing technical difficulties, but I'm here to help. Could you please try your question again in a moment?" in
  let technical := "I apologize, but I'm experiencing technical issues right now. For immediate technical support, please contact our support team directly or try again in a few minutes." in
  let general := "I'm sorry, but I'm currently unable to process your request due to technical difficulties. Please try again shortly, or contact our support team for immediate assistance." in
  let query_lower := lower query in
  if existsb (fun word => contains word query_lower)
       ["hello"; "hi"; "hey"; "good morning"; "good afternoon"]
  then greeting
  else if existsb (fun word => contains word query_lower)
            ["technical"; "api"; "code"; "error"; "bug"; "integration"]
  then technical
  else if len query >? 100 then technical
  else general.

Definition answer : Type := string * option Z * bool * string.

(** [fallback_chain] *)
Definition fallback_chain (preferred_model : string)
    : list (string * string) :=
  [ ("kong", preferred_model);
    ("direct", preferred_model);
    ("direct", "llama-3.3-70b-versatile");
    ("direct", "llama-3.1-8b-instant") ].

(** The [try] block of one step of the chain: [Some] is its [return],
    [None] is falling out of the [if]/[elif]. *)
Definition attempt_step (query method model : string) : M (option answer) :=
  if String.eqb method "kong" then
    perform r <- _call_llm_via_kong query model 2;
    let '(response, tokens, cached) := r in
    ret (Some (response, tokens, cached, model))
  else if String.eqb method "direct" then
    perform r <- _call_groq_direct query model 3;
    let '(response, tokens, cached) := r in
    perform _ <- record_error "kong_fallback_used" "/api/query" model;
    ret (Some (response, tokens, cached, model))
  else ret None.

(** The loop of [_process_llm_request_with_fallbacks] over the rest of
    the chain, and the statements after it. *)
Fixpoint try_chain (query : string) (chain : list (string * string))
    : M answer :=
  match chain with
  | [] =>
      let fallback_response := _generate_fallback_response query in
      perform _ <-
        record_error "all_llm_methods_failed" "/api/query" "fallback";
      ret (fallback_response, Some 0, false, "fallback")
  | (method, model) :: rest =>
      fun w =>
        match attempt_step query method model w with
        | (inl (Some a), w1) => (inl a, w1)
        | (inl None, w1) => try_chain query rest w1
        | (inr e, w1) =>
            (perform _ <-
               record_error (method +:+ "_failure") "/api/query" model;
             try_chain query rest) w1
        end
  end.

(** [_process_llm_request_with_fallbacks] *)
Definition _process_llm_request_with_fallbacks
    (query preferred_model : string) : M answer :=
  try_chain query (fallback_chain preferred_model).

End WithNetwork.

End Query.

(* ===================================================================== *)
(** * Properties *)
(* ===================================================================== *)

(** ** The circuit breaker *)

Section Breaker.
Import ErrorHandler.

Lemma trigger_keeps_existing h c et sev now k b :
  circuit_breakers h !! k = Some b ->
  circuit_breakers (_trigger_circuit_breaker h c et sev now) !! k = Some b.
Proof.
  intros Hk. unfold _trigger_circuit_breaker.
  destruct (circuit_breakers h !! make_key c et) eqn:E; [exact Hk|].
  cbn. rewrite lookup_insert_ne; [exact Hk|]. congruence.
Qed.

Lemma record_error_keeps_breaker h et c sev d now k b :
  circuit_breakers h !! k = Some b ->
  circuit_breakers (record_error h et c sev d now) !! k = Some b.
Proof.
  intros Hk. unfold record_error.
  destruct (_ >=? _); [|exact Hk].
  apply trigger_keeps_existing. exact Hk.
Qed.

(** [record_error] leaves an entry of [error_counts] for its key, so
    the lookup in [_trigger_circuit_breaker] never fails. *)
Lemma record_error_counts_key h et c sev d now :
  is_Some (error_counts (record_error h et c sev d now) !! make_key c et).
Proof.
  unfold record_error.
  destruct (_ >=? _).
  - unfold _trigger_circuit_breaker. cbn.
    destruct (circuit_breakers h !! make_key c et); cbn;
      rewrite lookup_insert_eq; eauto.
  - cbn. rewrite lookup_insert_eq. eauto.
Qed.

Lemma record_success_error_counts h c et :
  error_counts (record_success h c et) = error_counts h.
Proof.
  unfold record_success.
  destruct (circuit_breakers h !! make_key c et) as [b|]; [|reflexivity].
  destruct (state b); reflexivity.
Qed.

Lemma record_success_failure_count h c et k :
  failure_count <$> circuit_breakers (record_success h c et) !! k
  = failure_count <$> circuit_breakers h !! k.
Proof.
  unfold record_success.
  destruct (circuit_breakers h !! make_key c et) as [b|] eqn:E; [|reflexivity].
  destruct (state b); try reflexivity. cbn.
  destruct (decide (make_key c et = k)) as [Heq|Hne].
  - subst k. rewrite lookup_insert_eq, E. reflexivity.
  - rewrite lookup_insert_ne by exact Hne. reflexivity.
Qed.

(** What one call can do to the state of an existing breaker. *)
Inductive transition : call -> BreakerState -> BreakerState -> Prop :=
| stays c s : transition c s s
| cools comp et now : transition (IsCircuitOpen comp et now) OPEN HALF_OPEN
| closes comp et : transition (RecordSuccess comp et) HALF_OPEN CLOSED.

Lemma run_call_transition h c k s :
  breaker_state h k = Some s ->
  exists s', breaker_state (run_call h c) k = Some s' /\ transition c s s'.
Proof.
  unfold breaker_state. intros Hs.
  destruct (circuit_breakers h !! k) as [b|] eqn:Hk; [|discriminate].
  injection Hs as <-.
  destruct c as [et comp sev d now | comp et | comp et now]; cbn.
  - exists (state b). split; [|constructor].
    rewrite (record_error_keeps_breaker h et comp sev d now k b Hk).
    reflexivity.
  - unfold record_success.
    destruct (decide (make_key comp et = k)) as [Heq|Hne].
    + subst k. rewrite Hk. destruct (state b) eqn:Es; cbn.
      * exists CLOSED. rewrite Hk. cbn. rewrite Es. split; [easy|constructor].
      * exists OPEN. rewrite Hk. cbn. rewrite Es. split; [easy|constructor].
      * exists CLOSED. rewrite lookup_insert_eq. split; [easy|constructor].
    + exists (state b). split; [|constructor].
      destruct (circuit_breakers h !! make_key comp et) as [b'|];
        [|rewrite Hk; reflexivity].
      destruct (state b'); cbn; try (rewrite Hk; reflexivity).
      rewrite lookup_insert_ne by exact Hne. rewrite Hk. reflexivity.
  - unfold is_circuit_open.
    destruct (decide (make_key comp et = k)) as [Heq|Hne].
    + subst k. rewrite Hk. destruct (state b) eqn:Es; cbn.
      * exists CLOSED. rewrite Hk. cbn. rewrite Es. split; [easy|constructor].
      * destruct (_ >? _); cbn.
        -- exists HALF_OPEN. rewrite lookup_insert_eq. split; [easy|constructor].
        -- exists OPEN. rewrite Hk. cbn. rewrite Es. split; [easy|constructor].
      * exists HALF_OPEN. rewrite Hk. cbn. rewrite Es. split; [easy|constructor].
    + exists (state b). split; [|constructor].
      destruct (circuit_breakers h !! make_key comp et) as [b'|];
        [|cbn; rewrite Hk; reflexivity].
      destruct (state b'); cbn; try (rewrite Hk; reflexivity).
      destruct (_ >? _); cbn; [|rewrite Hk; reflexivity].
      rewrite lookup_insert_ne by exact Hne. rewrite Hk. reflexivity.
Qed.

Lemma transition_not_open c s s' : transition c s s' -> s <> OPEN -> s' <> OPEN.
Proof. destruct 1; congruence. Qed.

Lemma run_calls_not_open cs : forall h k s,
  breaker_state h k = Some s -> s <> OPEN ->
  exists s', breaker_state (run_calls h cs) k = Some s' /\ s' <> OPEN.
Proof.
  induction cs as [|c cs IH]; intros h k s Hs Hn; cbn.
  - eauto.
  - destruct (run_call_transition h c k s Hs) as (s1 & H1 & T).
    apply (IH _ _ s1 H1). eapply transition_not_open; eassumption.
Qed.

Lemma record_errors_keep_state cs : forall h k s,
  Forall (fun c => exists et comp sev d now, c = RecordError et comp sev d now) cs ->
  breaker_state h k = Some s ->
  breaker_state (run_calls h cs) k = Some s.
Proof.
  induction cs as [|c cs IH]; intros h k s Hall Hs; cbn; [exact Hs|].
  inversion Hall as [|? ? (et & comp & sev & d & now & ->) Hrest]; subst.
  apply IH; [exact Hrest|]. cbn.
  unfold breaker_state in *.
  destruct (circuit_breakers h !! k) as [b|] eqn:Hk; [|discriminate].
  rewrite (record_error_keeps_breaker h et comp sev d now k b Hk). exact Hs.
Qed.

(** C10.  Once a key has a circuit-breaker entry, [record_error] leaves
    that entry as it is (so its state never changes); [record_success]
    leaves every cumulative error count and every breaker's
    [failure_count] as they are; a call changes the state of an entry
    only from OPEN to HALF_OPEN (the cooldown, in [is_circuit_open]) or
    from HALF_OPEN to CLOSED (in [record_success]); hence a breaker that
    is not OPEN is not OPEN after any sequence of calls, and keeps its
    state through any sequence of [record_error] calls. *)
Theorem record_error_never_reopens :
  (forall h et c sev d now k b,
      circuit_breakers h !! k = Some b ->
      circuit_breakers (record_error h et c sev d now) !! k = Some b)
  /\ (forall h c et k,
         error_count (record_success h c et) k = error_count h k
         /\ failure_count <$> circuit_breakers (record_success h c et) !! k
            = failure_count <$> circuit_breakers h !! k)
  /\ (forall h c k s,
         breaker_state h k = Some s ->
         exists s', breaker_state (run_call h c) k = Some s'
                    /\ transition c s s')
  /\ (forall h cs k s,
         breaker_state h k = Some s -> s <> OPEN ->
         (exists s', breaker_state (run_calls h cs) k = Some s' /\ s' <> OPEN)
         /\ (Forall (fun c => exists et comp sev d now,
                         c = RecordError et comp sev d now) cs ->
             breaker_state (run_calls h cs) k = Some s)).
Proof.
  split; [exact record_error_keeps_breaker|].
  split.
  { intros h c et k. split.
    - unfold error_count. rewrite record_success_error_counts. reflexivity.
    - apply record_success_failure_count. }
  split; [exact run_call_transition|].
  intros h cs k s Hs Hn. split.
  - eapply run_calls_not_open; eassumption.
  - intros Hall. apply record_errors_keep_state; assumption.
Qed.

(** A breaker opened by one CRITICAL failure at time 0 and probed after
    the cooldown: it is HALF_OPEN. *)
Definition probed : SystemErrorHandler :=
  snd (is_circuit_open
         (record_error init "llm_call" "kong" CRITICAL None 0)
         "kong" "llm_call" (cooldown + 1)).

Lemma record_error_never_reopens_witness :
  breaker_state
    (run_calls probed
       [RecordError "llm_call" "kong" CRITICAL None (cooldown + 2);
        RecordError "llm_call" "kong" CRITICAL None (cooldown + 3)])
    "kong:llm_call" = Some HALF_OPEN.
Proof.
  apply (proj2 (proj2 (proj2 (proj2 record_error_never_reopens))
                 probed _ "kong:llm_call" HALF_OPEN
                 ltac:(vm_compute; reflexivity) ltac:(discriminate))).
  repeat constructor; eauto 10.
Defined.

(** C2 (as the code has it).  An OPEN breaker becomes HALF_OPEN when
    [is_circuit_open] is asked after the cooldown.  From HALF_OPEN the
    first recorded success closes it; a recorded failure leaves it
    HALF_OPEN, and [is_circuit_open] goes on answering [False]. *)
Theorem half_open_success_closes_failure_stays :
  forall h comp et b,
    circuit_breakers h !! make_key comp et = Some b ->
    (state b = OPEN ->
     forall now, now - opened_at b > cooldown ->
       is_circuit_open h comp et now
       = (false, snd (is_circuit_open h comp et now))
       /\ breaker_state (snd (is_circuit_open h comp et now))
            (make_key comp et) = Some HALF_OPEN)
    /\ (state b = HALF_OPEN ->
        breaker_state (record_success h comp et) (make_key comp et)
        = Some CLOSED
        /\ (forall et' comp' sev d now,
               breaker_state (record_error h et' comp' sev d now)
                 (make_key comp et) = Some HALF_OPEN)
        /\ (forall et' comp' sev d now now',
               fst (is_circuit_open (record_error h et' comp' sev d now)
                      comp et now') = false)).
Proof.
  intros h comp et b Hb. split.
  - intros Hs now Hnow. unfold is_circuit_open, breaker_state.
    rewrite Hb, Hs.
    assert ((now - opened_at b >? cooldown) = true) as ->
      by (apply Z.gtb_lt; lia).
    cbn. rewrite lookup_insert_eq. split; reflexivity.
  - intros Hs. split; [|split].
    + unfold record_success, breaker_state. rewrite Hb, Hs. cbn.
      rewrite lookup_insert_eq. reflexivity.
    + intros et' comp' sev d now. unfold breaker_state.
      rewrite (record_error_keeps_breaker h et' comp' sev d now _ b Hb).
      cbn. rewrite Hs. reflexivity.
    + intros et' comp' sev d now now'. unfold is_circuit_open.
      rewrite (record_error_keeps_breaker h et' comp' sev d now _ b Hb).
      rewrite Hs. reflexivity.
Qed.

Lemma half_open_success_closes_failure_stays_witness :
  breaker_state (record_success probed "kong" "llm_call") "kong:llm_call"
  = Some CLOSED
  /\ (forall et' comp' sev d now,
         breaker_state (record_error probed et' comp' sev d now)
           "kong:llm_call" = Some HALF_OPEN)
  /\ (forall et' comp' sev d now now',
         fst (is_circuit_open (record_error probed et' comp' sev d now)
                "kong" "llm_call" now') = false).
Proof.
  apply (proj2 (half_open_success_closes_failure_stays probed "kong" "llm_call"
                  {| state := HALF_OPEN; opened_at := 0; failure_count := 1;
                     breaker_severity := CRITICAL |}
                  ltac:(vm_compute; reflexivity))).
  reflexivity.
Defined.

(** C2, as stated, fails.  The breaker of [probed] is HALF_OPEN; a
    CRITICAL failure recorded then (the threshold is 1) does not reopen
    it: its state is still HALF_OPEN, not OPEN, and [is_circuit_open]
    answers [False]. *)
Lemma half_open_failure_does_not_reopen :
  breaker_state probed "kong:llm_call" = Some HALF_OPEN
  /\ breaker_state
       (record_error probed "llm_call" "kong" CRITICAL None (cooldown + 2))
       "kong:llm_call" = Some HALF_OPEN
  /\ breaker_state
       (record_error probed "llm_call" "kong" CRITICAL None (cooldown + 2))
       "kong:llm_call" <> Some OPEN
  /\ fst (is_circuit_open
            (record_error probed "llm_call" "kong" CRITICAL None (cooldown + 2))
            "kong" "llm_call" (cooldown + 3)) = false.
Proof. vm_compute. repeat split; try reflexivity. discriminate. Qed.

End Breaker.

(** ** The escalation decision *)

Section EscalationFacts.
Import Escalation.

Lemma Qltb_lt x y : Py.Qltb x y = true <-> (x < y)%Q.
Proof.
  unfold Py.Qltb. rewrite negb_true_iff. split.
  - intros H. apply Qnot_le_lt. intros Hle.
    apply Qle_bool_iff in Hle. congruence.
  - intros H. destruct (Qle_bool y x) eqn:E; [|reflexivity].
    apply Qle_bool_iff in E. exfalso. exact (Qlt_not_le _ _ H E).
Qed.

Lemma Qltb_dec x y :
  Py.Qltb x y = if Qlt_le_dec x y then true else false.
Proof.
  destruct (Qlt_le_dec x y) as [H|H].
  - apply Qltb_lt. exact H.
  - destruct (Py.Qltb x y) eqn:E; [|reflexivity].
    apply Qltb_lt in E. exfalso. exact (Qlt_not_le _ _ E H).
Qed.

(** C9.  [should_escalate] answers [True] exactly when the complexity is
    above 0.8 or the sentiment below -0.5; its reasons are "complexity"
    if the first condition holds, then "sentiment" if the second does;
    and it takes the three values that the specification lists. *)
Theorem should_escalate_decision :
  (forall c s : Q,
      (fst (should_escalate c s) = true
       <-> ((8 # 10) < c \/ s < - (5 # 10))%Q)
      /\ snd (should_escalate c s)
         = ((if Qlt_le_dec (8 # 10) c then ["complexity"] else [])
            ++ (if Qlt_le_dec s (- (5 # 10)) then ["sentiment"] else []))%list)
  /\ should_escalate (9 # 10) 0 = (true, ["complexity"])
  /\ should_escalate (3 # 10) (- (7 # 10)) = (true, ["sentiment"])
  /\ should_escalate (3 # 10) (2 # 10) = (false, []).
Proof.
  split; [|repeat split; reflexivity].
  intros c s. unfold should_escalate, complexity_threshold, sentiment_threshold.
  rewrite !Qltb_dec.
  destruct (Qlt_le_dec (8 # 10) c) as [Hc|Hc];
    destruct (Qlt_le_dec s (- (5 # 10))) as [Hs|Hs]; cbn;
    (split; [split; intros H|reflexivity]);
    try reflexivity; try (left; exact Hc); try (right; exact Hs).
  - discriminate H.
  - destruct H as [H|H]; exfalso; eapply Qlt_not_le; eassumption.
Qed.

End EscalationFacts.

(** ** The complexity score *)

Section ComplexityFacts.
Import Py Complexity.

(** The text that [calculate_complexity] scores: the query cut to its
    first 10000 characters, in lower case, without surrounding white
    space. *)
Definition normalized (query : string) : string :=
  strip (lower (if len query >? 10000
                then take (Z.to_nat 10000) query else query)).

(** The score as the specification words it. *)
Definition length_score_spec (wordCount : Z) : Q :=
  Qmin (inject_Z wordCount / 40) (5 # 10).

Definition technical_term_score_spec (technicalTermCount : Z) : Q :=
  Qmin (inject_Z technicalTermCount / 8 * (4 # 10)) (4 # 10).

Definition question_type_score_spec (t : QueryType) : Q :=
  match t with
  | SIMPLE_FAQ => 0
  | TECHNICAL => 15 # 100
  | TROUBLESHOOTING => 20 # 100
  | MULTI_STEP => 25 # 100
  | INTEGRATION => 30 # 100
  end.

(** The pattern groups in the order in which they are tried. *)
Definition ordered_groups : list (list regex * QueryType) :=
  [ (simple_patterns, SIMPLE_FAQ);
    (integration_patterns, INTEGRATION);
    (troubleshooting_patterns, TROUBLESHOOTING);
    (multi_step_patterns, MULTI_STEP);
    (technical_patterns, TECHNICAL) ].

(** The fallback on length and keywords. *)
Definition fallback_type (text : string) : QueryType :=
  if word_count text >? 30 then MULTI_STEP
  else if existsb (fun term => contains term text) technical_terms
       then TECHNICAL
  else SIMPLE_FAQ.

(** The type of the first group one of whose patterns matches. *)
Definition question_type_spec (text : string) : QueryType :=
  match List.find (fun g => existsb (fun p => re_search p text) (fst g))
                  ordered_groups with
  | Some g => snd g
  | None => fallback_type text
  end.

Definition complexity_spec (text : string) : Q :=
  Qmin (length_score_spec (word_count text)
        + technical_term_score_spec (_count_technical_terms text)
        + question_type_score_spec (question_type_spec text)) 1.

Fixpoint all_space (s : string) : bool :=
  match s with
  | EmptyString => true
  | String c s' => is_space c && all_space s'
  end.

Lemma is_space_lower_char c : is_space (lower_char c) = is_space c.
Proof. destruct c as [[] [] [] [] [] [] [] []]; reflexivity. Qed.

Lemma all_space_lower s : all_space (lower s) = all_space s.
Proof.
  induction s as [|c s IH]; [reflexivity|].
  cbn [lower all_space]. rewrite is_space_lower_char, IH. reflexivity.
Qed.

Lemma all_space_take s : forall n,
  all_space s = true -> all_space (take n s) = true.
Proof.
  unfold take.
  induction s as [|c s IH]; intros n H.
  - destruct n; reflexivity.
  - destruct n as [|n]; [reflexivity|].
    cbn in *. apply andb_true_iff in H as [Hc Hs].
    rewrite Hc. cbn. apply IH. exact Hs.
Qed.

Lemma rstrip_empty s : is_empty (rstrip s) = true -> all_space s = true.
Proof.
  induction s as [|c s IH]; [reflexivity|].
  cbn [rstrip all_space].
  destruct (is_space c); cbn; [|discriminate].
  destruct (is_empty (rstrip s)); [intros _; auto | discriminate].
Qed.

Lemma lstrip_all_space s : all_space (lstrip s) = true -> all_space s = true.
Proof.
  induction s as [|c s IH]; [reflexivity|].
  cbn [lstrip all_space].
  destruct (is_space c) eqn:E; cbn.
  - exact IH.
  - rewrite E. discriminate.
Qed.

Lemma blank_all_space s : blank s = true -> all_space s = true.
Proof.
  unfold blank, strip. intros H.
  apply orb_true_iff in H as [H|H].
  - destruct s; [reflexivity | discriminate].
  - apply lstrip_all_space, rstrip_empty, H.
Qed.

Lemma strip_all_space s : all_space s = true -> strip s = EmptyString.
Proof.
  unfold strip. intros H.
  assert (lstrip s = EmptyString) as ->; [|reflexivity].
  induction s as [|c s IH]; [reflexivity|].
  cbn in *. apply andb_true_iff in H as [Hc Hs]. rewrite Hc. auto.
Qed.

Lemma normalized_blank query : blank query = true -> normalized query = EmptyString.
Proof.
  intros H. apply blank_all_space in H.
  unfold normalized. apply strip_all_space.
  rewrite all_space_lower.
  destruct (len query >? 10000); [apply all_space_take|]; exact H.
Qed.

Lemma question_type_spec_ok text :
  question_type_spec text = _analyze_question_type text.
Proof.
  unfold question_type_spec, _analyze_question_type, ordered_groups,
    fallback_type, any_match.
  cbn [List.find fst snd].
  destruct (existsb _ simple_patterns); [reflexivity|].
  destruct (existsb _ integration_patterns); [reflexivity|].
  destruct (existsb _ troubleshooting_patterns); [reflexivity|].
  destruct (existsb _ multi_step_patterns); [reflexivity|].
  destruct (existsb _ technical_patterns); reflexivity.
Qed.

Lemma question_type_score_spec_ok t :
  (question_type_score_spec t == complexity_weights t)%Q.
Proof. destruct t; reflexivity. Qed.

Lemma complexity_spec_ok text :
  (complexity_spec text
   == Qmin (_calculate_length_score text + _calculate_technical_score text
            + _analyze_question_type_score text) 1)%Q.
Proof.
  unfold complexity_spec, _calculate_length_score, _calculate_technical_score,
    _analyze_question_type_score, length_score_spec, technical_term_score_spec.
  rewrite question_type_spec_ok, question_type_score_spec_ok. reflexivity.
Qed.

Lemma Qplus_nonneg a b : (0 <= a -> 0 <= b -> 0 <= a + b)%Q.
Proof. intros Ha Hb. exact (Qplus_le_compat 0 a 0 b Ha Hb). Qed.

Lemma inject_Z_nonneg z : 0 <= z -> (0 <= inject_Z z)%Q.
Proof. intros H. unfold Qle. cbn. lia. Qed.

Lemma length_score_nonneg text : (0 <= _calculate_length_score text)%Q.
Proof.
  unfold _calculate_length_score. apply Q.min_glb; [|discriminate].
  apply Qle_shift_div_l; [reflexivity|].
  rewrite Qmult_0_l. apply inject_Z_nonneg. unfold word_count. lia.
Qed.

Lemma technical_score_nonneg text : (0 <= _calculate_technical_score text)%Q.
Proof.
  unfold _calculate_technical_score. apply Q.min_glb; [|discriminate].
  apply Qmult_le_0_compat; [|discriminate].
  apply Qle_shift_div_l; [reflexivity|].
  rewrite Qmult_0_l. apply inject_Z_nonneg. unfold _count_technical_terms. lia.
Qed.

Lemma question_score_nonneg text : (0 <= _analyze_question_type_score text)%Q.
Proof.
  unfold _analyze_question_type_score.
  destruct (_analyze_question_type text); discriminate.
Qed.

(** In exact arithmetic the score of [calculate_complexity] is the
    formula of the specification, read on the normalized text, and lies
    between 0 and 1. *)
Lemma calculate_complexity_rational :
  forall query : string,
    (calculate_complexity query == complexity_spec (normalized query))%Q
    /\ (0 <= calculate_complexity query <= 1)%Q.
Proof.
  intros query.
  assert (Hnb : blank query = false ->
                (calculate_complexity query
                 == complexity_spec (normalized query))%Q).
  { intros Hb. unfold calculate_complexity. rewrite Hb.
    rewrite complexity_spec_ok. reflexivity. }
  destruct (blank query) eqn:Hb.
  - unfold calculate_complexity. rewrite Hb.
    rewrite (normalized_blank query Hb).
    split; [vm_compute; reflexivity | split; discriminate].
  - split; [apply Hnb; reflexivity|].
    unfold calculate_complexity. rewrite Hb. split.
    + apply Q.min_glb; [|discriminate].
      pose proof (length_score_nonneg (strip (lower
        (if len query >? 10000 then take (Z.to_nat 10000) query else query)))).
      pose proof (technical_score_nonneg (strip (lower
        (if len query >? 10000 then take (Z.to_nat 10000) query else query)))).
      pose proof (question_score_nonneg (strip (lower
        (if len query >? 10000 then take (Z.to_nat 10000) query else query)))).
      repeat apply Qplus_nonneg; assumption.
    + apply Q.le_min_r.
Qed.

End ComplexityFacts.

(** ** The semantic cache *)

Section DictFacts.
Import Cache.
Context {V : Type}.
Implicit Types (d : dict V) (k : string) (v : V).

Lemma dict_get_In k v d : dict_get k d = Some v -> In (k, v) d.
Proof.
  induction d as [|[k' v'] d IH]; cbn; [discriminate|].
  destruct (String.eqb_spec k k') as [->|Hne].
  - intros [= ->]. left. reflexivity.
  - intros H. right. exact (IH H).
Qed.

Lemma dict_get_not_key k d : ~ In k (keys d) -> dict_get k d = None.
Proof.
  induction d as [|[k' v'] d IH]; cbn; [reflexivity|].
  intros H. destruct (String.eqb_spec k k') as [->|Hne].
  - exfalso. apply H. left. reflexivity.
  - apply IH. intros Hin. apply H. right. exact Hin.
Qed.

Lemma dict_get_key k v d : dict_get k d = Some v -> In k (keys d).
Proof. intros H. apply dict_get_In in H. exact (in_map fst _ _ H). Qed.

Lemma In_dict_get k v d :
  List.NoDup (keys d) -> In (k, v) d -> dict_get k d = Some v.
Proof.
  induction d as [|[k' v'] d IH]; cbn; [tauto|].
  intros Hnd [Heq|Hin].
  - injection Heq as -> ->. rewrite String.eqb_refl. reflexivity.
  - inversion Hnd as [|? ? Hk' Hnd']; subst.
    destruct (String.eqb_spec k k') as [->|Hne].
    + exfalso. apply Hk'. exact (in_map fst _ _ Hin).
    + exact (IH Hnd' Hin).
Qed.

Lemma dict_get_set_eq k v d : dict_get k (dict_set k v d) = Some v.
Proof.
  induction d as [|[k' v'] d IH]; cbn.
  - rewrite String.eqb_refl. reflexivity.
  - destruct (String.eqb_spec k k') as [->|Hne]; cbn.
    + rewrite String.eqb_refl. reflexivity.
    + destruct (String.eqb_spec k k'); [contradiction|exact IH].
Qed.

Lemma dict_get_set_ne k k' v d :
  k <> k' -> dict_get k' (dict_set k v d) = dict_get k' d.
Proof.
  intros Hne. induction d as [|[k1 v1] d IH]; cbn.
  - destruct (String.eqb_spec k' k); [congruence|reflexivity].
  - destruct (String.eqb_spec k k1) as [->|Hne1]; cbn.
    + destruct (String.eqb_spec k' k1); [congruence|reflexivity].
    + destruct (String.eqb_spec k' k1); [reflexivity|exact IH].
Qed.

Lemma keys_dict_set_present k v d :
  In k (keys d) -> keys (dict_set k v d) = keys d.
Proof.
  induction d as [|[k' v'] d IH]; cbn; [tauto|].
  intros H. destruct (String.eqb_spec k k') as [->|Hne]; cbn; [reflexivity|].
  f_equal. apply IH. destruct H; [congruence|assumption].
Qed.

Lemma dict_set_absent k v d :
  ~ In k (keys d) -> dict_set k v d = (d ++ [(k, v)])%list.
Proof.
  induction d as [|[k' v'] d IH]; cbn; [reflexivity|].
  intros H. destruct (String.eqb_spec k k') as [->|Hne].
  - exfalso. apply H. left. reflexivity.
  - f_equal. apply IH. intros Hin. apply H. right. exact Hin.
Qed.

Lemma dict_del_absent k d : ~ In k (keys d) -> dict_del k d = d.
Proof.
  induction d as [|[k' v'] d IH]; cbn; [reflexivity|].
  intros H. destruct (String.eqb_spec k k') as [->|Hne].
  - exfalso. apply H. left. reflexivity.
  - f_equal. apply IH. intros Hin. apply H. right. exact Hin.
Qed.

Lemma In_dict_del k kv d : In kv (dict_del k d) -> In kv d.
Proof.
  induction d as [|[k' v'] d IH]; cbn; [tauto|].
  destruct (String.eqb_spec k k') as [->|Hne]; cbn.
  - intros H. right. exact H.
  - intros [H|H]; [left; exact H | right; exact (IH H)].
Qed.

Lemma keys_dict_del k k' d : In k' (keys (dict_del k d)) -> In k' (keys d).
Proof.
  unfold keys. rewrite !in_map_iff.
  intros (kv & Hk & Hin). exists kv. split; [exact Hk|].
  eapply In_dict_del. exact Hin.
Qed.

Lemma NoDup_dict_del k d : List.NoDup (keys d) -> List.NoDup (keys (dict_del k d)).
Proof.
  induction d as [|[k' v'] d IH]; cbn; [auto|].
  intros Hnd. inversion Hnd as [|? ? Hk' Hnd']; subst.
  destruct (String.eqb_spec k k') as [->|Hne]; cbn; [exact Hnd'|].
  constructor; [|exact (IH Hnd')].
  intros Hin. apply Hk'. eapply keys_dict_del. exact Hin.
Qed.

Lemma dict_get_del_eq k d : List.NoDup (keys d) -> dict_get k (dict_del k d) = None.
Proof.
  induction d as [|[k' v'] d IH]; cbn; [reflexivity|].
  intros Hnd. inversion Hnd as [|? ? Hk' Hnd']; subst.
  destruct (String.eqb_spec k k') as [->|Hne]; cbn.
  - apply dict_get_not_key. exact Hk'.
  - destruct (String.eqb_spec k k'); [contradiction|exact (IH Hnd')].
Qed.

Lemma dict_get_del_ne k k' d :
  k <> k' -> dict_get k' (dict_del k d) = dict_get k' d.
Proof.
  intros Hne. induction d as [|[k1 v1] d IH]; cbn; [reflexivity|].
  destruct (String.eqb_spec k k1) as [->|Hne1]; cbn.
  - destruct (String.eqb_spec k' k1); [congruence|reflexivity].
  - destruct (String.eqb_spec k' k1); [reflexivity|exact IH].
Qed.

Lemma length_dict_del k v d :
  dict_get k d = Some v -> S (length (dict_del k d)) = length d.
Proof.
  induction d as [|[k' v'] d IH]; cbn; [discriminate|].
  destruct (String.eqb_spec k k') as [->|Hne]; cbn; [reflexivity|].
  intros H. f_equal. exact (IH H).
Qed.

Lemma NoDup_dict_set k v d : List.NoDup (keys d) -> List.NoDup (keys (dict_set k v d)).
Proof.
  intros Hnd. destruct (in_dec string_dec k (keys d)) as [Hin|Hnin].
  - rewrite keys_dict_set_present by exact Hin. exact Hnd.
  - rewrite dict_set_absent by exact Hnin.
    unfold keys. rewrite map_app. cbn.
    apply List.NoDup_app.
    + exact Hnd.
    + constructor; [intros []|constructor].
    + intros x Hx [<-|[]]. exact (Hnin Hx).
Qed.

Lemma dict_get_filter (p : string * V -> bool) k v d :
  dict_get k d = Some v -> p (k, v) = true ->
  dict_get k (List.filter p d) = Some v.
Proof.
  induction d as [|[k' v'] d IH]; cbn; [discriminate|].
  destruct (String.eqb_spec k k') as [->|Hne].
  - intros [= ->] Hp. rewrite Hp. cbn. rewrite String.eqb_refl. reflexivity.
  - intros Hg Hp. destruct (p (k', v')); cbn; [|exact (IH Hg Hp)].
    destruct (String.eqb_spec k k'); [contradiction|exact (IH Hg Hp)].
Qed.

Lemma fold_dict_del_skip k v ks : forall d,
  ~ In k ks ->
  fold_left (fun d k => dict_del k d) ks ((k, v) :: d)
  = (k, v) :: fold_left (fun d k => dict_del k d) ks d.
Proof.
  induction ks as [|k1 ks IH]; intros d Hn; cbn; [reflexivity|].
  destruct (String.eqb_spec k1 k) as [->|Hne].
  - exfalso. apply Hn. left. reflexivity.
  - apply IH. intros Hin. apply Hn. right. exact Hin.
Qed.

(** Deleting the keys that satisfy [p] leaves the bindings that do not. *)
Lemma fold_dict_del_filter (p : string * V -> bool) d :
  List.NoDup (keys d) ->
  fold_left (fun d k => dict_del k d) (keys (List.filter p d)) d
  = List.filter (fun kv => negb (p kv)) d.
Proof.
  induction d as [|[k v] d IH]; cbn; [reflexivity|].
  intros Hnd. inversion Hnd as [|? ? Hk Hnd']; subst.
  destruct (p (k, v)); cbn.
  - rewrite String.eqb_refl. exact (IH Hnd').
  - rewrite fold_dict_del_skip.
    + f_equal. exact (IH Hnd').
    + intros Hin. apply Hk. unfold keys in *.
      apply in_map_iff in Hin as (kv & Hkv & Hin).
      apply filter_In in Hin as [Hin _].
      apply in_map_iff. exists kv. auto.
Qed.

End DictFacts.

Section CacheFacts.
Import Py Cache.
Context {L : Libraries}.

(** The settings of a cache and its entries: what [_vectorize_query]
    never touches. *)
Definition same_entries (c c' : SemanticCache) : Prop :=
  cache c' = cache c
  /\ ttl_seconds c' = ttl_seconds c
  /\ max_cache_size c' = max_cache_size c
  /\ similarity_threshold c' = similarity_threshold c.

Lemma same_entries_refl c : same_entries c c.
Proof. repeat split. Qed.

Lemma same_entries_trans c1 c2 c3 :
  same_entries c1 c2 -> same_entries c2 c3 -> same_entries c1 c3.
Proof.
  intros (A1 & A2 & A3 & A4) (B1 & B2 & B3 & B4).
  repeat split; congruence.
Qed.

Lemma vectorize_same_entries c q :
  same_entries c (fst (_vectorize_query c q)).
Proof.
  unfold _vectorize_query.
  destruct (blank q); [apply same_entries_refl|].
  destruct (vectorizer c); [apply same_entries_refl|].
  destruct (query_vectors c) as [|p qv].
  - destruct (fit [q]); [|apply same_entries_refl]. repeat split.
  - destruct (fit _); [|apply same_entries_refl].
    destruct (revectorize _ _ _) as [qv' []]; repeat split.
Qed.

Lemma find_similar_same_entries c q m :
  same_entries c (fst (_find_similar_query c q m)).
Proof.
  unfold _find_similar_query.
  destruct (query_vectors c); [apply same_entries_refl|].
  pose proof (vectorize_same_entries c q) as H.
  destruct (_vectorize_query c q) as [c1 [v|]]; exact H.
Qed.

Lemma dict_get_None_not_key {V} k (d : dict V) :
  dict_get k d = None -> ~ In k (keys d).
Proof.
  induction d as [|[k' v'] d IH]; cbn; [tauto|].
  destruct (String.eqb_spec k k') as [->|Hne]; [discriminate|].
  intros H [Heq|Hin]; [congruence|exact (IH H Hin)].
Qed.

Lemma remove_entry_cache c k :
  cache (_remove_entry c k) = dict_del k (cache c)
  /\ ttl_seconds (_remove_entry c k) = ttl_seconds c
  /\ max_cache_size (_remove_entry c k) = max_cache_size c
  /\ similarity_threshold (_remove_entry c k) = similarity_threshold c.
Proof.
  unfold _remove_entry.
  destruct (dict_get k (cache c)) eqn:E; cbn; [repeat split|].
  repeat split. symmetry. apply dict_del_absent, dict_get_None_not_key, E.
Qed.

Lemma remove_entries_cache ks : forall c,
  cache (fold_left _remove_entry ks c)
  = fold_left (fun d k => dict_del k d) ks (cache c)
  /\ ttl_seconds (fold_left _remove_entry ks c) = ttl_seconds c
  /\ max_cache_size (fold_left _remove_entry ks c) = max_cache_size c
  /\ similarity_threshold (fold_left _remove_entry ks c)
     = similarity_threshold c.
Proof.
  induction ks as [|k ks IH]; intros c; cbn; [repeat split|].
  destruct (IH (_remove_entry c k)) as (A1 & A2 & A3 & A4).
  destruct (remove_entry_cache c k) as (B1 & B2 & B3 & B4).
  repeat split; congruence.
Qed.

(** [_cleanup_expired] leaves exactly the entries that are not expired. *)
Lemma cleanup_cache c now :
  List.NoDup (keys (cache c)) ->
  cache (_cleanup_expired c now)
  = List.filter (fun kv => negb (_is_expired c (snd kv) now)) (cache c)
  /\ ttl_seconds (_cleanup_expired c now) = ttl_seconds c
  /\ max_cache_size (_cleanup_expired c now) = max_cache_size c
  /\ similarity_threshold (_cleanup_expired c now) = similarity_threshold c.
Proof.
  intros Hnd. unfold _cleanup_expired.
  destruct (remove_entries_cache
              (keys (List.filter (fun kv => _is_expired c (snd kv) now) (cache c)))
              c) as (A1 & A2 & A3 & A4).
  repeat split; try assumption.
  rewrite A1. apply fold_dict_del_filter. exact Hnd.
Qed.

Lemma is_expired_ttl c c' e now :
  ttl_seconds c' = ttl_seconds c -> _is_expired c' e now = _is_expired c e now.
Proof. unfold _is_expired. intros ->. reflexivity. Qed.

Lemma is_expired_false c e now :
  _is_expired c e now = false <-> now - created_at e <= ttl_seconds c * 1000000.
Proof. unfold _is_expired. rewrite Z.gtb_ltb, Z.ltb_ge. reflexivity. Qed.


(** The keys of a cache stay distinct. *)
Lemma evict_oldest_cache c :
  exists k, cache (_evict_oldest c) = dict_del k (cache c)
            /\ ttl_seconds (_evict_oldest c) = ttl_seconds c
            /\ max_cache_size (_evict_oldest c) = max_cache_size c
            /\ similarity_threshold (_evict_oldest c) = similarity_threshold c.
Proof.
  unfold _evict_oldest. destruct (cache c) as [|first rest] eqn:E.
  - exists EmptyString. rewrite E. repeat split.
  - exists (oldest rest first). rewrite <- E. apply remove_entry_cache.
Qed.

Lemma set_cache c q m r tok now :
  blank q = false -> is_empty r = false ->
  let c1 := if Z.of_nat (length (cache c)) >=? max_cache_size c
            then _evict_oldest c else c in
  cache (set c q m r tok now)
  = dict_set (_get_cache_key q m)
      {| query := q; model := m; response := r;
         tokens_used := tok; created_at := now |} (cache c1)
  /\ ttl_seconds (set c q m r tok now) = ttl_seconds c
  /\ max_cache_size (set c q m r tok now) = max_cache_size c
  /\ similarity_threshold (set c q m r tok now) = similarity_threshold c.
Proof.
  intros Hq Hr c1. unfold set. rewrite Hq, Hr. cbn [orb].
  fold c1.
  pose proof (vectorize_same_entries c1 q) as (A1 & A2 & A3 & A4).
  destruct (_vectorize_query c1 q) as [c2 ov]. cbn in *.
  assert (ttl_seconds c1 = ttl_seconds c /\ max_cache_size c1 = max_cache_size c
          /\ similarity_threshold c1 = similarity_threshold c) as (B2 & B3 & B4).
  { subst c1. destruct (_ >=? _); [|repeat split].
    destruct (evict_oldest_cache c) as (k & _ & H2 & H3 & H4). auto. }
  repeat split; congruence.
Qed.

Lemma set_keys_distinct c q m r tok now :
  List.NoDup (keys (cache c)) -> List.NoDup (keys (cache (set c q m r tok now))).
Proof.
  intros Hnd.
  destruct (blank q) eqn:Hq; [unfold set; rewrite Hq; exact Hnd|].
  destruct (is_empty r) eqn:Hr;
    [unfold set; rewrite Hq, Hr; exact Hnd|].
  destruct (set_cache c q m r tok now Hq Hr) as (-> & _).
  apply NoDup_dict_set.
  destruct (_ >=? _); [|exact Hnd].
  destruct (evict_oldest_cache c) as (k & -> & _).
  apply NoDup_dict_del. exact Hnd.
Qed.

(** C5.  After [set(q, m, r, k)] with a query that is not blank and a
    response that is not empty, a [get(q, m)] made while the entry's age
    is within the TTL answers [r] with similarity 1.0, from the exact
    key. *)
Theorem set_then_get_round_trip :
  forall (c : SemanticCache) (q m r : string) (k t0 t1 : Z),
    List.NoDup (keys (cache c)) ->
    blank q = false ->
    is_empty r = false ->
    t1 - t0 <= ttl_seconds c * 1000000 ->
    snd (get (set c q m r k t0) q m t1)
    = Some {| hit_response := r; cached := true; similarity := 1 |}.
Proof.
  intros c q m r k t0 t1 Hnd Hq Hr Hage.
  pose proof (set_keys_distinct c q m r k t0 Hnd) as Hnd'.
  destruct (set_cache c q m r k t0 Hq Hr) as (Hc & Httl & _).
  set (c' := set c q m r k t0) in *.
  destruct (cleanup_cache c' t1 Hnd') as (Hclean & Httl' & _).
  unfold get. rewrite Hq.
  set (e := {| query := q; model := m; response := r;
               tokens_used := k; created_at := t0 |}) in *.
  assert (He : _is_expired c' e t1 = false).
  { apply is_expired_false. rewrite Httl. exact Hage. }
  assert (Hget : dict_get (_get_cache_key q m) (cache (_cleanup_expired c' t1))
                 = Some e).
  { rewrite Hclean. apply dict_get_filter.
    - rewrite Hc. apply dict_get_set_eq.
    - cbn. rewrite He. reflexivity. }
  rewrite Hget.
  rewrite (is_expired_ttl c' (_cleanup_expired c' t1) e t1 Httl'), He.
  reflexivity.
Qed.

Lemma dict_get_filter_inv {V} (p : string * V -> bool) k v (d : dict V) :
  List.NoDup (keys d) ->
  dict_get k (List.filter p d) = Some v ->
  dict_get k d = Some v /\ p (k, v) = true.
Proof.
  intros Hnd H. apply dict_get_In, filter_In in H as [Hin Hp].
  split; [apply In_dict_get; assumption | exact Hp].
Qed.

Lemma get_same_entries c q m now :
  blank q = false ->
  same_entries (_cleanup_expired c now) (fst (get c q m now)).
Proof.
  intros Hq. unfold get. rewrite Hq.
  set (c1 := _cleanup_expired c now).
  destruct (match dict_get (_get_cache_key q m) (cache c1) with
            | Some e => if _is_expired c1 e now then None else Some e
            | None => None
            end); [apply same_entries_refl|].
  pose proof (find_similar_same_entries c1 q m) as H12.
  destruct (_find_similar_query c1 q m) as [c2 [sk|]]; [|exact H12].
  cbn [fst] in H12.
  destruct (is_empty sk); [exact H12|].
  destruct (dict_get sk (cache c2)) as [e|]; [|exact H12].
  destruct (_is_expired c2 e now); [exact H12|].
  pose proof (vectorize_same_entries c2 q) as H23.
  destruct (_vectorize_query c2 q) as [c3 qv]. cbn [fst] in H23.
  pose proof (same_entries_trans _ _ _ H12 H23) as H13.
  destruct qv as [v|]; [|exact H13].
  destruct (dict_get (query e) (query_vectors c3)) as [cv|]; [|exact H13].
  destruct (cosine_similarity v cv); exact H13.
Qed.

(** What a hit of [get] is served from: an entry of the cache, as it is
    after the clean-up, that is not expired. *)
Lemma get_hit_source c q m now h :
  snd (get c q m now) = Some h ->
  exists k e,
    dict_get k (cache (_cleanup_expired c now)) = Some e
    /\ hit_response h = response e
    /\ _is_expired (_cleanup_expired c now) e now = false.
Proof.
  unfold get. destruct (blank q); [discriminate|].
  set (c1 := _cleanup_expired c now).
  destruct (dict_get (_get_cache_key q m) (cache c1)) as [e|] eqn:Hex.
  - destruct (_is_expired c1 e now) eqn:Hexp.
    + pose proof (find_similar_same_entries c1 q m) as H12.
      destruct (_find_similar_query c1 q m) as [c2 [sk|]]; [|discriminate].
      destruct H12 as (Hc & Ht & _). cbn [fst] in Hc, Ht.
      destruct (is_empty sk); [discriminate|].
      destruct (dict_get sk (cache c2)) as [e2|] eqn:Hsk; [|discriminate].
      destruct (_is_expired c2 e2 now) eqn:Hexp2; [discriminate|].
      intros Hh. exists sk, e2. rewrite <- Hc.
      rewrite <- (is_expired_ttl c1 c2 e2 now Ht).
      split; [exact Hsk|]. split; [|exact Hexp2].
      destruct (_vectorize_query c2 q) as [c3 [v|]]; [|discriminate].
      destruct (dict_get (query e2) (query_vectors c3)) as [cv|];
        [|discriminate].
      destruct (cosine_similarity v cv); injection Hh as <-; reflexivity.
    + intros [= <-]. exists (_get_cache_key q m), e. auto.
  - pose proof (find_similar_same_entries c1 q m) as H12.
    destruct (_find_similar_query c1 q m) as [c2 [sk|]]; [|discriminate].
    destruct H12 as (Hc & Ht & _). cbn [fst] in Hc, Ht.
    destruct (is_empty sk); [discriminate|].
    destruct (dict_get sk (cache c2)) as [e2|] eqn:Hsk; [|discriminate].
    destruct (_is_expired c2 e2 now) eqn:Hexp2; [discriminate|].
    intros Hh. exists sk, e2. rewrite <- Hc.
    rewrite <- (is_expired_ttl c1 c2 e2 now Ht).
    split; [exact Hsk|]. split; [|exact Hexp2].
    destruct (_vectorize_query c2 q) as [c3 [v|]]; [|discriminate].
    destruct (dict_get (query e2) (query_vectors c3)) as [cv|];
      [|discriminate].
    destruct (cosine_similarity v cv); injection Hh as <-; reflexivity.
Qed.

(** C4.  [get] never answers from an entry older than the TTL: a hit is
    the response of an entry of the cache whose age is at most
    [ttl_seconds]; after a [get] (of a query that is not blank) no older
    entry is left in the cache; and when every entry is older, [get]
    misses, on the exact key and on the similarity search alike. *)
Theorem get_never_returns_expired :
  forall (c : SemanticCache) (q m : string) (now : Z),
    List.NoDup (keys (cache c)) ->
    (forall h, snd (get c q m now) = Some h ->
       exists k e, dict_get k (cache c) = Some e
                   /\ hit_response h = response e
                   /\ now - created_at e <= ttl_seconds c * 1000000)
    /\ (blank q = false ->
        forall k e, dict_get k (cache (fst (get c q m now))) = Some e ->
                    now - created_at e <= ttl_seconds c * 1000000)
    /\ ((forall k e, dict_get k (cache c) = Some e ->
                     now - created_at e > ttl_seconds c * 1000000) ->
        snd (get c q m now) = None).
Proof.
  intros c q m now Hnd.
  destruct (cleanup_cache c now Hnd) as (Hclean & Httl & _).
  assert (H1 : forall h, snd (get c q m now) = Some h ->
       exists k e, dict_get k (cache c) = Some e
                   /\ hit_response h = response e
                   /\ now - created_at e <= ttl_seconds c * 1000000).
  { intros h Hh. destruct (get_hit_source c q m now h Hh) as (k & e & Hk & Hr & He).
    exists k, e. rewrite Hclean in Hk.
    apply dict_get_filter_inv in Hk as [Hk _]; [|exact Hnd].
    repeat split; try assumption.
    rewrite (is_expired_ttl c _ e now Httl) in He.
    apply is_expired_false. exact He. }
  split; [exact H1|]. split.
  - intros Hq k e Hk.
    destruct (get_same_entries c q m now Hq) as (Hc & _).
    rewrite Hc, Hclean in Hk.
    apply dict_get_filter_inv in Hk as [_ Hk]; [|exact Hnd].
    cbn in Hk. apply negb_true_iff in Hk.
    apply is_expired_false. exact Hk.
  - intros Hall. destruct (snd (get c q m now)) as [h|] eqn:Hh; [|reflexivity].
    destruct (H1 h eq_refl) as (k & e & Hk & _ & Hage).
    specialize (Hall k e Hk). lia.
Qed.

(** *** The similarity search *)

(** The similarity that the loop of [_find_similar_query] computes for
    an entry: none when the entry is of another model, when its query has
    no vector, or when [cosine_similarity] raises. *)
Definition candidate (c : SemanticCache) (v : vector) (m : string)
    (e : Entry) : option Q :=
  if String.eqb (model e) m then
    match dict_get (query e) (query_vectors c) with
    | Some cv => cosine_similarity v cv
    | None => None
    end
  else None.

Lemma candidate_model c v m e s : candidate c v m e = Some s -> model e = m.
Proof.
  unfold candidate. destruct (String.eqb_spec (model e) m); [auto|discriminate].
Qed.

Lemma scan_cons c v m k e rest best bk :
  scan c v m ((k, e) :: rest) best bk
  = match candidate c v m e with
    | Some s =>
        if Qltb best s && Qle_bool (similarity_threshold c) s
        then scan c v m rest s (Some k)
        else scan c v m rest best bk
    | None => scan c v m rest best bk
    end.
Proof.
  cbn [scan]. unfold candidate.
  destruct (String.eqb (model e) m); cbn [negb]; [|reflexivity].
  destruct (dict_get (query e) (query_vectors c)); reflexivity.
Qed.

Lemma accept_iff c best s :
  Qltb best s && Qle_bool (similarity_threshold c) s = true
  <-> (best < s /\ similarity_threshold c <= s)%Q.
Proof. rewrite andb_true_iff, Qltb_lt, Qle_bool_iff. reflexivity. Qed.

(** The loop returns either the key it was entered with, no entry of
    the rest being accepted, or the first entry of the greatest
    acceptable similarity. *)
Lemma scan_spec c v m : forall items best bk k,
  scan c v m items best bk = Some k ->
  (bk = Some k
   /\ forall k' e' s', In (k', e') items -> candidate c v m e' = Some s' ->
                       ~ (best < s' /\ similarity_threshold c <= s')%Q)
  \/ exists before e after s,
       items = (before ++ (k, e) :: after)%list
       /\ candidate c v m e = Some s
       /\ (best < s)%Q /\ (similarity_threshold c <= s)%Q
       /\ (forall k' e' s', In (k', e') before ->
             candidate c v m e' = Some s' -> (s' < s)%Q)
       /\ (forall k' e' s', In (k', e') after ->
             candidate c v m e' = Some s' -> (s' <= s)%Q).
Proof.
  induction items as [|[k0 e0] rest IH]; intros best bk k Hscan.
  - cbn in Hscan. left. split; [exact Hscan|]. intros ? ? ? [].
  - rewrite scan_cons in Hscan.
    assert (Hskip : scan c v m rest best bk = Some k ->
              (forall s0, candidate c v m e0 = Some s0 ->
                          ~ (best < s0 /\ similarity_threshold c <= s0)%Q) ->
              (bk = Some k
               /\ forall k' e' s', In (k', e') ((k0, e0) :: rest) ->
                    candidate c v m e' = Some s' ->
                    ~ (best < s' /\ similarity_threshold c <= s')%Q)
              \/ exists before e after s,
                   ((k0, e0) :: rest) = (before ++ (k, e) :: after)%list
                   /\ candidate c v m e = Some s
                   /\ (best < s)%Q /\ (similarity_threshold c <= s)%Q
                   /\ (forall k' e' s', In (k', e') before ->
                         candidate c v m e' = Some s' -> (s' < s)%Q)
                   /\ (forall k' e' s', In (k', e') after ->
                         candidate c v m e' = Some s' -> (s' <= s)%Q)).
    { intros Hrest Hrej.
      destruct (IH best bk k Hrest)
        as [[Hbk Hno] | (before & e & after & s & -> & Hc & Hb & Ht & Hbef & Haft)].
      - left. split; [exact Hbk|].
        intros k' e' s' [Heq|Hin] Hcand.
        + injection Heq as <- <-. exact (Hrej s' Hcand).
        + exact (Hno k' e' s' Hin Hcand).
      - right. exists ((k0, e0) :: before), e, after, s.
        repeat split; try assumption.
        intros k' e' s' [Heq|Hin] Hcand; [|exact (Hbef k' e' s' Hin Hcand)].
        injection Heq as <- <-.
        destruct (Qlt_le_dec s' s) as [Hlt|Hle]; [exact Hlt|].
        exfalso. apply (Hrej s' Hcand). split.
        + eapply Qlt_le_trans; eassumption.
        + eapply Qle_trans; eassumption. }
    destruct (candidate c v m e0) as [s0|] eqn:Hc0;
      [|apply Hskip; [exact Hscan | discriminate]].
    destruct (Qltb best s0 && Qle_bool (similarity_threshold c) s0) eqn:Hacc.
    + apply accept_iff in Hacc as [Hb0 Ht0].
      right.
      destruct (IH s0 (Some k0) k Hscan)
        as [[Hbk Hno] | (before & e & after & s & -> & Hc & Hb & Ht & Hbef & Haft)].
      * injection Hbk as <-.
        exists [], e0, rest, s0. repeat split; try assumption.
        -- intros ? ? ? [].
        -- intros k' e' s' Hin Hcand.
           destruct (Qlt_le_dec s0 s') as [Hlt|Hle]; [|exact Hle].
           exfalso. apply (Hno k' e' s' Hin Hcand). split; [exact Hlt|].
           apply Qlt_le_weak in Hlt. eapply Qle_trans; eassumption.
      * exists ((k0, e0) :: before), e, after, s.
        repeat split; try assumption.
        -- eapply Qlt_trans; eassumption.
        -- intros k' e' s' [Heq|Hin] Hcand; [|exact (Hbef k' e' s' Hin Hcand)].
           injection Heq as <- <-. congruence.
    + apply Hskip; [exact Hscan|].
      intros s1 [= <-] Hboth. apply accept_iff in Hboth. congruence.
Qed.

(** When the loop returns no key, it was entered with none and no entry
    is acceptable. *)
Lemma scan_none c v m : forall items best bk,
  scan c v m items best bk = None ->
  bk = None
  /\ forall k' e' s', In (k', e') items -> candidate c v m e' = Some s' ->
                      ~ (best < s' /\ similarity_threshold c <= s')%Q.
Proof.
  induction items as [|[k0 e0] rest IH]; intros best bk.
  - cbn. intros ->. split; [reflexivity|]. intros ? ? ? [].
  - rewrite scan_cons.
    destruct (candidate c v m e0) as [s0|] eqn:Hc0.
    + destruct (Qltb best s0 && Qle_bool (similarity_threshold c) s0) eqn:Hacc.
      * intros H. destruct (IH _ _ H) as [Habs _]. discriminate Habs.
      * intros H. destruct (IH _ _ H) as [Hbk Hno]. split; [exact Hbk|].
        intros k' e' s' [Heq|Hin] Hcand; [|exact (Hno k' e' s' Hin Hcand)].
        injection Heq as <- <-. rewrite Hc0 in Hcand. injection Hcand as <-.
        intros Hboth. apply accept_iff in Hboth. congruence.
    + intros H. destruct (IH _ _ H) as [Hbk Hno]. split; [exact Hbk|].
      intros k' e' s' [Heq|Hin] Hcand; [|exact (Hno k' e' s' Hin Hcand)].
      injection Heq as <- <-. congruence.
Qed.

(** C6 (as the code has it).  The similarity search, once the cache
    has vectors and the query gets one, returns a key exactly when some
    entry stored under the model asked for has a cosine similarity to the
    query that is positive and at least [similarity_threshold] (equality
    included).  The entry returned is such an entry: no entry of that
    model is more similar, and every entry that comes before it in the
    cache's iteration order is strictly less similar, so that of equally
    similar entries the first in iteration order is returned, whatever
    their dates.  Entries of other models have no similarity at all.
    Without vectors in the cache, or without a vector for the query,
    nothing is returned. *)
Theorem similar_match_is_first_best :
  forall (c : SemanticCache) (q m : string),
    let c' := fst (_find_similar_query c q m) in
    let found := snd (_find_similar_query c q m) in
    let acceptable v (e : Entry) :=
      exists s, candidate c' v m e = Some s
                /\ (0 < s)%Q /\ (similarity_threshold c <= s)%Q in
    cache c' = cache c
    /\ (forall v (e' : Entry), model e' <> m -> candidate c' v m e' = None)
    /\ (query_vectors c = [] -> found = None)
    /\ (snd (_vectorize_query c q) = None -> found = None)
    /\ (forall v,
          query_vectors c <> [] ->
          snd (_vectorize_query c q) = Some v ->
          ((exists k, found = Some k)
           <-> exists k e, In (k, e) (cache c) /\ acceptable v e))
    /\ (forall k,
          found = Some k ->
          exists v before e after s,
            snd (_vectorize_query c q) = Some v
            /\ cache c = (before ++ (k, e) :: after)%list
            /\ model e = m
            /\ candidate c' v m e = Some s
            /\ (similarity_threshold c <= s)%Q /\ (0 < s)%Q
            /\ (forall k' e' s', In (k', e') before ->
                  candidate c' v m e' = Some s' -> (s' < s)%Q)
            /\ (forall k' e' s', In (k', e') after ->
                  candidate c' v m e' = Some s' -> (s' <= s)%Q)).
Proof.
  intros c q m. cbn zeta.
  pose proof (find_similar_same_entries c q m) as (Hcache & _).
  split; [exact Hcache|].
  split.
  { intros v e' Hne. unfold candidate.
    destruct (String.eqb_spec (model e') m); [contradiction|reflexivity]. }
  unfold _find_similar_query.
  destruct (query_vectors c) as [|p qv] eqn:Eqv.
  { cbn [fst snd].
    split; [reflexivity|]. split; [reflexivity|].
    split; [intros v H; congruence | discriminate]. }
  pose proof (vectorize_same_entries c q) as (Hc & _ & _ & Hthr).
  destruct (_vectorize_query c q) as [c1 [v|]] eqn:Hvec; cbn [fst snd] in *.
  2: { split; [discriminate|]. split; [reflexivity|].
       split; [discriminate | discriminate]. }
  split; [discriminate|]. split; [discriminate|].
  destruct (scan c1 v m (cache c1) 0 None) as [k|] eqn:Hscan.
  - destruct (scan_spec c1 v m _ _ _ _ Hscan)
      as [[Hbk _] | (before & e & after & s & Hitems & Hcand & Hb & Ht & Hbef & Haft)];
      [discriminate|].
    split.
    + intros v0 _ [= <-]. split; [intros _ | intros _; eauto].
      exists k, e. split.
      * rewrite <- Hc, Hitems. apply in_elt.
      * exists s. rewrite <- Hthr. auto.
    + intros k0 [= <-]. exists v, before, e, after, s.
      rewrite <- Hc, <- Hthr.
      repeat split; try assumption.
      eapply candidate_model. exact Hcand.
  - destruct (scan_none c1 v m _ _ _ Hscan) as [_ Hno].
    split; [|discriminate].
    intros v0 _ [= <-]. split; [intros [k Hk]; discriminate|].
    intros (k & e & Hin & s & Hcand & Hpos & Hs). exfalso.
    apply (Hno k e s); [rewrite Hc; exact Hin | exact Hcand |].
    split; [exact Hpos | rewrite Hthr; exact Hs].
Qed.

(** *** Eviction *)

Lemma oldest_spec items : forall best,
  exists e, In (oldest items best, e) (best :: items)
            /\ forall k' e', In (k', e') (best :: items) ->
                             created_at e <= created_at e'.
Proof.
  induction items as [|[k1 e1] items IH]; intros [k0 e0].
  - exists e0. cbn. split; [left; reflexivity|].
    intros k' e' [[= <- <-]|[]]. lia.
  - cbn [oldest snd].
    destruct (created_at e1 <? created_at e0) eqn:Hlt.
    + apply Z.ltb_lt in Hlt.
      destruct (IH (k1, e1)) as (e & Hin & Hmin).
      exists e. split.
      * destruct Hin as [Heq|Hin]; [right; left; exact Heq | right; right; exact Hin].
      * intros k' e' [[= <- <-]|[[= <- <-]|Hin']].
        -- specialize (Hmin k1 e1 (or_introl eq_refl)). lia.
        -- exact (Hmin k1 e1 (or_introl eq_refl)).
        -- exact (Hmin k' e' (or_intror Hin')).
    + apply Z.ltb_ge in Hlt.
      destruct (IH (k0, e0)) as (e & Hin & Hmin).
      exists e. split.
      * destruct Hin as [Heq|Hin]; [left; exact Heq | right; right; exact Hin].
      * intros k' e' [[= <- <-]|[[= <- <-]|Hin']].
        -- exact (Hmin k0 e0 (or_introl eq_refl)).
        -- specialize (Hmin k0 e0 (or_introl eq_refl)). lia.
        -- exact (Hmin k' e' (or_intror Hin')).
Qed.


End CacheFacts.

(** *** The cache at work *)

Section CacheExamples.
Import Py Cache.

(** A stand-in for the libraries, to run the cache on examples: the
    fitted vectorizer is the list of the words of the fitted queries, a
    vector counts the occurrences of each of them, two vectors of
    different lengths cannot be compared, equal vectors have similarity 1,
    vectors without a common word 0 and any other two 1/2; the digest of
    a text is the text. *)
Fixpoint distinct (ws : list string) : list string :=
  match ws with
  | [] => []
  | w :: rest =>
      if existsb (String.eqb w) rest then distinct rest else w :: distinct rest
  end.

Definition bag_fit (docs : list string) : option (list string) :=
  match distinct (flat_map (fun d => split (lower d)) docs) with
  | [] => None
  | vocabulary => Some vocabulary
  end.

Definition bag_transform (vocabulary : list string) (q : string)
    : option (list Z) :=
  Some (map (fun w => Z.of_nat (length (List.filter (String.eqb w)
                                          (split (lower q)))))
            vocabulary).

Definition bag_cosine (a b : list Z) : option Q :=
  if negb (Nat.eqb (length a) (length b)) then None
  else if forallb (fun p => fst p * snd p =? 0) (combine a b) then Some 0%Q
  else if forallb (fun p => fst p =? snd p) (combine a b) then Some 1%Q
  else Some (1 # 2)%Q.

Definition bags : Libraries :=
  {| vector := list Z;
     fitted_vectorizer := list string;
     fit := bag_fit;
     transform := bag_transform;
     cosine_similarity := bag_cosine;
     md5_hexdigest := fun text => text |}.

(** Two entries of one model whose queries have the same words, the
    second stored one second after the first; the cache holds at most
    two entries, for an hour. *)
Definition two_entries : SemanticCache (L := bags) :=
  set (set (init (85 # 100) 2 3600) "reset password" "m" "A" 7 1000000)
      "password reset" "m" "B" 9 2000000.

Lemma two_entries_keys : List.NoDup (keys (cache two_entries)).
Proof.
  vm_compute. repeat constructor; cbn; intuition discriminate.
Qed.

Lemma set_then_get_round_trip_witness :
  snd (get (set two_entries "billing question" "m" "C" 5 3000000)
           "billing question" "m" 4000000)
  = Some {| hit_response := "C"; cached := true; similarity := 1 |}.
Proof.
  apply (set_then_get_round_trip (L := bags) two_entries
           "billing question" "m" "C" 5 3000000 4000000).
  - exact two_entries_keys.
  - reflexivity.
  - reflexivity.
  - vm_compute. discriminate.
Defined.

Lemma two_entries_cache :
  cache two_entries
  = [ ("reset password:m",
       {| query := "reset password"; model := "m"; response := "A";
          tokens_used := 7; created_at := 1000000 |});
      ("password reset:m",
       {| query := "password reset"; model := "m"; response := "B";
          tokens_used := 9; created_at := 2000000 |}) ]
  /\ ttl_seconds two_entries = 3600.
Proof. vm_compute. split; reflexivity. Qed.

Lemma get_never_returns_expired_witness :
  snd (get two_entries "password reset" "m" 3602000001) = None.
Proof.
  apply (proj2 (proj2 (get_never_returns_expired (L := bags) two_entries
                         "password reset" "m" 3602000001 two_entries_keys))).
  intros k e. destruct two_entries_cache as [-> ->]. cbn [dict_get].
  destruct (String.eqb k "reset password:m"); [intros [= <-]; cbn; lia|].
  destruct (String.eqb k "password reset:m"); [intros [= <-]; cbn; lia|].
  discriminate.
Defined.

(** The cache after a search for a query with the words of both
    entries. *)
Definition searched : SemanticCache (L := bags) :=
  fst (_find_similar_query two_entries "reset password please" "m").

Lemma two_entries_search :
  _find_similar_query two_entries "reset password please" "m"
  = (searched, Some "reset password:m").
Proof.
  assert (H : snd (_find_similar_query two_entries "reset password please" "m")
              = Some "reset password:m") by (vm_compute; reflexivity).
  rewrite <- H. apply surjective_pairing.
Qed.

Lemma similar_match_is_first_best_witness :
  exists v before e after s,
    snd (_vectorize_query two_entries "reset password please") = Some v
    /\ cache two_entries = (before ++ ("reset password:m", e) :: after)%list
    /\ model e = "m"
    /\ candidate searched v "m" e = Some s
    /\ (similarity_threshold two_entries <= s)%Q /\ (0 < s)%Q
    /\ (forall k' e' s', In (k', e') before ->
          candidate searched v "m" e' = Some s' -> (s' < s)%Q)
    /\ (forall k' e' s', In (k', e') after ->
          candidate searched v "m" e' = Some s' -> (s' <= s)%Q).
Proof.
  destruct (similar_match_is_first_best (L := bags) two_entries
              "reset password please" "m") as (_ & _ & _ & _ & _ & H).
  rewrite two_entries_search in H. exact (H "reset password:m" eq_refl).
Defined.

(** C6, the tie.  Both entries of [two_entries] have similarity 1 to
    the query; the search returns the first of them, which is the older
    one, not the most recent. *)
Lemma similarity_tie_goes_to_older_entry :
  snd (_find_similar_query two_entries "reset password please" "m")
  = Some "reset password:m"
  /\ (exists a b v,
        dict_get "reset password:m" (cache two_entries) = Some a
        /\ dict_get "password reset:m" (cache two_entries) = Some b
        /\ model a = "m" /\ model b = "m"
        /\ snd (_vectorize_query two_entries "reset password please") = Some v
        /\ candidate two_entries v "m" a = Some 1%Q
        /\ candidate two_entries v "m" b = Some 1%Q
        /\ created_at a < created_at b).
Proof.
  split; [vm_compute; reflexivity|].
  eexists _, _, _. vm_compute. repeat split; reflexivity.
Qed.


(** The entry of the smallest [created_at] is the one that goes. *)
Example set_at_capacity_example :
  cache (set two_entries "billing question" "m" "C" 5 3000000)
  = [ ("password reset:m",
       {| query := "password reset"; model := "m"; response := "B";
          tokens_used := 9; created_at := 2000000 |});
      ("billing question:m",
       {| query := "billing question"; model := "m"; response := "C";
          tokens_used := 5; created_at := 3000000 |}) ].
Proof. vm_compute. reflexivity. Qed.

End CacheExamples.

(** ** The fallback dispatch *)

Section DispatchFacts.
Import Py Query.
Variable network : nat -> string -> string -> post_outcome.

Lemma try_chain_step_fails q method model rest w e w1 :
  attempt_step network q method model w = (inr e, w1) ->
  try_chain network q ((method, model) :: rest) w
  = try_chain network q rest
      (snd (record_error (method +:+ "_failure") "/api/query" model w1)).
Proof. intros H. cbn [try_chain]. rewrite H. reflexivity. Qed.

Lemma try_chain_step_succeeds q method model rest w a w1 :
  attempt_step network q method model w = (inl (Some a), w1) ->
  try_chain network q ((method, model) :: rest) w = (inl a, w1).
Proof. intros H. cbn [try_chain]. rewrite H. reflexivity. Qed.

(** The dispatch never raises. *)
Lemma try_chain_returns q chain : forall w,
  exists a w', try_chain network q chain w = (inl a, w').
Proof.
  induction chain as [|[method model] rest IH]; intros w.
  - cbn. eauto.
  - cbn [try_chain].
    destruct (attempt_step network q method model w) as [[[a|]|e] w1].
    + eauto.
    + apply IH.
    + unfold bind, record_error. apply IH.
Qed.

(** Every step of a chain fails, one after the other: the worlds before
    the first step and after the last. *)
Inductive exhausted (q : string)
  : list (string * string) -> World -> World -> Prop :=
| exhausted_nil w : exhausted q [] w w
| exhausted_cons method model rest w e w1 w2 :
    attempt_step network q method model w = (inr e, w1) ->
    exhausted q rest
      (snd (record_error (method +:+ "_failure") "/api/query" model w1)) w2 ->
    exhausted q ((method, model) :: rest) w w2.

Lemma try_chain_exhausted q chain w w' :
  exhausted q chain w w' ->
  try_chain network q chain w
  = (inl (_generate_fallback_response q, Some 0, false, "fallback"),
     snd (record_error "all_llm_methods_failed" "/api/query" "fallback" w')).
Proof.
  induction 1 as [w | method model rest w e w1 w2 Hstep Hrest IH].
  - reflexivity.
  - rewrite (try_chain_step_fails _ _ _ _ _ _ _ Hstep). exact IH.
Qed.

(** No post of the network is answered with status 200 and a readable
    body. *)
Definition never_succeeds : Prop :=
  forall n url model,
    match network n url model with
    | Replied 200 (Some _) _ => False
    | _ => True
    end.

Lemma pass_fails body attempt max_retries o :
  body = kong_pass \/ body = groq_pass ->
  match o with Replied 200 (Some _) _ => False | _ => True end ->
  forall r, body attempt max_retries o <> Return r.
Proof.
  intros Hbody Ho r.
  destruct o as [code parsed hit| | |].
  - destruct (code =? 200) eqn:E200.
    + apply Z.eqb_eq in E200. subst code.
      destruct parsed as [[content tokens]|]; [contradiction|].
      destruct Hbody as [-> | ->]; cbn; unfold retry_or_break;
        destruct (attempt <? max_retries); discriminate.
    + destruct Hbody as [-> | ->]; cbn; rewrite E200; unfold retry_or_break;
        repeat match goal with
               | |- context [if ?b then _ else _] => destruct b
               end; discriminate.
  - destruct Hbody as [-> | ->]; cbn; unfold retry_or_break;
      destruct (attempt <? max_retries); discriminate.
  - destruct Hbody as [-> | ->]; cbn; unfold retry_or_break;
      destruct (attempt <? max_retries); discriminate.
  - destruct Hbody as [-> | ->]; cbn; unfold retry_or_break;
      destruct (attempt <? max_retries); discriminate.
Qed.

Lemma attempts_fail body url failure model max_retries :
  body = kong_pass \/ body = groq_pass ->
  never_succeeds ->
  forall n attempt w,
    exists e w', attempts network body url failure n attempt max_retries model w
                 = (inr e, w').
Proof.
  intros Hbody Hnet. induction n as [|n IH]; intros attempt w.
  - cbn. eauto.
  - cbn [attempts]. unfold bind at 1. unfold post at 1.
    pose proof (pass_fails body attempt max_retries
                  (network (length (posts w)) url model) Hbody
                  (Hnet _ _ _)) as Hno.
    destruct (body attempt max_retries (network (length (posts w)) url model))
      as [r|wait| |e].
    + exfalso. exact (Hno r eq_refl).
    + unfold bind, sleep. apply IH.
    + cbn. eauto.
    + cbn. eauto.
Qed.

Lemma attempt_step_fails q method model w :
  never_succeeds ->
  method = "kong" \/ method = "direct" ->
  exists e w', attempt_step network q method model w = (inr e, w').
Proof.
  intros Hnet [-> | ->]; unfold attempt_step; cbn [String.eqb Ascii.eqb Bool.eqb].
  - unfold _call_llm_via_kong, bind.
    destruct (attempts_fail kong_pass kong_url "kong_gateway_failure" model 2
                (or_introl eq_refl) Hnet (Z.to_nat (2 + 1)) 0 w)
      as (e & w' & ->). eauto.
  - unfold _call_groq_direct, bind.
    destruct (attempts_fail groq_pass groq_url "groq_api_failure" model 3
                (or_intror eq_refl) Hnet (Z.to_nat (3 + 1)) 0 w)
      as (e & w' & ->). eauto.
Qed.

Lemma never_succeeds_exhausted q chain :
  never_succeeds ->
  Forall (fun s => fst s = "kong" \/ fst s = "direct") chain ->
  forall w, exists w', exhausted q chain w w'.
Proof.
  intros Hnet. induction 1 as [|[method model] rest Hm _ IH]; intros w.
  - exists w. constructor.
  - destruct (attempt_step_fails q method model w Hnet Hm) as (e & w1 & Hstep).
    destruct (IH (snd (record_error (method +:+ "_failure") "/api/query"
                         model w1))) as (w2 & Hrest).
    exists w2. econstructor; eassumption.
Qed.

Lemma fallback_response_bucket q :
  In (_generate_fallback_response q)
    [ "Hello! I'm currently experiencing technical difficulties, but I'm here to help. Could you please try your question again in a moment?";
      "I apologize, but I'm experiencing technical issues right now. For immediate technical support, please contact our support team directly or try again in a few minutes.";
      "I'm sorry, but I'm currently unable to process your request due to technical difficulties. Please try again shortly, or contact our support team for immediate assistance." ].
Proof.
  unfold _generate_fallback_response.
  destruct (existsb _ _); [left; reflexivity|].
  destruct (existsb _ _); [right; left; reflexivity|].
  destruct (len q >? 100); [right; left | right; right; left]; reflexivity.
Qed.

(** The buckets of the canned response, as the specification names
    them, and the words that select them. *)
Inductive bucket := Greeting | Technical | Long | Generic.

Definition greeting_words : list string :=
  ["hello"; "hi"; "hey"; "good morning"; "good afternoon"].

Definition technical_words : list string :=
  ["technical"; "api"; "code"; "error"; "bug"; "integration"].

(** Some word of the list occurs in the query, in any case of letters. *)
Definition has_word (words : list string) (q : string) : bool :=
  existsb (fun word => contains word (lower q)) words.

Definition bucket_of (q : string) : bucket :=
  if has_word greeting_words q then Greeting
  else if has_word technical_words q then Technical
  else if len q >? 100 then Long
  else Generic.

Definition canned_response (b : bucket) : string :=
  match b with
  | Greeting => "Hello! I'm currently experiencing technical difficulties, but I'm here to help. Could you please try your question again in a moment?"
  | Technical | Long => "I apologize, but I'm experiencing technical issues right now. For immediate technical support, please contact our support team directly or try again in a few minutes."
  | Generic => "I'm sorry, but I'm currently unable to process your request due to technical difficulties. Please try again shortly, or contact our support team for immediate assistance."
  end.

Lemma fallback_response_choice q :
  _generate_fallback_response q = canned_response (bucket_of q).
Proof.
  unfold _generate_fallback_response, bucket_of, has_word, greeting_words,
    technical_words.
  destruct (existsb _ _); [reflexivity|].
  destruct (existsb _ _); [reflexivity|].
  destruct (len q >? 100); reflexivity.
Qed.

(** C1.  The dispatch always returns an answer, never an exception.  A
    step of the chain that fails is recorded and the next step is tried.
    When every step of the fallback chain fails, the answer is the canned
    response of the query's bucket, with zero tokens, not cached, model
    "fallback"; this is so, in particular, whenever no post is answered
    with a readable 200.  The bucket is chosen by keywords: the greeting
    when the query contains, in any case of letters, one of "hello", "hi",
    "hey", "good morning", "good afternoon"; else the technical apology
    when it contains one of "technical", "api", "code", "error", "bug",
    "integration", or when it is longer than 100 characters; else the
    generic apology. *)
Theorem dispatch_falls_back :
  forall (q preferred_model : string) (w : World),
    (exists a w',
        _process_llm_request_with_fallbacks network q preferred_model w
        = (inl a, w'))
    /\ (forall method model rest w0 e w1,
           attempt_step network q method model w0 = (inr e, w1) ->
           try_chain network q ((method, model) :: rest) w0
           = try_chain network q rest
               (snd (record_error (method +:+ "_failure") "/api/query"
                       model w1)))
    /\ (forall w',
           exhausted q (fallback_chain preferred_model) w w' ->
           _process_llm_request_with_fallbacks network q preferred_model w
           = (inl (_generate_fallback_response q, Some 0, false, "fallback"),
              snd (record_error "all_llm_methods_failed" "/api/query"
                     "fallback" w')))
    /\ (never_succeeds ->
        exists w',
          exhausted q (fallback_chain preferred_model) w w'
          /\ _process_llm_request_with_fallbacks network q preferred_model w
             = (inl (_generate_fallback_response q, Some 0, false, "fallback"),
                snd (record_error "all_llm_methods_failed" "/api/query"
                       "fallback" w')))
    /\ In (_generate_fallback_response q)
         [ "Hello! I'm currently experiencing technical difficulties, but I'm here to help. Could you please try your question again in a moment?";
           "I apologize, but I'm experiencing technical issues right now. For immediate technical support, please contact our support team directly or try again in a few minutes.";
           "I'm sorry, but I'm currently unable to process your request due to technical difficulties. Please try again shortly, or contact our support team for immediate assistance." ]
    /\ _generate_fallback_response q = canned_response (bucket_of q)
    /\ (existsb (fun word => contains word (lower q))
          ["hello"; "hi"; "hey"; "good morning"; "good afternoon"] = true ->
        _generate_fallback_response q
        = "Hello! I'm currently experiencing technical difficulties, but I'm here to help. Could you please try your question again in a moment?")
    /\ (existsb (fun word => contains word (lower q))
          ["hello"; "hi"; "hey"; "good morning"; "good afternoon"] = false ->
        existsb (fun word => contains word (lower q))
          ["technical"; "api"; "code"; "error"; "bug"; "integration"] = true
        \/ 100 < len q ->
        _generate_fallback_response q
        = "I apologize, but I'm experiencing technical issues right now. For immediate technical support, please contact our support team directly or try again in a few minutes.")
    /\ (existsb (fun word => contains word (lower q))
          ["hello"; "hi"; "hey"; "good morning"; "good afternoon"] = false ->
        existsb (fun word => contains word (lower q))
          ["technical"; "api"; "code"; "error"; "bug"; "integration"] = false ->
        len q <= 100 ->
        _generate_fallback_response q
        = "I'm sorry, but I'm currently unable to process your request due to technical difficulties. Please try again shortly, or contact our support team for immediate assistance.").
Proof.
  intros q pm w. unfold _process_llm_request_with_fallbacks.
  split; [apply try_chain_returns|].
  split; [intros; apply try_chain_step_fails with (e := e); assumption|].
  split; [intros w' H; apply try_chain_exhausted; exact H|].
  split; [|split; [apply fallback_response_bucket|];
           split; [apply fallback_response_choice|];
           rewrite fallback_response_choice;
           unfold bucket_of, has_word, greeting_words, technical_words;
           split; [intros ->; reflexivity|];
           split;
           [ intros -> [-> | Hlen]; [reflexivity|];
             destruct (existsb _ _); [reflexivity|];
             assert (E : (len q >? 100) = true) by (apply Z.gtb_lt; exact Hlen);
             rewrite E; reflexivity
           | intros -> -> Hlen;
             assert (E : (len q >? 100) = false)
               by (rewrite Z.gtb_ltb; apply Z.ltb_ge; exact Hlen);
             rewrite E; reflexivity ]].
  intros Hnet.
  assert (Hchain : Forall (fun s => fst s = "kong" \/ fst s = "direct")
                      (fallback_chain pm))
    by (unfold fallback_chain; repeat constructor; cbn; auto).
  destruct (never_succeeds_exhausted q (fallback_chain pm) Hnet Hchain w)
    as (w' & Hex).
  exists w'. split; [exact Hex|]. apply try_chain_exhausted. exact Hex.
Qed.

(** *** The dispatch and the circuit breaker *)

(** The same world with another [system_error_handler]. *)
Definition with_handler (h : ErrorHandler.SystemErrorHandler) (w : World)
    : World :=
  {| posts := posts w; sleeps := sleeps w; error_rates := error_rates w;
     handler := h |}.

(** A computation that neither reads nor writes the handler. *)
Definition handler_blind {A} (m : M A) : Prop :=
  forall h w, m (with_handler h w) = (fst (m w), with_handler h (snd (m w))).

Lemma blind_ret {A} (a : A) : handler_blind (ret a).
Proof. intros h w. reflexivity. Qed.

Lemma blind_raise {A} e : handler_blind (@raise A e).
Proof. intros h w. reflexivity. Qed.

Lemma blind_sleep s : handler_blind (sleep s).
Proof. intros h w. reflexivity. Qed.

Lemma blind_record_error a b c : handler_blind (record_error a b c).
Proof. intros h w. reflexivity. Qed.

Lemma blind_post url model : handler_blind (post network url model).
Proof. intros h w. reflexivity. Qed.

Lemma blind_bind {A B} (m : M A) (k : A -> M B) :
  handler_blind m -> (forall a, handler_blind (k a)) -> handler_blind (bind m k).
Proof.
  intros Hm Hk h w. unfold bind. rewrite Hm.
  destruct (m w) as [[a|e] w1]; cbn; [apply Hk | reflexivity].
Qed.

Lemma blind_attempts body url failure max_retries model : forall n attempt,
  handler_blind (attempts network body url failure n attempt max_retries model).
Proof.
  induction n as [|n IH]; intros attempt; cbn [attempts].
  - apply blind_bind; [apply blind_record_error | intros; apply blind_raise].
  - apply blind_bind; [apply blind_post|]. intros o.
    destruct (body attempt max_retries o).
    + apply blind_ret.
    + apply blind_bind; [apply blind_sleep | intros; apply IH].
    + apply blind_bind; [apply blind_record_error | intros; apply blind_raise].
    + apply blind_raise.
Qed.

Lemma blind_attempt_step q method model :
  handler_blind (attempt_step network q method model).
Proof.
  unfold attempt_step.
  destruct (String.eqb method "kong").
  - apply blind_bind; [apply blind_attempts|]. intros [[r t] c]. apply blind_ret.
  - destruct (String.eqb method "direct"); [|apply blind_ret].
    apply blind_bind; [apply blind_attempts|]. intros [[r t] c].
    apply blind_bind; [apply blind_record_error | intros; apply blind_ret].
Qed.

Lemma blind_try_chain q chain : handler_blind (try_chain network q chain).
Proof.
  induction chain as [|[method model] rest IH]; cbn [try_chain].
  - apply blind_bind; [apply blind_record_error | intros; apply blind_ret].
  - intros h w. rewrite blind_attempt_step.
    destruct (attempt_step network q method model w) as [[[a|]|e] w1]; cbn.
    + reflexivity.
    + apply IH.
    + apply (blind_bind _ _ (blind_record_error _ _ _) (fun _ => IH)).
Qed.

(** One pass of a retry loop, unfolded. *)
Lemma attempts_S body url failure max_retries model n attempt w :
  attempts network body url failure (S n) attempt max_retries model w
  = match body attempt max_retries (network (length (posts w)) url model) with
    | Return r => (inl r, snd (post network url model w))
    | Continue wait =>
        attempts network body url failure n (attempt + 1) max_retries model
          (snd (sleep wait (snd (post network url model w))))
    | Break =>
        (inr Exception,
         snd (record_error failure "/api/query" model
                (snd (post network url model w))))
    | Raise e => (inr e, snd (post network url model w))
    end.
Proof.
  cbn [attempts]. unfold bind at 1. unfold post at 1.
  destruct (body attempt max_retries _); reflexivity.
Qed.

Lemma attempts_posts_grow body url failure max_retries model : forall n attempt w,
  exists more,
    posts (snd (attempts network body url failure n attempt max_retries model w))
    = (posts w ++ more)%list.
Proof.
  induction n as [|n IH]; intros attempt w.
  - exists []. cbn. rewrite app_nil_r. reflexivity.
  - rewrite attempts_S.
    destruct (body attempt max_retries _) as [r|wait| |e];
      try (exists [(url, model)]; reflexivity).
    destruct (IH (attempt + 1)
                (snd (sleep wait (snd (post network url model w)))))
      as (more & H).
    rewrite H. cbn [posts sleep post snd]. rewrite <- app_assoc. eauto.
Qed.

(** The first request of a call goes to its URL, for its model. *)
Lemma attempts_first_post body url failure max_retries model n attempt w :
  exists more,
    posts (snd (attempts network body url failure (S n) attempt max_retries
                  model w))
    = (posts w ++ (url, model) :: more)%list.
Proof.
  rewrite attempts_S.
  destruct (body attempt max_retries _) as [r|wait| |e];
    try (exists []; reflexivity).
  destruct (attempts_posts_grow body url failure max_retries model n
              (attempt + 1)
              (snd (sleep wait (snd (post network url model w)))))
    as (more & H).
  rewrite H. cbn [posts sleep post snd]. rewrite <- app_assoc. eauto.
Qed.

Lemma attempt_step_posts_grow q method model w :
  exists more,
    posts (snd (attempt_step network q method model w))
    = (posts w ++ more)%list.
Proof.
  unfold attempt_step.
  destruct (String.eqb method "kong").
  - unfold _call_llm_via_kong, bind.
    destruct (attempts_posts_grow kong_pass kong_url "kong_gateway_failure"
                2 model (Z.to_nat (2 + 1)) 0 w) as (more & H).
    destruct (attempts _ _ _ _ _ _ _ _ w) as [[[[r t] c]|e] w1];
      cbn in *; eauto.
  - destruct (String.eqb method "direct");
      [|exists []; cbn; rewrite app_nil_r; reflexivity].
    unfold _call_groq_direct, bind.
    destruct (attempts_posts_grow groq_pass groq_url "groq_api_failure"
                3 model (Z.to_nat (3 + 1)) 0 w) as (more & H).
    destruct (attempts _ _ _ _ _ _ _ _ w) as [[[[r t] c]|e] w1];
      cbn in *; eauto.
Qed.

Lemma attempt_step_kong_first_post q model w :
  exists more,
    posts (snd (attempt_step network q "kong" model w))
    = (posts w ++ (kong_url, model) :: more)%list.
Proof.
  unfold attempt_step. cbn [String.eqb Ascii.eqb Bool.eqb].
  unfold _call_llm_via_kong, bind.
  change (Z.to_nat (2 + 1)) with 3%nat.
  destruct (attempts_first_post kong_pass kong_url "kong_gateway_failure"
              2 model 2 0 w) as (more & H).
  destruct (attempts _ _ _ _ _ _ _ _ w) as [[[[r t] c]|e] w1];
    cbn in *; eauto.
Qed.

(** One step of the chain, unfolded. *)
Lemma try_chain_cons q method model rest w :
  try_chain network q ((method, model) :: rest) w
  = match attempt_step network q method model w with
    | (inl (Some a), w1) => (inl a, w1)
    | (inl None, w1) => try_chain network q rest w1
    | (inr e, w1) =>
        try_chain network q rest
          (snd (record_error (method +:+ "_failure") "/api/query" model w1))
    end.
Proof.
  cbn [try_chain].
  destruct (attempt_step network q method model w) as [[[a|]|e] w1];
    reflexivity.
Qed.

Lemma try_chain_posts_grow q chain : forall w,
  exists more,
    posts (snd (try_chain network q chain w)) = (posts w ++ more)%list.
Proof.
  induction chain as [|[method model] rest IH]; intros w.
  - exists []. cbn. rewrite app_nil_r. reflexivity.
  - rewrite try_chain_cons.
    destruct (attempt_step_posts_grow q method model w) as (more & Hstep).
    destruct (attempt_step network q method model w) as [[[a|]|e] w1];
      cbn [snd] in Hstep.
    + cbn [snd]. eauto.
    + destruct (IH w1) as (more' & H). rewrite H, Hstep, <- app_assoc. eauto.
    + destruct (IH (snd (record_error (method +:+ "_failure") "/api/query"
                           model w1))) as (more' & H).
      rewrite H. cbn [posts record_error snd]. rewrite Hstep, <- app_assoc.
      eauto.
Qed.

Lemma dispatch_first_post q pm w :
  exists more,
    posts (snd (_process_llm_request_with_fallbacks network q pm w))
    = (posts w ++ (kong_url, pm) :: more)%list.
Proof.
  unfold _process_llm_request_with_fallbacks, fallback_chain.
  rewrite try_chain_cons.
  destruct (attempt_step_kong_first_post q pm w) as (more & Hstep).
  destruct (attempt_step network q "kong" pm w) as [[[a|]|e] w1];
    cbn [snd] in Hstep.
  - cbn [snd]. eauto.
  - match goal with
    | |- context [try_chain network q ?rest w1] =>
        destruct (try_chain_posts_grow q rest w1) as (more' & H)
    end.
    rewrite H, Hstep, <- app_assoc. cbn. eauto.
  - match goal with
    | |- context [try_chain network q ?rest ?w2] =>
        destruct (try_chain_posts_grow q rest w2) as (more' & H)
    end.
    rewrite H. cbn [posts record_error snd]. rewrite Hstep, <- app_assoc.
    cbn. eauto.
Qed.

Lemma is_circuit_open_true h comp et now :
  fst (ErrorHandler.is_circuit_open h comp et now) = true
  <-> exists b,
        ErrorHandler.circuit_breakers h !! ErrorHandler.make_key comp et = Some b
        /\ ErrorHandler.state b = ErrorHandler.OPEN
        /\ now - ErrorHandler.opened_at b <= ErrorHandler.cooldown.
Proof.
  unfold ErrorHandler.is_circuit_open.
  destruct (ErrorHandler.circuit_breakers h !! ErrorHandler.make_key comp et)
    as [b|]; [|split; [discriminate | intros (b & [=] & _)]].
  destruct (ErrorHandler.state b) eqn:Es.
  - split; [discriminate | intros (b' & [= <-] & Hs & _); congruence].
  - destruct (now - ErrorHandler.opened_at b >? ErrorHandler.cooldown) eqn:Ec; cbn.
    + split; [discriminate|]. intros (b' & [= <-] & _ & Hle).
      apply Z.gtb_lt in Ec. lia.
    + split; [|reflexivity]. intros _. exists b.
      repeat split; [exact Es|]. rewrite Z.gtb_ltb in Ec.
      apply Z.ltb_ge in Ec. lia.
  - split; [discriminate | intros (b' & [= <-] & Hs & _); congruence].
Qed.

(** C3 (as the code has it).  The dispatch neither reads nor writes the
    circuit breakers: with any handler in place of the current one it
    posts the same requests and gives the same answer, and the handler is
    as it was; its first request always goes to the gateway for the
    preferred model; a step that answers ends the dispatch and a step
    that fails is followed by the next.  [is_circuit_open] itself answers
    [True] for a key exactly when the key's entry is OPEN and no more
    than five minutes have passed since [opened_at]. *)
Theorem dispatch_ignores_breaker :
  forall (q preferred_model : string) (w : World),
    (forall h,
        _process_llm_request_with_fallbacks network q preferred_model
          (with_handler h w)
        = (fst (_process_llm_request_with_fallbacks network q preferred_model w),
           with_handler h
             (snd (_process_llm_request_with_fallbacks network q
                     preferred_model w))))
    /\ (exists more,
           posts (snd (_process_llm_request_with_fallbacks network q
                         preferred_model w))
           = (posts w ++ (kong_url, preferred_model) :: more)%list)
    /\ (forall method model rest w0 a w1,
           attempt_step network q method model w0 = (inl (Some a), w1) ->
           try_chain network q ((method, model) :: rest) w0 = (inl a, w1))
    /\ (forall method model rest w0 e w1,
           attempt_step network q method model w0 = (inr e, w1) ->
           try_chain network q ((method, model) :: rest) w0
           = try_chain network q rest
               (snd (record_error (method +:+ "_failure") "/api/query"
                       model w1)))
    /\ (forall h comp et now,
           fst (ErrorHandler.is_circuit_open h comp et now) = true
           <-> exists b,
                 ErrorHandler.circuit_breakers h
                   !! ErrorHandler.make_key comp et = Some b
                 /\ ErrorHandler.state b = ErrorHandler.OPEN
                 /\ now - ErrorHandler.opened_at b <= ErrorHandler.cooldown).
Proof.
  intros q pm w.
  split; [intros h; apply blind_try_chain|].
  split; [apply dispatch_first_post|].
  split; [intros; apply try_chain_step_succeeds; assumption|].
  split; [intros; apply try_chain_step_fails with (e := e); assumption|].
  apply is_circuit_open_true.
Qed.

End DispatchFacts.

Section DispatchExamples.
Import Py Query.

(** No request gets through. *)
Definition all_down : nat -> string -> string -> post_outcome :=
  fun _ _ _ => ConnectError.

(** The gateway answers at once. *)
Definition gateway_up : nat -> string -> string -> post_outcome :=
  fun _ _ _ => Replied 200 (Some ("We are open from 9 to 5.", Some 42)) false.

Definition fresh_world : World :=
  {| posts := []; sleeps := []; error_rates := [];
     handler := ErrorHandler.init |}.

(** A world whose breaker for the gateway was opened, at time 0, by one
    CRITICAL failure. *)
Definition tripped_world : World :=
  with_handler
    (ErrorHandler.record_error ErrorHandler.init "llm_call" "kong"
       ErrorHandler.CRITICAL None 0)
    fresh_world.

Lemma dispatch_falls_back_witness :
  exists w',
    exhausted all_down "hello there" (fallback_chain "m") fresh_world w'
    /\ _process_llm_request_with_fallbacks all_down "hello there" "m"
         fresh_world
       = (inl (_generate_fallback_response "hello there", Some 0, false,
               "fallback"),
          snd (record_error "all_llm_methods_failed" "/api/query" "fallback"
                 w')).
Proof.
  apply (proj1 (proj2 (proj2 (proj2
           (dispatch_falls_back all_down "hello there" "m" fresh_world))))).
  intros n url model. exact I.
Defined.

(** With every request failing, the gateway is tried three times and each
    direct step four times, in the order of the chain, before the canned
    greeting is returned. *)
Example all_down_run :
  let run := _process_llm_request_with_fallbacks all_down "hello there" "m"
               fresh_world in
  fst run
  = inl ("Hello! I'm currently experiencing technical difficulties, but I'm here to help. Could you please try your question again in a moment?",
         Some 0, false, "fallback")
  /\ posts (snd run)
     = (repeat (kong_url, "m") 3 ++ repeat (groq_url, "m") 4
        ++ repeat (groq_url, "llama-3.3-70b-versatile") 4
        ++ repeat (groq_url, "llama-3.1-8b-instant") 4)%list
  /\ error_rates (snd run)
     = [ ("kong_gateway_failure", "/api/query", "m");
         ("kong_failure", "/api/query", "m");
         ("groq_api_failure", "/api/query", "m");
         ("direct_failure", "/api/query", "m");
         ("groq_api_failure", "/api/query", "llama-3.3-70b-versatile");
         ("direct_failure", "/api/query", "llama-3.3-70b-versatile");
         ("groq_api_failure", "/api/query", "llama-3.1-8b-instant");
         ("direct_failure", "/api/query", "llama-3.1-8b-instant");
         ("all_llm_methods_failed", "/api/query", "fallback") ].
Proof. vm_compute. repeat split; reflexivity. Qed.

(** C3, as stated, fails.  The breaker of the gateway is OPEN and its
    cooldown has not elapsed ([is_circuit_open] answers [True]), yet the
    dispatch posts the request to the gateway and returns its answer. *)
Lemma open_breaker_step_is_attempted :
  ErrorHandler.breaker_state (handler tripped_world) "kong:llm_call"
  = Some ErrorHandler.OPEN
  /\ fst (ErrorHandler.is_circuit_open (handler tripped_world)
            "kong" "llm_call" 1) = true
  /\ _process_llm_request_with_fallbacks gateway_up
       "What are your business hours?" "m" tripped_world
     = (inl ("We are open from 9 to 5.", Some 42, false, "m"),
        with_handler (handler tripped_world)
          {| posts := [(kong_url, "m")]; sleeps := []; error_rates := [];
             handler := ErrorHandler.init |}).
Proof. vm_compute. repeat split; reflexivity. Qed.

End DispatchExamples.

(** ** Scenarios *)

Section Scenarios.
Import Py Complexity Cache.

(** A simple question scores below 0.3 and is a simple FAQ. *)
Example business_hours_is_simple :
  _analyze_question_type "what are your business hours?" = SIMPLE_FAQ
  /\ (calculate_complexity "What are your business hours?" == (1 # 8))%Q
  /\ (calculate_complexity "What are your business hours?" < (3 # 10))%Q.
Proof. vm_compute. repeat split; reflexivity. Qed.

(** An integration question: 13 words, 1 technical term ("api"). *)
Example integration_question_score :
  _analyze_question_type
    "how do i integrate the payment api with my system and configure webhooks"
  = INTEGRATION
  /\ (calculate_complexity
        "How do I integrate the payment API with my system and configure webhooks"
      == (13 # 40) + (1 # 20) + (3 # 10))%Q.
Proof. vm_compute. repeat split; reflexivity. Qed.

(** An entry is served up to the very end of its TTL and missed one
    microsecond later. *)
Example entry_expires_after_ttl :
  let c := set (L := bags) (init (85 # 100) 1000 3600)
             "reset password" "m" "A" 7 0 in
  snd (get c "reset password" "m" 3600000000)
  = Some {| hit_response := "A"; cached := true; similarity := 1 |}
  /\ snd (get c "reset password" "m" 3600000001) = None.
Proof. vm_compute. split; reflexivity. Qed.

(** The same text under another model is not found. *)
Example other_model_misses :
  snd (get two_entries "reset password" "other" 3000000) = None.
Proof. vm_compute. reflexivity. Qed.

End Scenarios.

(* ===================================================================== *)
(** * More of the code *)
(* ===================================================================== *)

(** ** app/services/error_handler.py: [with_error_handling] *)

Module Wrapper.
Import ErrorHandler.

(** What the wrapper catches: the [Exception] it raises itself when the
    circuit is open and there is no fallback, or an exception of the
    wrapped function or of the fallback. *)
Inductive raised (E : Type) :=
| CircuitOpenError
| FuncError (e : E).
Arguments CircuitOpenError {E}.
Arguments FuncError {E}.

(** The process state of a wrapped call: the shared handler, the clock
    readings and the calls of the wrapped function and of the fallback
    made so far, and the sleeps taken (seconds). *)
Record State := {
  handler : SystemErrorHandler;
  readings : nat;
  func_calls : nat;
  fallback_calls : nat;
  sleeps : list Q
}.

Section WithFunction.
Context {R E : Type}.

(** The outcome of the i-th call of the wrapped function and of the
    fallback function (if one is given), the i-th reading of the clock,
    and the text of [error_details]. *)
Variable func : nat -> R + E.
Variable fallback_func : option (nat -> R + E).
Variable clock : nat -> Z.
Variable describe : raised E -> Z -> string.

(** The arguments of the decorator. *)
Variables component operation : string.
Variable max_retries : Z.
Variable retry_delay : Q.
Variable severity : ErrorSeverity.

Definition tick (st : State) (h : SystemErrorHandler) : State :=
  {| handler := h; readings := S (readings st);
     func_calls := func_calls st; fallback_calls := fallback_calls st;
     sleeps := sleeps st |}.

(** The call of [fallback_func]. *)
Definition call_fallback (fb : nat -> R + E) (st : State) : (R + E) * State :=
  (fb (fallback_calls st),
   {| handler := handler st; readings := readings st;
      func_calls := func_calls st; fallback_calls := S (fallback_calls st);
      sleeps := sleeps st |}).

(** The call of [func]. *)
Definition call_func (st : State) : (R + E) * State :=
  (func (func_calls st),
   {| handler := handler st; readings := readings st;
      func_calls := S (func_calls st); fallback_calls := fallback_calls st;
      sleeps := sleeps st |}).

(** The [try] block of one attempt: [inl] is its [return], [inr] the
    exception that its [except Exception] catches. *)
Definition try_block (st : State) : (R + raised E) * State :=
  let '(is_open, h1) :=
    is_circuit_open (handler st) component operation (clock (readings st)) in
  let st1 := tick st h1 in
  if is_open then
    match fallback_func with
    | Some fb =>
        match call_fallback fb st1 with
        | (inl r, st2) => (inl r, st2)
        | (inr e, st2) => (inr (FuncError e), st2)
        end
    | None => (inr CircuitOpenError, st1)
    end
  else
    match call_func st1 with
    | (inl result, st2) =>
        (inl result,
         {| handler := record_success (handler st2) component operation;
            readings := readings st2; func_calls := func_calls st2;
            fallback_calls := fallback_calls st2; sleeps := sleeps st2 |})
    | (inr e, st2) => (inr (FuncError e), st2)
    end.

(** The [except] block on the last attempt: the error is recorded, then
    the fallback answers or the exception is raised again. *)
Definition final_failure (attempt : Z) (e : raised E) (st : State)
    : (option R + raised E) * State :=
  let st1 :=
    tick st (record_error (handler st) operation component severity
               (Some (describe e attempt)) (clock (readings st))) in
  match fallback_func with
  | Some fb =>
      let h2 :=
        {| error_counts := error_counts (handler st1);
           fallback_history :=
             (fallback_history (handler st1)
              ++ [(component, operation, clock (readings st1), attempt)])%list;
           circuit_breakers := circuit_breakers (handler st1) |} in
      match call_fallback fb (tick st1 h2) with
      | (inl r, st2) => (inl (Some r), st2)
      | (inr e', st2) => (inr (FuncError e'), st2)
      end
  | None => (inr e, st1)
  end.

(** [time.sleep(wait_time)] *)
Definition sleep (wait_time : Q) (st : State) : State :=
  {| handler := handler st; readings := readings st;
     func_calls := func_calls st; fallback_calls := fallback_calls st;
     sleeps := (sleeps st ++ [wait_time])%list |}.

(** [for attempt in range(max_retries + 1)] with [n] attempts left; when
    the range is empty the wrapper returns [None]. *)
Fixpoint attempts (n : nat) (attempt : Z) (st : State)
    : (option R + raised E) * State :=
  match n with
  | O => (inl None, st)
  | S n' =>
      match try_block st with
      | (inl result, st1) => (inl (Some result), st1)
      | (inr e, st1) =>
          if attempt <? max_retries
          then attempts n' (attempt + 1)
                 (sleep (retry_delay * inject_Z (2 ^ attempt)) st1)
          else final_failure attempt e st1
      end
  end.

(** [sync_wrapper] (and [async_wrapper], which differs in its [await]s
    only). *)
Definition wrapper (st : State) : (option R + raised E) * State :=
  attempts (Z.to_nat (max_retries + 1)) 0 st.

End WithFunction.

End Wrapper.

(** ** The circuit breaker, continued *)

Section BreakerMore.
Import ErrorHandler.

(** A run of failures of one operation: each with its details and the
    time at which it is recorded. *)
Definition record_errors (h : SystemErrorHandler) (error_type component : string)
    (sev : ErrorSeverity) (failures : list (option string * Z))
    : SystemErrorHandler :=
  fold_left (fun h f => record_error h error_type component sev (fst f) (snd f))
            failures h.

Lemma error_thresholds_pos sev : 1 <= error_thresholds sev.
Proof. destruct sev; cbn; lia. Qed.

Lemma record_error_count h et comp sev d now :
  error_count (record_error h et comp sev d now) (make_key comp et)
  = Some (default 0 (error_count h (make_key comp et)) + 1).
Proof.
  unfold error_count, record_error.
  destruct (error_counts h !! make_key comp et) as [r|] eqn:E; cbn.
  - destruct (count r + 1 >=? error_thresholds sev); cbn.
    + unfold _trigger_circuit_breaker. cbn.
      destruct (circuit_breakers h !! make_key comp et); cbn;
        rewrite lookup_insert_eq; reflexivity.
    + rewrite lookup_insert_eq. reflexivity.
  - destruct (0 + 1 >=? error_thresholds sev); cbn.
    + unfold _trigger_circuit_breaker. cbn.
      destruct (circuit_breakers h !! make_key comp et); cbn;
        rewrite lookup_insert_eq; reflexivity.
    + rewrite lookup_insert_eq. reflexivity.
Qed.

Lemma record_error_breaker h et comp sev d now :
  circuit_breakers (record_error h et comp sev d now) !! make_key comp et
  = match circuit_breakers h !! make_key comp et with
    | Some b => Some b
    | None =>
        if default 0 (error_count h (make_key comp et)) + 1
           >=? error_thresholds sev
        then Some {| state := OPEN; opened_at := now;
                     failure_count :=
                       default 0 (error_count h (make_key comp et)) + 1;
                     breaker_severity := sev |}
        else None
    end.
Proof.
  destruct (circuit_breakers h !! make_key comp et) as [b|] eqn:Eb.
  - apply record_error_keeps_breaker. exact Eb.
  - unfold error_count, record_error.
    destruct (error_counts h !! make_key comp et) as [r|] eqn:E; cbn.
    + destruct (count r + 1 >=? error_thresholds sev); cbn; [|exact Eb].
      unfold _trigger_circuit_breaker. cbn. rewrite Eb. cbn.
      rewrite !lookup_insert_eq. reflexivity.
    + destruct (0 + 1 >=? error_thresholds sev); cbn; [|exact Eb].
      unfold _trigger_circuit_breaker. cbn. rewrite Eb. cbn.
      rewrite !lookup_insert_eq. reflexivity.
Qed.

(** X1.  On a key without error record and without breaker, a run of
    recorded failures of one severity counts them all; the key has no
    breaker while the count is below the threshold of the severity, and
    from the failure that reaches the threshold on its breaker is OPEN,
    opened at the time of that failure, with the threshold as its
    failure count. *)
Theorem breaker_opens_at_threshold :
  forall h et comp sev (failures : list (option string * Z)),
    error_counts h !! make_key comp et = None ->
    circuit_breakers h !! make_key comp et = None ->
    failures <> [] ->
    error_count (record_errors h et comp sev failures) (make_key comp et)
    = Some (Z.of_nat (length failures))
    /\ (Z.of_nat (length failures) < error_thresholds sev ->
        circuit_breakers (record_errors h et comp sev failures)
          !! make_key comp et = None)
    /\ (error_thresholds sev <= Z.of_nat (length failures) ->
        exists d t,
          nth_error failures (Z.to_nat (error_thresholds sev - 1)) = Some (d, t)
          /\ circuit_breakers (record_errors h et comp sev failures)
               !! make_key comp et
             = Some {| state := OPEN; opened_at := t;
                       failure_count := error_thresholds sev;
                       breaker_severity := sev |}).
Proof.
  intros h et comp sev failures Hc Hb.
  pose proof (error_thresholds_pos sev) as Hpos.
  assert (Hgen :
    default 0 (error_count (record_errors h et comp sev failures)
                 (make_key comp et)) = Z.of_nat (length failures)
    /\ (failures <> [] ->
        error_count (record_errors h et comp sev failures) (make_key comp et)
        = Some (Z.of_nat (length failures)))
    /\ (Z.of_nat (length failures) < error_thresholds sev ->
        circuit_breakers (record_errors h et comp sev failures)
          !! make_key comp et = None)
    /\ (error_thresholds sev <= Z.of_nat (length failures) ->
        exists d t,
          nth_error failures (Z.to_nat (error_thresholds sev - 1)) = Some (d, t)
          /\ circuit_breakers (record_errors h et comp sev failures)
               !! make_key comp et
             = Some {| state := OPEN; opened_at := t;
                       failure_count := error_thresholds sev;
                       breaker_severity := sev |})).
  { induction failures as [|[d t] failures IH] using rev_ind.
    - cbn. unfold error_count. rewrite Hc. cbn.
      split; [reflexivity|]. split; [congruence|].
      split; [intros _; exact Hb | lia].
    - destruct IH as (Hn & _ & Hlt & Hge).
      unfold record_errors in *. rewrite fold_left_app. cbn [fold_left fst snd].
      set (h1 := fold_left _ failures h) in *.
      rewrite length_app. cbn [length].
      rewrite record_error_count, record_error_breaker, Hn.
      replace (Z.of_nat (length failures + 1)) with (Z.of_nat (length failures) + 1)
        by lia.
      split; [reflexivity|]. split; [reflexivity|]. split.
      + intros Hsmall. rewrite Hlt by lia.
        destruct (Z.of_nat (length failures) + 1 >=? error_thresholds sev) eqn:G;
          [|reflexivity].
        apply Z.geb_le in G. lia.
      + intros Hbig.
        destruct (Z_lt_ge_dec (Z.of_nat (length failures)) (error_thresholds sev))
          as [Hsmall|Halready].
        * rewrite Hlt by exact Hsmall.
          assert (G : (Z.of_nat (length failures) + 1 >=? error_thresholds sev)
                      = true) by (apply Z.geb_le; lia).
          rewrite G. exists d, t. split.
          -- rewrite nth_error_app2 by lia.
             replace (Z.to_nat (error_thresholds sev - 1) - length failures)%nat
               with 0%nat by lia.
             reflexivity.
          -- repeat f_equal. lia.
        * destruct Hge as (d' & t' & Hnth & Hbr); [lia|].
          rewrite Hbr. exists d', t'. split; [|reflexivity].
          rewrite nth_error_app1; [exact Hnth|].
          apply nth_error_Some. congruence. }
  intros Hne. destruct Hgen as (_ & H1 & H2 & H3). auto.
Qed.

Lemma breaker_opens_at_threshold_witness :
  circuit_breakers
    (record_errors init "timeout" "kong" HIGH [(None, 10); (None, 20); (None, 30)])
    !! make_key "kong" "timeout"
  = Some {| state := OPEN; opened_at := 30; failure_count := 3;
            breaker_severity := HIGH |}.
Proof.
  destruct (proj2 (proj2 (breaker_opens_at_threshold init "timeout" "kong" HIGH
                            [(None, 10); (None, 20); (None, 30)]
                            eq_refl eq_refl ltac:(discriminate)))
              ltac:(cbn; lia)) as (d & t & Hnth & Hbr).
  cbn in Hnth. injection Hnth as _ <-. exact Hbr.
Defined.

(** X2.  While the cooldown has not elapsed nothing changes an OPEN
    breaker: recorded failures, recorded successes and queries made no
    later than five minutes after [opened_at], for this key or any other,
    leave its entry as it is. *)
Theorem open_breaker_stays_open_in_cooldown :
  forall h (cs : list call) k b,
    circuit_breakers h !! k = Some b ->
    state b = OPEN ->
    Forall (fun c => match c with
                     | IsCircuitOpen _ _ now => now - opened_at b <= cooldown
                     | _ => True
                     end) cs ->
    circuit_breakers (run_calls h cs) !! k = Some b.
Proof.
  intros h cs. revert h.
  induction cs as [|c cs IH]; intros h k b Hb Hs Hall; [exact Hb|].
  inversion Hall as [|? ? Hc Hrest]; subst.
  cbn. apply IH; [|exact Hs|exact Hrest].
  destruct c as [et comp sev d now | comp et | comp et now]; cbn.
  - apply record_error_keeps_breaker. exact Hb.
  - unfold record_success.
    destruct (decide (make_key comp et = k)) as [Heq|Hne].
    + subst k. rewrite Hb, Hs. exact Hb.
    + destruct (circuit_breakers h !! make_key comp et) as [b'|]; [|exact Hb].
      destruct (state b'); try exact Hb.
      cbn. rewrite lookup_insert_ne by exact Hne. exact Hb.
  - unfold is_circuit_open.
    destruct (decide (make_key comp et = k)) as [Heq|Hne].
    + subst k. rewrite Hb, Hs.
      assert ((now - opened_at b >? cooldown) = false) as ->
        by (rewrite Z.gtb_ltb; apply Z.ltb_ge; lia).
      exact Hb.
    + destruct (circuit_breakers h !! make_key comp et) as [b'|]; [|exact Hb].
      destruct (state b'); try exact Hb.
      destruct (now - opened_at b' >? cooldown); [|exact Hb].
      cbn. rewrite lookup_insert_ne by exact Hne. exact Hb.
Qed.

Lemma open_breaker_stays_open_in_cooldown_witness :
  circuit_breakers
    (run_calls (record_error init "llm_call" "kong" CRITICAL None 0)
       [RecordSuccess "kong" "llm_call";
        IsCircuitOpen "kong" "llm_call" 300000000;
        RecordError "llm_call" "kong" CRITICAL None 5])
    !! "kong:llm_call"
  = Some {| state := OPEN; opened_at := 0; failure_count := 1;
            breaker_severity := CRITICAL |}.
Proof.
  apply (open_breaker_stays_open_in_cooldown
           (record_error init "llm_call" "kong" CRITICAL None 0)).
  - vm_compute. reflexivity.
  - reflexivity.
  - repeat constructor. cbn. unfold cooldown. lia.
Defined.

End BreakerMore.

(** ** The retry wrapper *)

Section WrapperFacts.
Import ErrorHandler Wrapper.
Context {R E : Type}.
Variable func : nat -> R + E.
Variable clock : nat -> Z.
Variable describe : raised E -> Z -> string.
Variables component operation : string.
Variable max_retries : Z.
Variable retry_delay : Q.
Variable severity : ErrorSeverity.

(** The waits of the attempts [attempt], [attempt + 1], ... *)
Definition backoff (attempt : Z) (n : nat) : list Q :=
  map (fun i => (retry_delay * inject_Z (2 ^ (attempt + Z.of_nat i)))%Q) (seq 0 n).

Lemma backoff_S attempt n :
  backoff attempt (S n)
  = ((retry_delay * inject_Z (2 ^ attempt))%Q :: backoff (attempt + 1) n).
Proof.
  unfold backoff. cbn [seq map]. rewrite Z.add_0_r. f_equal.
  rewrite <- seq_shift, map_map. apply map_ext. intros i.
  replace (attempt + Z.of_nat (S i)) with (attempt + 1 + Z.of_nat i) by lia.
  reflexivity.
Qed.

(** The state after [k] attempts that left the handler alone, [c] of
    them having called the wrapped function, and [s] sleeps. *)
Definition later (st : State) (k c : nat) (waits : list Q) : State :=
  {| handler := handler st; readings := (k + readings st)%nat;
     func_calls := (c + func_calls st)%nat;
     fallback_calls := fallback_calls st;
     sleeps := (sleeps st ++ waits)%list |}.

Lemma later_0 st : later st 0 0 [] = st.
Proof. destruct st. unfold later. cbn. rewrite app_nil_r. reflexivity. Qed.

(** One attempt, unfolded. *)
Lemma wrapper_attempts_S fallback_func n attempt st :
  attempts func fallback_func clock describe component operation
    max_retries retry_delay severity (S n) attempt st
  = match try_block func fallback_func clock component operation st with
    | (inl result, st1) => (inl (Some result), st1)
    | (inr e, st1) =>
        if attempt <? max_retries
        then attempts func fallback_func clock describe component operation
               max_retries retry_delay severity n (attempt + 1)
               (sleep (retry_delay * inject_Z (2 ^ attempt)) st1)
        else final_failure fallback_func clock describe component operation
               severity attempt e st1
    end.
Proof. reflexivity. Qed.

(** The function fails on every call and the key has no breaker: every
    attempt calls the function, and the last gives up. *)
Lemma attempts_function_fails fallback_func (err : nat -> E) :
  (forall i, func i = inr (err i)) ->
  forall n attempt st,
    circuit_breakers (handler st) !! make_key component operation = None ->
    attempt + Z.of_nat n = max_retries ->
    attempts func fallback_func clock describe component operation
      max_retries retry_delay severity (S n) attempt st
    = final_failure fallback_func clock describe component operation severity
        max_retries (FuncError (err (n + func_calls st)%nat))
        (later st (S n) (S n) (backoff attempt n)).
Proof.
  intros Hf. induction n as [|n IH]; intros attempt st Hb Hn.
  - cbn [attempts]. unfold try_block, is_circuit_open. rewrite Hb.
    unfold call_func. cbn. rewrite Hf.
    assert ((attempt <? max_retries) = false) as -> by (apply Z.ltb_ge; lia).
    replace attempt with max_retries by lia.
    unfold later, backoff. cbn. rewrite app_nil_r. reflexivity.
  - rewrite wrapper_attempts_S. unfold try_block at 1. unfold is_circuit_open.
    rewrite Hb.
    unfold call_func. cbn [fst snd tick handler func_calls]. rewrite Hf.
    assert ((attempt <? max_retries) = true) as -> by (apply Z.ltb_lt; lia).
    rewrite IH; [|exact Hb|lia].
    rewrite backoff_S. unfold later, sleep. cbn.
    rewrite <- app_assoc. cbn.
    replace (n + S (func_calls st))%nat with (S (n + func_calls st)) by lia.
    replace (n + S (readings st))%nat with (S (n + readings st)) by lia.
    reflexivity.
Qed.

(** The breaker of the key is OPEN and no reading of the clock is later
    than the end of its cooldown; there is no fallback: no attempt calls
    the function, and the last gives up. *)
Lemma attempts_circuit_open b :
  state b = OPEN ->
  (forall i, clock i - opened_at b <= cooldown) ->
  forall n attempt st,
    circuit_breakers (handler st) !! make_key component operation = Some b ->
    attempt + Z.of_nat n = max_retries ->
    attempts func None clock describe component operation
      max_retries retry_delay severity (S n) attempt st
    = final_failure None clock describe component operation severity
        max_retries CircuitOpenError
        (later st (S n) 0 (backoff attempt n)).
Proof.
  intros Hs Hclock. induction n as [|n IH]; intros attempt st Hb Hn.
  - cbn [attempts]. unfold try_block, is_circuit_open. rewrite Hb, Hs.
    assert ((clock (readings st) - opened_at b >? cooldown) = false) as ->
      by (rewrite Z.gtb_ltb; apply Z.ltb_ge; apply Hclock).
    cbn iota.
    assert ((attempt <? max_retries) = false) as -> by (apply Z.ltb_ge; lia).
    replace attempt with max_retries by lia.
    unfold later, backoff, tick. cbn. rewrite app_nil_r. reflexivity.
  - rewrite wrapper_attempts_S. unfold try_block at 1. unfold is_circuit_open.
    rewrite Hb, Hs.
    assert ((clock (readings st) - opened_at b >? cooldown) = false) as ->
      by (rewrite Z.gtb_ltb; apply Z.ltb_ge; apply Hclock).
    cbn iota.
    assert ((attempt <? max_retries) = true) as -> by (apply Z.ltb_lt; lia).
    rewrite IH; [|exact Hb|lia].
    rewrite backoff_S. unfold later, sleep, tick. cbn.
    rewrite <- app_assoc. cbn.
    replace (n + S (readings st))%nat with (S (n + readings st)) by lia.
    reflexivity.
Qed.

Lemma wrapper_unfold fallback_func st :
  0 <= max_retries ->
  wrapper func fallback_func clock describe component operation
    max_retries retry_delay severity st
  = attempts func fallback_func clock describe component operation
      max_retries retry_delay severity (S (Z.to_nat max_retries)) 0 st.
Proof.
  intros H. unfold wrapper.
  replace (Z.to_nat (max_retries + 1)) with (S (Z.to_nat max_retries)) by lia.
  reflexivity.
Qed.

(** The first attempt with the breaker OPEN, inside its cooldown, and a
    fallback that answers. *)
Lemma first_attempt_open_fallback b (fb : nat -> R + E) r st n :
  circuit_breakers (handler st) !! make_key component operation = Some b ->
  state b = OPEN ->
  clock (readings st) - opened_at b <= cooldown ->
  fb (fallback_calls st) = inl r ->
  attempts func (Some fb) clock describe component operation
    max_retries retry_delay severity (S n) 0 st
  = (inl (Some r),
     {| handler := handler st; readings := S (readings st);
        func_calls := func_calls st;
        fallback_calls := S (fallback_calls st);
        sleeps := sleeps st |}).
Proof.
  intros Hb Hs Hclock Hfb. rewrite wrapper_attempts_S.
  unfold try_block, is_circuit_open. rewrite Hb, Hs.
  assert ((clock (readings st) - opened_at b >? cooldown) = false) as ->
    by (rewrite Z.gtb_ltb; apply Z.ltb_ge; exact Hclock).
  unfold call_fallback. cbn. rewrite Hfb. reflexivity.
Qed.

(** X3.  A wrapped function that fails on every call, on a key without
    breaker and without fallback: it is called [max_retries + 1] times,
    with the sleeps [retry_delay * 2^i] between the calls, the failure is
    recorded once, after the last call, and the exception of the last
    call is raised. *)
Theorem wrapper_exhausts_retries :
  forall (err : nat -> E) (st : State),
    (forall i, func i = inr (err i)) ->
    circuit_breakers (handler st) !! make_key component operation = None ->
    0 <= max_retries ->
    let n := Z.to_nat max_retries in
    let e := FuncError (err (n + func_calls st)%nat) in
    wrapper func None clock describe component operation
      max_retries retry_delay severity st
    = (inr e,
       {| handler :=
            record_error (handler st) operation component severity
              (Some (describe e max_retries)) (clock (S n + readings st));
          readings := S (S n + readings st);
          func_calls := (S n + func_calls st)%nat;
          fallback_calls := fallback_calls st;
          sleeps := (sleeps st ++ backoff 0 n)%list |}).
Proof.
  intros err st Hf Hb Hmax n e.
  rewrite wrapper_unfold by exact Hmax.
  rewrite (attempts_function_fails None err Hf (Z.to_nat max_retries) 0 st Hb)
    by lia.
  reflexivity.
Qed.

(** X4.  The same with a fallback: after the last failed call the
    failure is recorded, the use of the fallback is noted in
    [fallback_history] with the number of the last attempt, and the
    answer of the fallback is returned. *)
Theorem wrapper_falls_back_after_retries :
  forall (err : nat -> E) (fb : nat -> R + E) (r : R) (st : State),
    (forall i, func i = inr (err i)) ->
    circuit_breakers (handler st) !! make_key component operation = None ->
    0 <= max_retries ->
    fb (fallback_calls st) = inl r ->
    let n := Z.to_nat max_retries in
    let e := FuncError (err (n + func_calls st)%nat) in
    let h1 := record_error (handler st) operation component severity
                (Some (describe e max_retries)) (clock (S n + readings st)) in
    wrapper func (Some fb) clock describe component operation
      max_retries retry_delay severity st
    = (inl (Some r),
       {| handler :=
            {| error_counts := error_counts h1;
               fallback_history :=
                 (fallback_history h1
                  ++ [(component, operation, clock (S (S n + readings st)),
                       max_retries)])%list;
               circuit_breakers := circuit_breakers h1 |};
          readings := S (S (S n + readings st));
          func_calls := (S n + func_calls st)%nat;
          fallback_calls := S (fallback_calls st);
          sleeps := (sleeps st ++ backoff 0 n)%list |}).
Proof.
  intros err fb r st Hf Hb Hmax Hfb n e h1.
  rewrite wrapper_unfold by exact Hmax.
  rewrite (attempts_function_fails (Some fb) err Hf (Z.to_nat max_retries)
             0 st Hb) by lia.
  unfold final_failure, call_fallback. cbn. rewrite Hfb. reflexivity.
Qed.

(** X5.  With the breaker of the key OPEN, no reading of the clock past
    its cooldown and no fallback, the wrapped function is never called;
    the wrapper still sleeps through all its retries, records one more
    failure of the key and raises its "circuit breaker open" exception. *)
Theorem wrapper_open_without_fallback :
  forall (b : Breaker) (st : State),
    circuit_breakers (handler st) !! make_key component operation = Some b ->
    state b = OPEN ->
    (forall i, clock i - opened_at b <= cooldown) ->
    0 <= max_retries ->
    let n := Z.to_nat max_retries in
    wrapper func None clock describe component operation
      max_retries retry_delay severity st
    = (inr CircuitOpenError,
       {| handler :=
            record_error (handler st) operation component severity
              (Some (describe CircuitOpenError max_retries))
              (clock (S n + readings st));
          readings := S (S n + readings st);
          func_calls := func_calls st;
          fallback_calls := fallback_calls st;
          sleeps := (sleeps st ++ backoff 0 n)%list |}).
Proof.
  intros b st Hb Hs Hclock Hmax n.
  rewrite wrapper_unfold by exact Hmax.
  rewrite (attempts_circuit_open b Hs Hclock (Z.to_nat max_retries) 0 st Hb)
    by lia.
  reflexivity.
Qed.

(** X6.  With the breaker of the key OPEN, its cooldown not elapsed and a
    fallback that answers, the wrapper returns the answer of the fallback
    at once: the wrapped function is not called, nothing is slept and the
    handler is as it was. *)
Theorem wrapper_open_uses_fallback :
  forall (b : Breaker) (fb : nat -> R + E) (r : R) (st : State),
    circuit_breakers (handler st) !! make_key component operation = Some b ->
    state b = OPEN ->
    clock (readings st) - opened_at b <= cooldown ->
    0 <= max_retries ->
    fb (fallback_calls st) = inl r ->
    wrapper func (Some fb) clock describe component operation
      max_retries retry_delay severity st
    = (inl (Some r),
       {| handler := handler st; readings := S (readings st);
          func_calls := func_calls st;
          fallback_calls := S (fallback_calls st);
          sleeps := sleeps st |}).
Proof.
  intros b fb r st Hb Hs Hclock Hmax Hfb.
  rewrite wrapper_unfold by exact Hmax.
  apply (first_attempt_open_fallback b fb r st _ Hb Hs Hclock Hfb).
Qed.

(** X7.  A probe that succeeds closes the breaker: when the breaker of
    the key is HALF_OPEN, or OPEN with its cooldown elapsed, and the
    wrapped function answers, the wrapper returns that answer after one
    call, without sleeping, and the breaker is CLOSED. *)
Theorem wrapper_success_closes_breaker :
  forall (b : Breaker) fallback_func (r : R) (st : State),
    circuit_breakers (handler st) !! make_key component operation = Some b ->
    state b = HALF_OPEN
    \/ (state b = OPEN /\ clock (readings st) - opened_at b > cooldown) ->
    0 <= max_retries ->
    func (func_calls st) = inl r ->
    exists st',
      wrapper func fallback_func clock describe component operation
        max_retries retry_delay severity st = (inl (Some r), st')
      /\ breaker_state (handler st') (make_key component operation)
         = Some CLOSED
      /\ func_calls st' = S (func_calls st)
      /\ fallback_calls st' = fallback_calls st
      /\ sleeps st' = sleeps st.
Proof.
  intros b fallback_func r st Hb Hstate Hmax Hf.
  rewrite wrapper_unfold by exact Hmax. rewrite wrapper_attempts_S.
  unfold try_block, is_circuit_open. rewrite Hb.
  destruct Hstate as [Hs | [Hs Hlate]]; rewrite Hs.
  - unfold call_func. cbn. rewrite Hf. eexists. split; [reflexivity|].
    cbn. unfold breaker_state, record_success. rewrite Hb, Hs. cbn.
    rewrite lookup_insert_eq. repeat split.
  - assert ((clock (readings st) - opened_at b >? cooldown) = true) as ->
      by (apply Z.gtb_lt; lia).
    unfold call_func. cbn. rewrite Hf. eexists. split; [reflexivity|].
    cbn. unfold breaker_state, record_success. cbn.
    rewrite lookup_insert_eq. cbn. rewrite lookup_insert_eq. repeat split.
Qed.

(** X8.  Tripping and skipping.  When a wrapped call exhausts its retries
    on a key without breaker and the recorded failure brings the count of
    the key to the threshold of the severity, the breaker opens; a
    wrapped call with a fallback made within the cooldown then returns
    the answer of the fallback without calling the function. *)
Theorem wrapper_trips_then_skips :
  forall (err : nat -> E) (fb : nat -> R + E) (r : R) (st : State),
    (forall i, func i = inr (err i)) ->
    circuit_breakers (handler st) !! make_key component operation = None ->
    0 <= max_retries ->
    default 0 (error_count (handler st) (make_key component operation)) + 1
    >= error_thresholds severity ->
    let st1 := snd (wrapper func None clock describe component operation
                      max_retries retry_delay severity st) in
    fb (fallback_calls st1) = inl r ->
    clock (readings st1) - clock (S (Z.to_nat max_retries) + readings st)
    <= cooldown ->
    breaker_state (handler st1) (make_key component operation) = Some OPEN
    /\ wrapper func (Some fb) clock describe component operation
         max_retries retry_delay severity st1
       = (inl (Some r),
          {| handler := handler st1; readings := S (readings st1);
             func_calls := func_calls st1;
             fallback_calls := S (fallback_calls st1);
             sleeps := sleeps st1 |}).
Proof.
  intros err fb r st Hf Hb Hmax Hcount st1 Hfb Hclock.
  assert (Hrun :
    wrapper func None clock describe component operation
      max_retries retry_delay severity st
    = final_failure None clock describe component operation severity max_retries
        (FuncError (err (Z.to_nat max_retries + func_calls st)%nat))
        (later st (S (Z.to_nat max_retries)) (S (Z.to_nat max_retries))
           (backoff 0 (Z.to_nat max_retries)))).
  { rewrite wrapper_unfold by exact Hmax.
    apply (attempts_function_fails None err Hf (Z.to_nat max_retries) 0 st Hb).
    lia. }
  assert (Hbr : circuit_breakers (handler st1) !! make_key component operation
                = Some {| state := OPEN;
                          opened_at :=
                            clock (S (Z.to_nat max_retries) + readings st);
                          failure_count :=
                            default 0 (error_count (handler st)
                                         (make_key component operation)) + 1;
                          breaker_severity := severity |}).
  { subst st1. rewrite Hrun. unfold final_failure, tick, later.
    cbn [snd handler readings].
    rewrite record_error_breaker, Hb.
    assert ((default 0 (error_count (handler st)
                          (make_key component operation)) + 1
             >=? error_thresholds severity) = true) as ->
      by (apply Z.geb_le; lia).
    reflexivity. }
  split.
  - unfold breaker_state. rewrite Hbr. reflexivity.
  - rewrite wrapper_unfold by exact Hmax.
    eapply first_attempt_open_fallback; eauto.
Qed.

End WrapperFacts.

Section WrapperExamples.
Import ErrorHandler Wrapper.

Definition always_fails : nat -> string + string := fun _ => inr "boom".
Definition answers : nat -> string + string := fun _ => inl "done".
Definition canned : nat -> string + string := fun _ => inl "please try later".

(** A clock that stands still, one second after time 0. *)
Definition frozen : nat -> Z := fun _ => 1000000.

Definition say : raised string -> Z -> string := fun _ _ => "failed".

Definition start (h : SystemErrorHandler) : State :=
  {| handler := h; readings := 0; func_calls := 0; fallback_calls := 0;
     sleeps := [] |}.

(** A handler whose breaker for "kong:llm_call" was opened at time 0. *)
Definition tripped : SystemErrorHandler :=
  record_error init "llm_call" "kong" CRITICAL None 0.

Lemma tripped_breaker :
  circuit_breakers tripped !! make_key "kong" "llm_call"
  = Some {| state := OPEN; opened_at := 0; failure_count := 1;
            breaker_severity := CRITICAL |}.
Proof. vm_compute. reflexivity. Qed.

Lemma probed_breaker :
  circuit_breakers probed !! make_key "kong" "llm_call"
  = Some {| state := HALF_OPEN; opened_at := 0; failure_count := 1;
            breaker_severity := CRITICAL |}.
Proof. vm_compute. reflexivity. Qed.

Lemma init_no_breaker :
  circuit_breakers init !! make_key "kong" "llm_call" = None.
Proof. vm_compute. reflexivity. Qed.

Lemma wrapper_exhausts_retries_witness :
  fst (wrapper always_fails None frozen say "kong" "llm_call" 2 1 MEDIUM
         (start init)) = inr (FuncError "boom")
  /\ func_calls (snd (wrapper always_fails None frozen say "kong" "llm_call"
                        2 1 MEDIUM (start init))) = 3%nat
  /\ sleeps (snd (wrapper always_fails None frozen say "kong" "llm_call"
                    2 1 MEDIUM (start init)))
     = [(1 * inject_Z (2 ^ (0 + 0)))%Q; (1 * inject_Z (2 ^ (0 + 1)))%Q].
Proof.
  pose proof (wrapper_exhausts_retries always_fails frozen say "kong"
                "llm_call" 2 1 MEDIUM (fun _ => "boom") (start init)
                (fun _ => eq_refl) init_no_breaker ltac:(lia)) as H.
  cbn zeta in H. rewrite H. repeat split.
Defined.

Lemma wrapper_falls_back_after_retries_witness :
  fst (wrapper always_fails (Some canned) frozen say "kong" "llm_call" 2 1
         MEDIUM (start init)) = inl (Some "please try later").
Proof.
  pose proof (wrapper_falls_back_after_retries always_fails frozen say "kong"
                "llm_call" 2 1 MEDIUM (fun _ => "boom") canned
                "please try later" (start init)
                (fun _ => eq_refl) init_no_breaker ltac:(lia) eq_refl) as H.
  cbn zeta in H. rewrite H. reflexivity.
Defined.

Lemma wrapper_open_without_fallback_witness :
  fst (wrapper answers None frozen say "kong" "llm_call" 2 1 MEDIUM
         (start tripped)) = inr CircuitOpenError
  /\ func_calls (snd (wrapper answers None frozen say "kong" "llm_call" 2 1
                        MEDIUM (start tripped))) = 0%nat.
Proof.
  pose proof (wrapper_open_without_fallback answers frozen say "kong"
                "llm_call" 2 1 MEDIUM _ (start tripped) tripped_breaker
                eq_refl ltac:(intros i; cbn; unfold frozen, cooldown; lia)
                ltac:(lia)) as H.
  cbn zeta in H. rewrite H. split; reflexivity.
Defined.

Lemma wrapper_open_uses_fallback_witness :
  wrapper answers (Some canned) frozen say "kong" "llm_call" 2 1 MEDIUM
    (start tripped)
  = (inl (Some "please try later"),
     {| handler := tripped; readings := 1; func_calls := 0;
        fallback_calls := 1; sleeps := [] |}).
Proof.
  exact (wrapper_open_uses_fallback answers frozen say "kong" "llm_call" 2 1
           MEDIUM _ canned "please try later" (start tripped) tripped_breaker
           eq_refl ltac:(cbn; unfold frozen, cooldown; lia) ltac:(lia)
           eq_refl).
Defined.

Lemma wrapper_success_closes_breaker_witness :
  exists st',
    wrapper answers None frozen say "kong" "llm_call" 2 1 MEDIUM (start probed)
    = (inl (Some "done"), st')
    /\ breaker_state (Wrapper.handler st') (make_key "kong" "llm_call")
       = Some CLOSED
    /\ func_calls st' = 1%nat
    /\ fallback_calls st' = 0%nat
    /\ sleeps st' = [].
Proof.
  exact (wrapper_success_closes_breaker answers frozen say "kong" "llm_call"
           2 1 MEDIUM _ None "done" (start probed) probed_breaker
           (or_introl eq_refl) ltac:(lia) eq_refl).
Defined.

Lemma wrapper_trips_then_skips_witness :
  breaker_state
    (Wrapper.handler
       (snd (wrapper always_fails None frozen say "kong" "llm_call" 2 1
               CRITICAL (start init))))
    (make_key "kong" "llm_call") = Some OPEN.
Proof.
  apply (wrapper_trips_then_skips always_fails frozen say "kong" "llm_call"
           2 1 CRITICAL (fun _ => "boom") canned "please try later"
           (start init) (fun _ => eq_refl) init_no_breaker ltac:(lia)).
  - vm_compute. discriminate.
  - reflexivity.
  - unfold frozen, cooldown. lia.
Defined.

End WrapperExamples.

(** ** app/services/cache_service.py, continued *)

Module CacheStats.
Import Cache.

(** What [get_stats] returns. *)
Record Stats := {
  total_entries : Z;
  active_entries : Z;
  expired_entries : Z;
  cache_size_limit : Z;
  stats_similarity_threshold : Q;
  stats_ttl_seconds : Z
}.

Section WithLibraries.
Context {L : Libraries}.

(** [get_stats] *)
Definition get_stats (c : SemanticCache) (now : Z) : Stats :=
  let total_entries := Z.of_nat (length (cache c)) in
  let expired_count :=
    Z.of_nat (length (List.filter (fun kv => _is_expired c (snd kv) now)
                        (cache c))) in
  {| total_entries := total_entries;
     active_entries := total_entries - expired_count;
     expired_entries := expired_count;
     cache_size_limit := max_cache_size c;
     stats_similarity_threshold := similarity_threshold c;
     stats_ttl_seconds := ttl_seconds c |}.

End WithLibraries.

End CacheStats.

Section CacheMore.
Import Py Cache CacheStats.
Context {L : Libraries}.

Lemma In_keys_dict_get {V} k (d : dict V) :
  In k (keys d) -> exists v, dict_get k d = Some v.
Proof.
  induction d as [|[k' v'] d IH]; cbn; [tauto|].
  intros H. destruct (String.eqb_spec k k') as [->|Hne]; [eauto|].
  apply IH. destruct H; [congruence|assumption].
Qed.

Lemma length_dict_set {V} k v (d : dict V) :
  (length (dict_set k v d) <= S (length d))%nat
  /\ (In k (keys d) -> length (dict_set k v d) = length d).
Proof.
  induction d as [|[k' v'] d [IH1 IH2]]; cbn.
  - split; [lia | tauto].
  - destruct (String.eqb_spec k k') as [->|Hne]; cbn.
    + split; [lia | reflexivity].
    + split; [lia|]. intros [H|H]; [congruence|]. rewrite IH2 by exact H.
      reflexivity.
Qed.

Lemma length_dict_del_le {V} k (d : dict V) :
  (length (dict_del k d) <= length d)%nat.
Proof.
  induction d as [|[k' v'] d IH]; cbn; [lia|].
  destruct (String.eqb k k'); cbn; lia.
Qed.

Lemma length_fold_dict_del {V} ks : forall d : dict V,
  (length (fold_left (fun d k => dict_del k d) ks d) <= length d)%nat.
Proof.
  induction ks as [|k ks IH]; intros d; cbn; [lia|].
  specialize (IH (dict_del k d)). pose proof (length_dict_del_le k d). lia.
Qed.

Lemma evict_oldest_length c :
  cache c <> [] -> S (length (cache (_evict_oldest c))) = length (cache c).
Proof.
  intros Hne. unfold _evict_oldest.
  destruct (cache c) as [|first rest] eqn:E; [congruence|].
  destruct (oldest_spec rest first) as (e & Hin & _).
  destruct (In_keys_dict_get (oldest rest first) (first :: rest)) as (v & Hv).
  { exact (in_map fst _ _ Hin). }
  rewrite <- E in *.
  destruct (remove_entry_cache c (oldest rest first)) as (-> & _).
  eapply length_dict_del. exact Hv.
Qed.

(** X9.  The cache never outgrows its limit: when it holds at most
    [max_cache_size] entries (at most one, for a limit below one), so it
    does after any [set], and a [get] never adds an entry. *)
Theorem cache_stays_within_limit :
  forall (c : SemanticCache) (q m r : string) (tok now : Z),
    Z.of_nat (length (cache c)) <= Z.max 1 (max_cache_size c) ->
    Z.of_nat (length (cache (set c q m r tok now)))
    <= Z.max 1 (max_cache_size (set c q m r tok now))
    /\ max_cache_size (set c q m r tok now) = max_cache_size c
    /\ (length (cache (fst (get c q m now))) <= length (cache c))%nat
    /\ max_cache_size (fst (get c q m now)) = max_cache_size c.
Proof.
  intros c q m r tok now Hlen.
  assert (Hset : Z.of_nat (length (cache (set c q m r tok now)))
                 <= Z.max 1 (max_cache_size c)
                 /\ max_cache_size (set c q m r tok now) = max_cache_size c).
  { destruct (blank q) eqn:Hq; [unfold set; rewrite Hq; auto|].
    destruct (is_empty r) eqn:Hr; [unfold set; rewrite Hq, Hr; auto|].
    destruct (set_cache c q m r tok now Hq Hr) as (Hc & _ & Hmax & _).
    split; [|exact Hmax]. rewrite Hc.
    match goal with
    | |- context [dict_set ?k ?v ?d] =>
        pose proof (proj1 (length_dict_set k v d)) as Hgrow
    end.
    destruct (Z.of_nat (length (cache c)) >=? max_cache_size c) eqn:Hfull.
    - apply Z.geb_le in Hfull.
      destruct (cache c) as [|first rest] eqn:E.
      + assert (Hev : cache (_evict_oldest c) = []).
        { unfold _evict_oldest. rewrite E. exact E. }
        rewrite Hev in *. cbn [length] in Hgrow. lia.
      + pose proof (evict_oldest_length c ltac:(congruence)) as Hev.
        rewrite E in Hev. rewrite <- E in *. lia.
    - rewrite Z.geb_leb in Hfull. apply Z.leb_gt in Hfull. lia. }
  destruct Hset as [Hs1 Hs2].
  split; [rewrite Hs2; exact Hs1|]. split; [exact Hs2|].
  destruct (blank q) eqn:Hq; [unfold get; rewrite Hq; cbn; auto|].
  destruct (get_same_entries c q m now Hq) as (Hc & _ & Hmax & _).
  rewrite Hc, Hmax.
  destruct (remove_entries_cache
              (keys (List.filter (fun kv => _is_expired c (snd kv) now) (cache c)))
              c) as (A1 & _ & A3 & _).
  unfold _cleanup_expired. rewrite A1, A3.
  split; [apply length_fold_dict_del | reflexivity].
Qed.




Lemma filter_negb_length {A} (p : A -> bool) (l : list A) :
  (length (List.filter p l)
   + length (List.filter (fun x => negb (p x)) l) = length l)%nat.
Proof.
  induction l as [|x l IH]; cbn; [reflexivity|].
  destruct (p x); cbn; lia.
Qed.

Lemma filter_filter_negb {A} (p : A -> bool) (l : list A) :
  List.filter p (List.filter (fun x => negb (p x)) l) = [].
Proof.
  induction l as [|x l IH]; cbn; [reflexivity|].
  destruct (p x) eqn:E; cbn; [exact IH|]. rewrite E. exact IH.
Qed.

(** X11.  [get_stats] counts every entry once, as active or as
    expired; and a [get] of a query that is not blank sweeps the expired
    entries away: the statistics read at the same instant show none, and
    as many entries as were active before. *)
Theorem stats_after_get :
  forall (c : SemanticCache) (q m : string) (now : Z),
    List.NoDup (keys (cache c)) ->
    blank q = false ->
    let before := get_stats c now in
    let after := get_stats (fst (get c q m now)) now in
    0 <= active_entries before <= total_entries before
    /\ 0 <= expired_entries before <= total_entries before
    /\ expired_entries after = 0
    /\ active_entries after = total_entries after
    /\ total_entries after = active_entries before.
Proof.
  intros c q m now Hnd Hq before after.
  destruct (get_same_entries c q m now Hq) as (Hc & Httl & _).
  destruct (cleanup_cache c now Hnd) as (Hclean & Httl1 & _).
  pose proof (filter_negb_length (fun kv => _is_expired c (snd kv) now)
                (cache c)) as Hlen.
  assert (Hexp : expired_entries after = 0).
  { subst after. unfold get_stats. cbn [expired_entries].
    rewrite Hc, Hclean.
    rewrite (List.filter_ext _ (fun kv => _is_expired c (snd kv) now)).
    - rewrite filter_filter_negb. reflexivity.
    - intros kv. apply is_expired_ttl. congruence. }
  assert (Htot : total_entries after = active_entries before).
  { subst after before. unfold get_stats.
    cbn [total_entries active_entries]. rewrite Hc, Hclean. lia. }
  assert (Hact : active_entries after = total_entries after).
  { unfold get_stats in *. subst after. cbn in *. lia. }
  subst before. unfold get_stats in *. cbn [total_entries active_entries
                                            expired_entries] in *.
  lia.
Qed.

(** X12.  Storing again under a key the full cache already holds
    still evicts: when another entry is older than the one being
    replaced, the oldest entry is removed although no room was needed,
    and the cache ends one entry short. *)
Theorem set_existing_key_when_full_still_evicts :
  forall (c : SemanticCache) (q m r : string) (tok now : Z)
         (e0 : Entry) (k1 : string) (e1 : Entry),
    List.NoDup (keys (cache c)) ->
    blank q = false ->
    is_empty r = false ->
    max_cache_size c <= Z.of_nat (length (cache c)) ->
    dict_get (_get_cache_key q m) (cache c) = Some e0 ->
    dict_get k1 (cache c) = Some e1 ->
    created_at e1 < created_at e0 ->
    let c' := set c q m r tok now in
    S (length (cache c')) = length (cache c)
    /\ dict_get (_get_cache_key q m) (cache c')
       = Some {| query := q; model := m; response := r;
                 tokens_used := tok; created_at := now |}
    /\ exists k_old e_old,
         dict_get k_old (cache c) = Some e_old
         /\ k_old <> _get_cache_key q m
         /\ (forall k e, dict_get k (cache c) = Some e ->
                         created_at e_old <= created_at e)
         /\ dict_get k_old (cache c') = None.
Proof.
  intros c q m r tok now e0 k1 e1 Hnd Hq Hr Hfull Hkey Hk1 Hlt c'.
  destruct (set_cache c q m r tok now Hq Hr) as (Hc & _).
  assert (Hge : (Z.of_nat (length (cache c)) >=? max_cache_size c) = true)
    by (apply Z.geb_le; lia).
  rewrite Hge in Hc. fold c' in Hc.
  destruct (cache c) as [|first rest] eqn:Ecache; [discriminate|].
  destruct (oldest_spec rest first) as (e_old & Hin & Hmin).
  set (k_old := oldest rest first) in *.
  assert (Hevict : cache (_evict_oldest c) = dict_del k_old (cache c)).
  { unfold _evict_oldest. rewrite Ecache. fold k_old. rewrite <- Ecache.
    apply remove_entry_cache. }
  rewrite <- Ecache in *.
  assert (Hold : dict_get k_old (cache c) = Some e_old)
    by (apply In_dict_get; assumption).
  assert (Hne : k_old <> _get_cache_key q m).
  { intros Heq. rewrite Heq in Hold. rewrite Hold in Hkey.
    injection Hkey as ->.
    specialize (Hmin k1 e1 (dict_get_In _ _ _ Hk1)). lia. }
  assert (Hstill : dict_get (_get_cache_key q m) (dict_del k_old (cache c))
                   = Some e0).
  { rewrite dict_get_del_ne by exact Hne. exact Hkey. }
  rewrite Hevict in Hc.
  split.
  { rewrite Hc.
    rewrite (proj2 (length_dict_set _ _ _) (dict_get_key _ _ _ Hstill)).
    eapply length_dict_del. exact Hold. }
  split; [rewrite Hc; apply dict_get_set_eq|].
  exists k_old, e_old.
  split; [exact Hold|]. split; [exact Hne|]. split.
  { intros k e Hk. apply (Hmin k e). apply dict_get_In. exact Hk. }
  rewrite Hc, dict_get_set_ne by congruence.
  apply dict_get_del_eq. exact Hnd.
Qed.

Lemma dict_get_del_None {V} k x (d : dict V) :
  dict_get x d = None -> dict_get x (dict_del k d) = None.
Proof.
  intros H. apply dict_get_not_key. intros Hin.
  apply keys_dict_del in Hin. exact (dict_get_None_not_key _ _ H Hin).
Qed.

Lemma revectorize_absent f x ks : forall qv,
  ~ In x ks -> dict_get x qv = None ->
  dict_get x (fst (revectorize f ks qv)) = None.
Proof.
  induction ks as [|k ks IH]; intros qv Hx Hqv; cbn [revectorize].
  - exact Hqv.
  - destruct (transform f k).
    + apply IH; [intros H; apply Hx; right; exact H|].
      rewrite dict_get_set_ne; [exact Hqv|].
      intros ->. apply Hx. left. reflexivity.
    + cbn [fst]. apply dict_get_del_None. exact Hqv.
Qed.

Lemma vectorize_absent c q x :
  dict_get x (query_vectors c) = None ->
  dict_get x (query_vectors (fst (_vectorize_query c q))) = None.
Proof.
  intros Hx. unfold _vectorize_query.
  destruct (blank q); [exact Hx|].
  destruct (vectorizer c); [exact Hx|].
  destruct (query_vectors c) as [|p qv] eqn:Eqv.
  - destruct (fit [q]); cbn; rewrite ?Eqv; reflexivity.
  - destruct (fit _) as [f|]; [|cbn; rewrite Eqv; exact Hx].
    pose proof (revectorize_absent f x (keys (p :: qv)) (p :: qv)
                  (dict_get_None_not_key _ _ Hx) Hx) as H.
    destruct (revectorize f (keys (p :: qv)) (p :: qv)) as [qv' []];
      cbn in *; exact H.
Qed.

(** X13.  Entries of different models that share a query text share
    one vector, and removing one of them removes the vector: the next
    similarity search can only return an entry of a different query
    text, so the entries left with the removed entry's text are reachable
    by their exact key alone. *)
Theorem removal_hides_same_text_entries :
  forall (c : SemanticCache) (k : string) (e : Entry) (q m : string)
         (c2 : SemanticCache) (k2 : string),
    List.NoDup (keys (query_vectors c)) ->
    dict_get k (cache c) = Some e ->
    _find_similar_query (_remove_entry c k) q m = (c2, Some k2) ->
    (forall k', k' <> k ->
       dict_get k' (cache (_remove_entry c k)) = dict_get k' (cache c))
    /\ exists e2, In (k2, e2) (cache (_remove_entry c k))
                  /\ query e2 <> query e.
Proof.
  intros c k e q m c2 k2 Hnd Hk Hfind.
  split.
  { intros k' Hne. destruct (remove_entry_cache c k) as (-> & _).
    apply dict_get_del_ne. congruence. }
  assert (Hgone : dict_get (query e) (query_vectors (_remove_entry c k))
                  = None).
  { unfold _remove_entry. rewrite Hk. cbn. unfold dict_mem.
    destruct (dict_get (query e) (query_vectors c)) eqn:E; [|exact E].
    apply dict_get_del_eq. exact Hnd. }
  revert Hfind. unfold _find_similar_query.
  set (c' := _remove_entry c k) in *.
  destruct (query_vectors c') eqn:Eqv; [discriminate|]. rewrite <- Eqv in *.
  pose proof (vectorize_same_entries c' q) as (Hc & _).
  pose proof (vectorize_absent c' q (query e) Hgone) as Habs.
  destruct (_vectorize_query c' q) as [c1 [v|]]; [|discriminate].
  cbn [fst] in *. intros [= <- Hscan].
  destruct (scan_spec c1 v m _ _ _ _ Hscan)
    as [[Hbk _] | (before & e2 & after & s & Hitems & Hcand & _)];
    [discriminate|].
  exists e2. split; [rewrite <- Hc, Hitems; apply in_elt|].
  intros Heq. unfold candidate in Hcand. rewrite Heq, Habs in Hcand.
  destruct (String.eqb (model e2) m); discriminate.
Qed.

End CacheMore.

Section CacheMoreExamples.
Import Py Cache CacheStats.

Lemma cache_stays_within_limit_witness :
  Z.of_nat (length (cache (set two_entries "billing question" "m" "C" 5 3000000)))
  <= Z.max 1 (max_cache_size (set two_entries "billing question" "m" "C" 5
                                3000000)).
Proof.
  apply (cache_stays_within_limit (L := bags) two_entries "billing question"
           "m" "C" 5 3000000).
  vm_compute. discriminate.
Defined.


(** At an instant when the first entry of [two_entries] is older than
    the hour and the second is not. *)
Lemma stats_after_get_witness :
  expired_entries (get_stats two_entries 3601500000) = 1
  /\ expired_entries
       (get_stats (fst (get two_entries "hello" "m" 3601500000)) 3601500000)
     = 0
  /\ total_entries
       (get_stats (fst (get two_entries "hello" "m" 3601500000)) 3601500000)
     = active_entries (get_stats two_entries 3601500000).
Proof.
  destruct (stats_after_get (L := bags) two_entries "hello" "m" 3601500000
              two_entries_keys eq_refl) as (_ & _ & Hexp & _ & Htot).
  split; [vm_compute; reflexivity|]. split; [exact Hexp | exact Htot].
Defined.

Lemma set_existing_key_when_full_still_evicts_witness :
  S (length (cache (set two_entries "password reset" "m" "B2" 9 3000000)))
  = length (cache two_entries).
Proof.
  apply (set_existing_key_when_full_still_evicts (L := bags) two_entries
           "password reset" "m" "B2" 9 3000000
           {| query := "password reset"; model := "m"; response := "B";
              tokens_used := 9; created_at := 2000000 |}
           "reset password:m"
           {| query := "reset password"; model := "m"; response := "A";
              tokens_used := 7; created_at := 1000000 |}).
  - exact two_entries_keys.
  - reflexivity.
  - reflexivity.
  - vm_compute. discriminate.
  - vm_compute. reflexivity.
  - vm_compute. reflexivity.
  - cbn. lia.
Defined.

Lemma two_entries_vector_keys :
  List.NoDup (keys (query_vectors two_entries)).
Proof.
  vm_compute. repeat constructor; cbn; intuition discriminate.
Qed.

Lemma removal_hides_same_text_entries_witness :
  exists e2,
    In ("reset password:m", e2)
       (cache (_remove_entry two_entries "password reset:m"))
    /\ query e2 <> "password reset".
Proof.
  apply (removal_hides_same_text_entries (L := bags) two_entries
           "password reset:m"
           {| query := "password reset"; model := "m"; response := "B";
              tokens_used := 9; created_at := 2000000 |}
           "reset password please" "m"
           (fst (_find_similar_query
                   (_remove_entry two_entries "password reset:m")
                   "reset password please" "m"))
           "reset password:m").
  - exact two_entries_vector_keys.
  - vm_compute. reflexivity.
  - assert (H : snd (_find_similar_query
                       (_remove_entry two_entries "password reset:m")
                       "reset password please" "m")
                = Some "reset password:m") by (vm_compute; reflexivity).
    rewrite <- H. apply surjective_pairing.
Defined.

End CacheMoreExamples.

(** ** app/services/complexity_analyzer.py, continued *)

Module Routing.
Import Py Complexity.

(** [get_model_recommendation]: the model and the escalation flag (the
    rationale, a formatted sentence, is left out). *)
Definition get_model_recommendation (complexity_score : Q) : string * bool :=
  if Qltb complexity_score (3 # 10) then ("llama-3.3-70b-versatile", false)
  else if Qltb complexity_score (8 # 10) then ("openai/gpt-oss-120b", false)
  else ("openai/gpt-oss-120b", true).

(** The dictionary that [analyze_query] returns, without ["query"],
    ["rationale"] and ["error"]. *)
Record Analysis := {
  complexity_score : Q;
  recommended_model : string;
  escalation_flag : bool;
  question_type : QueryType;
  technical_terms_count : Z;
  analysis_word_count : Z;
  analysis_successful : bool
}.

(** [analyze_query].  As in [calculate_complexity], nothing in the body
    raises on a [str], so the handler is never entered. *)
Definition analyze_query (query : string) : Analysis :=
  if blank query then
    {| complexity_score := 0;
       recommended_model := "llama-3.3-70b-versatile";
       escalation_flag := false;
       question_type := SIMPLE_FAQ;
       technical_terms_count := 0;
       analysis_word_count := 0;
       analysis_successful := false |}
  else
    let complexity_score := calculate_complexity query in
    let '(model, escalation_flag) :=
      get_model_recommendation complexity_score in
    let question_type := _analyze_question_type (lower query) in
    let technical_terms_count := _count_technical_terms (lower query) in
    {| complexity_score := complexity_score;
       recommended_model := model;
       escalation_flag := escalation_flag;
       question_type := question_type;
       technical_terms_count := technical_terms_count;
       analysis_word_count := word_count query;
       analysis_successful := true |}.

End Routing.

Section RoutingFacts.
Import Py Complexity Escalation Routing.

Lemma complexity_reason c s :
  In "complexity" (snd (should_escalate c s)) <-> ((8 # 10) < c)%Q.
Proof.
  unfold should_escalate, complexity_threshold, sentiment_threshold.
  rewrite !Qltb_dec.
  destruct (Qlt_le_dec (8 # 10) c) as [Hc|Hc];
    destruct (Qlt_le_dec s (- (5 # 10))) as [Hs|Hs]; cbn; split; intros H;
    try assumption; try (left; reflexivity); try lra;
    repeat (destruct H as [H|H]; try discriminate H); contradiction.
Qed.

Lemma recommendation_cases c :
  get_model_recommendation c
  = if Qlt_le_dec c (3 # 10) then ("llama-3.3-70b-versatile", false)
    else if Qlt_le_dec c (8 # 10) then ("openai/gpt-oss-120b", false)
    else ("openai/gpt-oss-120b", true).
Proof.
  unfold get_model_recommendation. rewrite !Qltb_dec.
  destruct (Qlt_le_dec c (3 # 10)); [reflexivity|].
  destruct (Qlt_le_dec c (8 # 10)); reflexivity.
Qed.

(** X14.  The analysis of a query routes it by its complexity: the
    cost-effective model below 0.3 and the advanced model from 0.3 on, no
    other; the escalation flag is raised from 0.8 on, whereas
    [should_escalate] gives the reason "complexity" only above 0.8.  So
    whenever a query is escalated for complexity it was flagged and sent
    to the advanced model, but a score of exactly 0.8 is flagged without
    being escalated. *)
Theorem routing_and_escalation_thresholds :
  forall (query : string) (sentiment : Q),
    let r := analyze_query query in
    (recommended_model r = "llama-3.3-70b-versatile"
     \/ recommended_model r = "openai/gpt-oss-120b")
    /\ (recommended_model r = "llama-3.3-70b-versatile"
        <-> (complexity_score r < (3 # 10))%Q)
    /\ (escalation_flag r = true <-> ((8 # 10) <= complexity_score r)%Q)
    /\ (In "complexity" (snd (should_escalate (complexity_score r) sentiment))
        <-> ((8 # 10) < complexity_score r)%Q)
    /\ (In "complexity" (snd (should_escalate (complexity_score r) sentiment))
        -> escalation_flag r = true
           /\ recommended_model r = "openai/gpt-oss-120b")
    /\ (forall c : Q, (c == (8 # 10))%Q ->
          snd (get_model_recommendation c) = true
          /\ ~ In "complexity" (snd (should_escalate c sentiment))).
Proof.
  intros query sentiment r.
  assert (Hr : (complexity_score r == 0)%Q
               /\ recommended_model r = "llama-3.3-70b-versatile"
               /\ escalation_flag r = false
               \/ (recommended_model r, escalation_flag r)
                  = get_model_recommendation (complexity_score r)).
  { subst r. unfold analyze_query. destruct (blank query).
    - left. cbn. repeat split; reflexivity.
    - right. destruct (get_model_recommendation _) eqn:E. cbn.
      rewrite E. reflexivity. }
  pose proof (complexity_reason (complexity_score r) sentiment) as Hreason.
  assert (Hcases :
    (complexity_score r < (3 # 10))%Q
      /\ recommended_model r = "llama-3.3-70b-versatile"
      /\ escalation_flag r = false
    \/ ((3 # 10) <= complexity_score r)%Q
       /\ (complexity_score r < (8 # 10))%Q
       /\ recommended_model r = "openai/gpt-oss-120b"
       /\ escalation_flag r = false
    \/ ((8 # 10) <= complexity_score r)%Q
       /\ recommended_model r = "openai/gpt-oss-120b"
       /\ escalation_flag r = true).
  { destruct Hr as [(H0 & Hm & Hf) | Hr].
    - left. split; [rewrite H0; reflexivity | auto].
    - rewrite recommendation_cases in Hr.
      destruct (Qlt_le_dec (complexity_score r) (3 # 10)) as [H3|H3].
      + injection Hr as Hm Hf. left. auto.
      + destruct (Qlt_le_dec (complexity_score r) (8 # 10)) as [H8|H8];
          injection Hr as Hm Hf; right; [left | right]; auto. }
  split; [|split; [|split; [|split; [exact Hreason|split]]]].
  - destruct Hcases as [(_ & -> & _) | [(_ & _ & -> & _) | (_ & -> & _)]];
      auto.
  - destruct Hcases as [(H & -> & _) | [(H & _ & -> & _) | (H & -> & _)]];
      split; intros H'; try reflexivity; try assumption; try discriminate;
      exfalso; lra.
  - destruct Hcases as [(H & _ & ->) | [(_ & H & _ & ->) | (H & _ & ->)]];
      split; intros H'; try reflexivity; try assumption; try discriminate;
      exfalso; lra.
  - intros Hin. apply Hreason in Hin.
    destruct Hcases as [(H & _) | [(_ & H & _) | (_ & -> & ->)]];
      [exfalso; lra | exfalso; lra | auto].
  - intros c Hc. split.
    + rewrite recommendation_cases.
      destruct (Qlt_le_dec c (3 # 10)); [exfalso; lra|].
      destruct (Qlt_le_dec c (8 # 10)); [exfalso; lra|]. reflexivity.
    + rewrite complexity_reason. lra.
Qed.

Lemma length_score_bound text :
  (_calculate_length_score text <= 5 # 10)%Q
  /\ (_calculate_length_score text <= inject_Z (word_count text) * (1 # 40))%Q.
Proof.
  unfold _calculate_length_score. split; [apply Q.le_min_r|].
  eapply Qle_trans; [apply Q.le_min_l|].
  apply Qle_lteq. right. field.
Qed.

Lemma technical_score_bound text :
  (_calculate_technical_score text <= 4 # 10)%Q
  /\ (_calculate_technical_score text
      <= inject_Z (_count_technical_terms text) * (1 # 20))%Q.
Proof.
  unfold _calculate_technical_score. split; [apply Q.le_min_r|].
  eapply Qle_trans; [apply Q.le_min_l|].
  apply Qle_lteq. right. field.
Qed.

Lemma question_score_bound text :
  (_analyze_question_type_score text <= 3 # 10)%Q.
Proof.
  unfold _analyze_question_type_score.
  destruct (_analyze_question_type text); discriminate.
Qed.

Lemma complexity_le_sum query :
  blank query = false ->
  (calculate_complexity query
   <= _calculate_length_score (normalized query)
      + _calculate_technical_score (normalized query)
      + _analyze_question_type_score (normalized query))%Q.
Proof.
  intros Hb. unfold calculate_complexity, normalized. rewrite Hb.
  apply Q.le_min_l.
Qed.

(** X15.  A query is escalated for complexity only if its normalized
    text has at least five words and at least one word of the list of
    technical terms: length and question type alone reach 0.8 at most. *)
Theorem complexity_escalation_needs_technical_terms :
  forall (query : string) (sentiment : Q),
    In "complexity"
       (snd (should_escalate (calculate_complexity query) sentiment)) ->
    1 <= _count_technical_terms (normalized query)
    /\ 5 <= word_count (normalized query).
Proof.
  intros query sentiment Hin. apply complexity_reason in Hin.
  destruct (blank query) eqn:Hb.
  { exfalso. unfold calculate_complexity in Hin. rewrite Hb in Hin. lra. }
  pose proof (complexity_le_sum query Hb) as Hsum.
  set (text := normalized query) in *.
  destruct (length_score_bound text) as [HL1 HL2].
  destruct (technical_score_bound text) as [HT1 HT2].
  pose proof (question_score_bound text) as HW.
  set (score := calculate_complexity query) in *.
  set (L := _calculate_length_score text) in *.
  set (T := _calculate_technical_score text) in *.
  set (W := _analyze_question_type_score text) in *.
  split.
  - destruct (Z_lt_le_dec (_count_technical_terms text) 1) as [Hlt|]; [|lia].
    exfalso.
    assert (H0 : (inject_Z (_count_technical_terms text) <= 0)%Q).
    { change 0%Q with (inject_Z 0). rewrite <- Zle_Qle. lia. }
    set (n := inject_Z (_count_technical_terms text)) in *.
    clearbody score L T W n. clear HL2. lra.
  - destruct (Z_lt_le_dec (word_count text) 5) as [Hlt|]; [|lia].
    exfalso.
    assert (H4 : (inject_Z (word_count text) <= 4)%Q).
    { change 4%Q with (inject_Z 4). rewrite <- Zle_Qle. lia. }
    set (n := inject_Z (word_count text)) in *.
    clearbody score L T W n. clear HT2. lra.
Qed.

End RoutingFacts.

Section CaseFacts.
Import Py Complexity Routing.

Lemma lower_char_idem c : lower_char (lower_char c) = lower_char c.
Proof. destruct c as [[] [] [] [] [] [] [] []]; vm_compute; reflexivity. Qed.

Lemma lower_idem s : lower (lower s) = lower s.
Proof.
  induction s as [|c s IH]; cbn; [reflexivity|].
  rewrite lower_char_idem, IH. reflexivity.
Qed.

Lemma length_lower s : String.length (lower s) = String.length s.
Proof. induction s as [|c s IH]; cbn; [reflexivity|]. rewrite IH. reflexivity. Qed.

Lemma is_empty_lower s : is_empty (lower s) = is_empty s.
Proof. destruct s; reflexivity. Qed.

Lemma lstrip_lower s : lstrip (lower s) = lower (lstrip s).
Proof.
  induction s as [|c s IH]; cbn; [reflexivity|].
  rewrite is_space_lower_char. destruct (is_space c); [exact IH|reflexivity].
Qed.

Lemma rstrip_lower s : rstrip (lower s) = lower (rstrip s).
Proof.
  induction s as [|c s IH]; cbn; [reflexivity|].
  rewrite is_space_lower_char, IH, is_empty_lower.
  destruct (is_space c && is_empty (rstrip s)); reflexivity.
Qed.

Lemma strip_lower s : strip (lower s) = lower (strip s).
Proof. unfold strip. rewrite lstrip_lower, rstrip_lower. reflexivity. Qed.

Lemma blank_lower s : blank (lower s) = blank s.
Proof. unfold blank. rewrite strip_lower, !is_empty_lower. reflexivity. Qed.

Lemma take_lower n : forall s, take n (lower s) = lower (take n s).
Proof.
  unfold take. induction n as [|n IH]; intros [|c s]; cbn; try reflexivity.
  rewrite IH. reflexivity.
Qed.

Lemma lower_app s t : lower (s +:+ t) = lower s +:+ lower t.
Proof.
  induction s as [|c s IH]; [reflexivity|].
  change (lower (String c (s +:+ t))
          = String (lower_char c) (lower s +:+ lower t)).
  cbn [lower]. rewrite IH. reflexivity.
Qed.

Lemma runs_lower s : forall cur,
  runs is_space (lower s) (lower cur) = map lower (runs is_space s cur).
Proof.
  induction s as [|c s IH]; intros cur; cbn [runs lower].
  - rewrite is_empty_lower. destruct (is_empty cur); reflexivity.
  - rewrite is_space_lower_char, is_empty_lower.
    destruct (is_space c).
    + destruct (is_empty cur); cbn [map]; rewrite <- (IH EmptyString);
        reflexivity.
    + rewrite <- IH, lower_app. reflexivity.
Qed.

Lemma word_count_lower s : word_count (lower s) = word_count s.
Proof.
  unfold word_count, split.
  change (runs is_space (lower s) EmptyString)
    with (runs is_space (lower s) (lower EmptyString)).
  rewrite runs_lower, length_map. reflexivity.
Qed.

Lemma normalized_lower query : normalized (lower query) = normalized query.
Proof.
  unfold normalized, len. rewrite length_lower.
  destruct (_ >? _); rewrite ?take_lower, lower_idem; reflexivity.
Qed.

Lemma complexity_of_normalized query :
  calculate_complexity query
  = if blank query then 0%Q
    else Qmin (_calculate_length_score (normalized query)
               + _calculate_technical_score (normalized query)
               + _analyze_question_type_score (normalized query)) 1.
Proof. reflexivity. Qed.

(** X16.  For a query of Latin-1 characters only (code points 0 to
    255, the strings of this development), on which [str.lower] works
    character by character and keeps the length of the text, the analysis
    does not depend on the case of the letters: the query and its
    lower-case form get the same complexity score, and the same model,
    escalation flag, question type and counts.  (Outside Latin-1 a
    lower-case form can be longer than the text, and the cut at 10000
    characters can then fall elsewhere.) *)
Theorem analysis_ignores_case :
  forall query : string,
    String.length (lower query) = String.length query
    /\ lower (lower query) = lower query
    /\ calculate_complexity (lower query) = calculate_complexity query
    /\ analyze_query (lower query) = analyze_query query.
Proof.
  intros query.
  split; [apply length_lower|]. split; [apply lower_idem|].
  assert (H : calculate_complexity (lower query) = calculate_complexity query).
  { rewrite !complexity_of_normalized, blank_lower, normalized_lower.
    reflexivity. }
  split; [exact H|].
  unfold analyze_query.
  rewrite blank_lower, H, lower_idem, word_count_lower. reflexivity.
Qed.

End CaseFacts.

Section RoutingExamples.
Import Py Complexity Escalation Routing.

(** Twenty-two words, the question of an integration, three technical
    terms. *)
Definition long_integration_question : string :=
  "We need to integrate the payment api with our internal system and then configure the gateway and the database for all our regions".

Lemma complexity_escalation_needs_technical_terms_witness :
  1 <= _count_technical_terms (normalized long_integration_question)
  /\ 5 <= word_count (normalized long_integration_question).
Proof.
  apply (complexity_escalation_needs_technical_terms
           long_integration_question 0).
  assert (E : snd (should_escalate
                     (calculate_complexity long_integration_question) 0)
              = ["complexity"]) by (vm_compute; reflexivity).
  rewrite E. left. reflexivity.
Defined.

End RoutingExamples.

(** ** app/services/escalation_manager.py, continued *)

Module Tickets.
Import Py Cache.

(** [app.models.ConversationMessage] *)
Record ConversationMessage := {
  msg_id : string;
  msg_timestamp : Z;
  role : string;
  content : string;
  msg_model_used : option string;
  msg_sentiment_score : option Q;
  msg_complexity_score : option Q;
  msg_response_time_ms : option Z;
  msg_tokens_used : option Z;
  msg_cached : bool;
  thread_id : option string
}.

(** [app.models.EscalationTicket] *)
Record EscalationTicket := {
  ticket_id : string;
  customer_id : string;
  ticket_created_at : Z;
  reason : string;
  summary : string;
  conversation_history : list ConversationMessage;
  priority : string;
  status : string;
  escalation_score : Q
}.

(** A ticket as [_log_to_crm] writes it down. *)
Record TicketRow := {
  row_ticket_id : string;
  row_created_at : string;
  row_reason : string;
  row_priority : string;
  row_status : string;
  row_summary : string;
  row_escalation_score : Q
}.

(** A value of [self.crm_store]. *)
Record CustomerRecord := {
  record_customer_id : string;
  tickets : list TicketRow;
  total_escalations : Z;
  last_escalation : option string
}.

(** What [get_escalation_notification] returns. *)
Record Notification := {
  notification_type : string;
  notification_ticket_id : string;
  message : string;
  notification_priority : string;
  notification_reason : string;
  notification_created_at : string;
  estimated_response_time : string
}.

(** [max(a, b)]: the first of the largest. *)
Definition py_max (a b : Q) : Q := if Qltb a b then b else a.

(** [sep.join(parts)] *)
Fixpoint join (sep : string) (parts : list string) : string :=
  match parts with
  | [] => EmptyString
  | [part] => part
  | part :: rest => part +:+ sep +:+ join sep rest
  end.

(** [issue_keywords] of [_extract_key_issues], in insertion order. *)
Definition issue_keywords : dict (list string) :=
  [ ("technical",
     ["api"; "integration"; "error"; "bug"; "configuration"; "setup"]);
    ("billing",
     ["payment"; "charge"; "invoice"; "billing"; "cost"; "price"]);
    ("access",
     ["login"; "password"; "access"; "permission"; "authentication"]);
    ("performance",
     ["slow"; "timeout"; "performance"; "speed"; "latency"]);
    ("frustration",
     ["frustrated"; "angry"; "terrible"; "awful"; "unacceptable";
      "disappointed"]) ].

(** The inner loop of [_extract_key_issues], over the categories. *)
Fixpoint scan_categories (content_lower : string)
    (categories : dict (list string)) (detected_issues : list string)
    : list string :=
  match categories with
  | [] => detected_issues
  | (category, keywords) :: rest =>
      let detected_issues :=
        if existsb (fun keyword => contains keyword content_lower) keywords
        then
          if negb (existsb (String.eqb category) detected_issues)
          then (detected_issues ++ [category])%list
          else detected_issues
        else detected_issues in
      scan_categories content_lower rest detected_issues
  end.

(** The outer loop, over the messages. *)
Fixpoint scan_messages (user_messages : list ConversationMessage)
    (detected_issues : list string) : list string :=
  match user_messages with
  | [] => detected_issues
  | message :: rest =>
      scan_messages rest
        (scan_categories (lower (content message)) issue_keywords
           detected_issues)
  end.

(** [_extract_key_issues] *)
Definition _extract_key_issues (user_messages : list ConversationMessage)
    : string :=
  match scan_messages user_messages [] with
  | [] => "general inquiry"
  | detected_issues => join ", " detected_issues
  end.

(** [_calculate_priority] *)
Definition _calculate_priority (escalation_score : Q)
    (reasons : list string) : string :=
  if Qle_bool (9 # 10) escalation_score
     || existsb (String.eqb "sentiment") reasons
  then "critical"
  else if Qle_bool (8 # 10) escalation_score then "high"
  else if Qle_bool (6 # 10) escalation_score then "medium"
  else "low".

(** [_get_estimated_response_time] *)
Definition _get_estimated_response_time (priority : string) : string :=
  if String.eqb priority "critical" then "within 15 minutes"
  else if String.eqb priority "high" then "within 1 hour"
  else if String.eqb priority "medium" then "within 4 hours"
  else "within 24 hours".

(** The value that [get_customer_escalation_history] gives for a
    customer without a record, and that [_log_to_crm] starts from. *)
Definition no_escalations (customer_id : string) : CustomerRecord :=
  {| record_customer_id := customer_id;
     tickets := [];
     total_escalations := 0;
     last_escalation := None |}.

(** [get_customer_escalation_history] *)
Definition get_customer_escalation_history (crm_store : dict CustomerRecord)
    (customer_id : string) : CustomerRecord :=
  match dict_get customer_id crm_store with
  | Some customer_data => customer_data
  | None => no_escalations customer_id
  end.

Definition with_status (ticket : TicketRow) (status : string) : TicketRow :=
  {| row_ticket_id := row_ticket_id ticket;
     row_created_at := row_created_at ticket;
     row_reason := row_reason ticket;
     row_priority := row_priority ticket;
     row_status := status;
     row_summary := row_summary ticket;
     row_escalation_score := row_escalation_score ticket |}.

(** The inner loop of [update_ticket_status], over the tickets of one
    customer: the tickets after the update when one has the identifier. *)
Fixpoint update_tickets (tickets : list TicketRow) (ticket_id status : string)
    : option (list TicketRow) :=
  match tickets with
  | [] => None
  | ticket :: rest =>
      if String.eqb (row_ticket_id ticket) ticket_id
      then Some (with_status ticket status :: rest)
      else
        match update_tickets rest ticket_id status with
        | Some rest' => Some (ticket :: rest')
        | None => None
        end
  end.

(** [update_ticket_status]: the store after the call and the value
    returned. *)
Fixpoint update_ticket_status (crm_store : dict CustomerRecord)
    (ticket_id status : string) : dict CustomerRecord * bool :=
  match crm_store with
  | [] => ([], false)
  | (key, customer_data) :: rest =>
      match update_tickets (tickets customer_data) ticket_id status with
      | Some tickets' =>
          ((key,
            {| record_customer_id := record_customer_id customer_data;
               tickets := tickets';
               total_escalations := total_escalations customer_data;
               last_escalation := last_escalation customer_data |}) :: rest,
           true)
      | None =>
          let '(rest', found) := update_ticket_status rest ticket_id status in
          ((key, customer_data) :: rest', found)
      end
  end.

Section WithFormats.
(** [datetime.isoformat] and [generate_escalation_summary], whose text
    is made with [strftime], float formatting and the iteration order of a
    [set]. *)
Variable isoformat : Z -> string.
Variable generate_escalation_summary :
  list ConversationMessage -> list string -> string.

(** The row of a ticket. *)
Definition row_of (ticket : EscalationTicket) : TicketRow :=
  {| row_ticket_id := ticket_id ticket;
     row_created_at := isoformat (ticket_created_at ticket);
     row_reason := reason ticket;
     row_priority := priority ticket;
     row_status := status ticket;
     row_summary := summary ticket;
     row_escalation_score := escalation_score ticket |}.

(** [_log_to_crm] *)
Definition _log_to_crm (crm_store : dict CustomerRecord)
    (ticket : EscalationTicket) : dict CustomerRecord :=
  let crm_store :=
    if dict_mem (customer_id ticket) crm_store then crm_store
    else dict_set (customer_id ticket) (no_escalations (customer_id ticket))
           crm_store in
  match dict_get (customer_id ticket) crm_store with
  | Some customer_data =>
      dict_set (customer_id ticket)
        {| record_customer_id := record_customer_id customer_data;
           tickets := (tickets customer_data ++ [row_of ticket])%list;
           total_escalations := total_escalations customer_data + 1;
           last_escalation := Some (isoformat (ticket_created_at ticket)) |}
        crm_store
  | None => crm_store
  end.

(** The values that the model [EscalationTicket] accepts as a reason. *)
Definition valid_reason (reason : string) : bool :=
  existsb (String.eqb reason) ["complexity"; "sentiment"; "manual"].

(** [create_escalation_ticket]: the store after the call and the ticket,
    or [None] when the model refuses the reason with a validation error.
    [uuid] is the identifier that [uuid4] draws and [now] the reading of
    the clock. *)
Definition create_escalation_ticket (crm_store : dict CustomerRecord)
    (customer_id : string) (conversation_history : list ConversationMessage)
    (escalation_reasons : list string) (escalation_score : Q)
    (uuid : string) (now : Z)
    : dict CustomerRecord * option EscalationTicket :=
  let summary :=
    generate_escalation_summary conversation_history escalation_reasons in
  let primary_reason :=
    match escalation_reasons with
    | first :: _ => first
    | [] => "manual"
    end in
  let priority := _calculate_priority escalation_score escalation_reasons in
  if valid_reason primary_reason then
    let ticket :=
      {| ticket_id := uuid;
         customer_id := customer_id;
         ticket_created_at := now;
         reason := primary_reason;
         summary := summary;
         conversation_history := conversation_history;
         priority := priority;
         status := "open";
         escalation_score := escalation_score |} in
    (_log_to_crm crm_store ticket, Some ticket)
  else (crm_store, None).

(** [get_escalation_notification] *)
Definition get_escalation_notification (ticket : EscalationTicket)
    : Notification :=
  {| notification_type := "escalation";
     notification_ticket_id := ticket_id ticket;
     message := "Human agent requested - Your query has been escalated for specialized assistance";
     notification_priority := priority ticket;
     notification_reason := reason ticket;
     notification_created_at := isoformat (ticket_created_at ticket);
     estimated_response_time :=
       _get_estimated_response_time (priority ticket) |}.

End WithFormats.

End Tickets.

Section TicketFacts.
Import Py Cache Escalation Tickets.
Variable isoformat : Z -> string.
Variable generate_escalation_summary :
  list ConversationMessage -> list string -> string.

Lemma Qabs_cases s :
  (0 <= s /\ Qabs s = s)%Q \/ (s <= 0 /\ Qabs s = - s)%Q.
Proof. apply Qabs_case; intros H; [left | right]; split; auto. Qed.

Lemma py_max_cases a b :
  (a < b /\ py_max a b = b)%Q \/ (b <= a /\ py_max a b = a)%Q.
Proof.
  unfold py_max. rewrite Qltb_dec.
  destruct (Qlt_le_dec a b); [left | right]; split; auto.
Qed.

Lemma Qle_bool_dec x y :
  Qle_bool x y = if Qlt_le_dec y x then false else true.
Proof.
  destruct (Qlt_le_dec y x) as [H|H].
  - destruct (Qle_bool x y) eqn:E; [|reflexivity].
    apply Qle_bool_iff in E. exfalso. exact (Qlt_not_le _ _ H E).
  - apply Qle_bool_iff. exact H.
Qed.

Lemma reasons_cases c s :
  snd (should_escalate c s)
  = ((if Qlt_le_dec (8 # 10) c then ["complexity"] else [])
     ++ (if Qlt_le_dec s (- (5 # 10)) then ["sentiment"] else []))%list
  /\ fst (should_escalate c s)
     = if Qlt_le_dec (8 # 10) c then true
       else if Qlt_le_dec s (- (5 # 10)) then true else false.
Proof.
  unfold should_escalate, complexity_threshold, sentiment_threshold.
  rewrite !Qltb_dec.
  destruct (Qlt_le_dec (8 # 10) c); destruct (Qlt_le_dec s (- (5 # 10)));
    split; reflexivity.
Qed.

(** X17.  The ticket of an automatically escalated query.  When
    [should_escalate] asks for an escalation and the ticket is created with
    its reasons and with the score max(complexity, |sentiment|), as
    [process_query] does, the ticket is accepted and logged, it is open,
    its reason is "complexity" when the complexity is above 0.8 and
    "sentiment" otherwise, and its priority is never "medium" or "low": it
    is "critical" exactly when the sentiment is below -0.5 or the
    complexity or the sentiment is at least 0.9 (a very positive sentiment
    counts like a very negative one), and "high" otherwise; the announced
    response time is 15 minutes or one hour accordingly. *)
Theorem escalated_query_ticket :
  forall (crm_store : dict CustomerRecord) (customer : string)
         (history : list ConversationMessage) (c s : Q)
         (uuid : string) (now : Z),
    fst (should_escalate c s) = true ->
    let reasons := snd (should_escalate c s) in
    let score := py_max c (Qabs s) in
    exists ticket,
      create_escalation_ticket isoformat generate_escalation_summary
        crm_store customer history reasons score uuid now
      = (_log_to_crm isoformat crm_store ticket, Some ticket)
      /\ ticket_id ticket = uuid
      /\ customer_id ticket = customer
      /\ status ticket = "open"
      /\ reason ticket
         = (if Qlt_le_dec (8 # 10) c then "complexity" else "sentiment")
      /\ (priority ticket = "critical" \/ priority ticket = "high")
      /\ (priority ticket = "critical"
          <-> (s < - (5 # 10) \/ (9 # 10) <= c \/ (9 # 10) <= s)%Q)
      /\ estimated_response_time
           (get_escalation_notification isoformat ticket)
         = (if String.eqb (priority ticket) "critical"
            then "within 15 minutes" else "within 1 hour").
Proof.
  intros crm_store customer history c s uuid now Hesc reasons score.
  destruct (reasons_cases c s) as [Hreasons Hfst].
  fold reasons in Hreasons. rewrite Hesc in Hfst.
  assert (Hscore : ((9 # 10) <= score
                    <-> (9 # 10) <= c \/ (9 # 10) <= s \/ s <= - (9 # 10))%Q
                   /\ (c <= score)%Q).
  { subst score.
    destruct (py_max_cases c (Qabs s)) as [[H ->] | [H ->]];
      destruct (Qabs_cases s) as [[H0 E] | [H0 E]]; rewrite E in *;
      split; try split; try intros [|[|]]; intros; try lra;
      try (destruct (Qlt_le_dec c (9 # 10)); [right|left]; lra). }
  destruct Hscore as [H9 Hc].
  unfold create_escalation_ticket.
  set (p := _calculate_priority score reasons).
  assert (Hp : (p = "critical" \/ p = "high")
               /\ (p = "critical"
                   <-> (s < - (5 # 10) \/ (9 # 10) <= c \/ (9 # 10) <= s)%Q)).
  { subst p. unfold _calculate_priority. rewrite Hreasons, !Qle_bool_dec.
    destruct (Qlt_le_dec s (- (5 # 10))) as [Hs|Hs].
    - assert (E : existsb (String.eqb "sentiment")
                    ((if Qlt_le_dec (8 # 10) c then ["complexity"] else [])
                     ++ ["sentiment"]) = true).
      { destruct (Qlt_le_dec (8 # 10) c); reflexivity. }
      rewrite E, orb_true_r.
      split; [left; reflexivity|]. split; [intros _; left; exact Hs|].
      reflexivity.
    - destruct (Qlt_le_dec (8 # 10) c) as [H8|H8]; [|discriminate Hfst].
      cbn [app existsb String.eqb Ascii.eqb Bool.eqb orb].
      destruct (Qlt_le_dec score (9 # 10)) as [Hlt|Hge]; cbn.
      + destruct (Qlt_le_dec score (8 # 10)) as [Hlt8|Hge8]; [exfalso; lra|].
        split; [right; reflexivity|]. split; [discriminate|].
        intros Hcond. exfalso.
        assert ((9 # 10) <= score)%Q by (apply H9; lra). lra.
      + split; [left; reflexivity|]. split; [intros _ | reflexivity].
        apply H9 in Hge. destruct Hge as [H|[H|H]]; [auto | auto |].
        exfalso. lra. }
  assert (Hvalid : valid_reason
                     match reasons with first :: _ => first | [] => "manual" end
                   = true
                   /\ match reasons with first :: _ => first | [] => "manual" end
                      = (if Qlt_le_dec (8 # 10) c then "complexity"
                         else "sentiment")).
  { rewrite Hreasons.
    destruct (Qlt_le_dec (8 # 10) c); destruct (Qlt_le_dec s (- (5 # 10)));
      try discriminate Hfst; split; reflexivity. }
  destruct Hvalid as [Hvalid Hreason]. rewrite Hvalid.
  eexists. split; [reflexivity|]. cbn.
  repeat (split; [first [reflexivity | exact Hreason | tauto]|]).
  destruct Hp as [[-> | ->] _]; reflexivity.
Qed.

(** *** The escalation log *)

(** The stores that the manager can hold: the empty one of [__init__],
    and what [_log_to_crm] and [update_ticket_status] make of one. *)
Inductive reachable : dict CustomerRecord -> Prop :=
| reachable_init : reachable []
| reachable_log crm_store ticket :
    reachable crm_store ->
    reachable (_log_to_crm isoformat crm_store ticket)
| reachable_update crm_store ticket_id status :
    reachable crm_store ->
    reachable (fst (update_ticket_status crm_store ticket_id status)).

(** The [created_at] of the last ticket. *)
Definition last_created_at (rows : list TicketRow) : option string :=
  match rev rows with
  | [] => None
  | row :: _ => Some (row_created_at row)
  end.

Definition consistent (key : string) (r : CustomerRecord) : Prop :=
  record_customer_id r = key
  /\ total_escalations r = Z.of_nat (length (tickets r))
  /\ last_escalation r = last_created_at (tickets r).

Definition all_consistent (crm_store : dict CustomerRecord) : Prop :=
  forall key r, In (key, r) crm_store -> consistent key r.

Lemma In_dict_set {V} k v (d : dict V) k' v' :
  In (k', v') (dict_set k v d) -> (k' = k /\ v' = v) \/ In (k', v') d.
Proof.
  induction d as [|[k1 v1] d IH]; cbn.
  - intros [[= <- <-]|[]]. left. auto.
  - destruct (String.eqb_spec k k1) as [->|Hne]; cbn.
    + intros [[= <- <-]|H]; [left; auto | right; right; exact H].
    + intros [H|H]; [right; left; exact H|].
      destruct (IH H) as [H'|H']; [left; exact H' | right; right; exact H'].
Qed.

Lemma last_created_at_snoc rows row :
  last_created_at (rows ++ [row]) = Some (row_created_at row).
Proof. unfold last_created_at. rewrite rev_app_distr. reflexivity. Qed.

Lemma log_to_crm_unfold crm_store ticket :
  _log_to_crm isoformat crm_store ticket
  = let r := get_customer_escalation_history crm_store (customer_id ticket) in
    dict_set (customer_id ticket)
      {| record_customer_id := record_customer_id r;
         tickets := (tickets r ++ [row_of isoformat ticket])%list;
         total_escalations := total_escalations r + 1;
         last_escalation := Some (isoformat (ticket_created_at ticket)) |}
      (if dict_mem (customer_id ticket) crm_store then crm_store
       else dict_set (customer_id ticket)
              (no_escalations (customer_id ticket)) crm_store).
Proof.
  unfold _log_to_crm, get_customer_escalation_history, dict_mem.
  destruct (dict_get (customer_id ticket) crm_store) eqn:E.
  - rewrite E. reflexivity.
  - rewrite dict_get_set_eq. reflexivity.
Qed.

Lemma log_to_crm_consistent crm_store ticket :
  all_consistent crm_store ->
  all_consistent (_log_to_crm isoformat crm_store ticket).
Proof.
  intros Hall key r. rewrite log_to_crm_unfold. cbn zeta.
  assert (Hold : consistent (customer_id ticket)
                   (get_customer_escalation_history crm_store
                      (customer_id ticket))).
  { unfold get_customer_escalation_history.
    destruct (dict_get (customer_id ticket) crm_store) eqn:E.
    - apply Hall. apply dict_get_In. exact E.
    - repeat split. }
  intros Hin. apply In_dict_set in Hin as [[-> ->] | Hin].
  - destruct Hold as (H1 & H2 & H3). unfold consistent. cbn.
    rewrite length_app, last_created_at_snoc. cbn. repeat split; [exact H1|].
    lia.
  - destruct (dict_mem (customer_id ticket) crm_store); [exact (Hall _ _ Hin)|].
    apply In_dict_set in Hin as [[-> ->] | Hin]; [|exact (Hall _ _ Hin)].
    repeat split.
Qed.

Lemma update_tickets_shape rows ticket_id status rows' :
  update_tickets rows ticket_id status = Some rows' ->
  length rows' = length rows
  /\ last_created_at rows' = last_created_at rows.
Proof.
  revert rows'. induction rows as [|row rows IH]; intros rows'; cbn;
    [discriminate|].
  destruct (String.eqb (row_ticket_id row) ticket_id).
  - intros [= <-]. split; [reflexivity|].
    unfold last_created_at. cbn.
    destruct (rev rows); reflexivity.
  - destruct (update_tickets rows ticket_id status) as [rest'|];
      [|discriminate].
    intros [= <-]. destruct (IH rest' eq_refl) as [Hlen Hlast]. cbn.
    split; [rewrite Hlen; reflexivity|].
    unfold last_created_at in *. cbn.
    destruct (rev rest') as [|a l], (rev rows) as [|b m]; cbn in *;
      congruence.
Qed.

Lemma update_ticket_status_consistent crm_store ticket_id status :
  all_consistent crm_store ->
  all_consistent (fst (update_ticket_status crm_store ticket_id status)).
Proof.
  induction crm_store as [|[key r] rest IH]; intros Hall; cbn; [exact Hall|].
  assert (Hrest : all_consistent rest).
  { intros k' r' Hin. apply Hall. right. exact Hin. }
  destruct (update_tickets (tickets r) ticket_id status) as [rows'|] eqn:E.
  - cbn. intros k' r' [[= <- <-]|Hin]; [|apply Hall; right; exact Hin].
    destruct (Hall key r (or_introl eq_refl)) as (H1 & H2 & H3).
    destruct (update_tickets_shape _ _ _ _ E) as [Hlen Hlast].
    unfold consistent. cbn. rewrite Hlen, Hlast. auto.
  - specialize (IH Hrest).
    destruct (update_ticket_status rest ticket_id status) as [rest' found].
    cbn in *. intros k' r' [[= <- <-]|Hin].
    + apply Hall. left. reflexivity.
    + apply IH. exact Hin.
Qed.

(** X18.  The escalation log keeps its books: in every store that the
    manager can reach from the empty one by logging tickets and updating
    statuses, the history of every customer, known or not, carries the
    customer's identifier, counts in [total_escalations] exactly the
    tickets it lists, and has in [last_escalation] the creation time of the
    last of them (none without tickets). *)
Theorem escalation_history_is_consistent :
  forall (crm_store : dict CustomerRecord) (customer : string),
    reachable crm_store ->
    let h := get_customer_escalation_history crm_store customer in
    record_customer_id h = customer
    /\ total_escalations h = Z.of_nat (length (tickets h))
    /\ last_escalation h = last_created_at (tickets h).
Proof.
  intros crm_store customer Hreach.
  assert (Hall : all_consistent crm_store).
  { induction Hreach as [|store ticket _ IH|store id st _ IH].
    - intros key r [].
    - apply log_to_crm_consistent. exact IH.
    - apply update_ticket_status_consistent. exact IH. }
  cbn zeta. unfold get_customer_escalation_history.
  destruct (dict_get customer crm_store) eqn:E.
  - apply (Hall customer). apply dict_get_In. exact E.
  - repeat split.
Qed.

Lemma history_set_eq k v d :
  get_customer_escalation_history (dict_set k v d) k = v.
Proof.
  unfold get_customer_escalation_history. rewrite dict_get_set_eq.
  reflexivity.
Qed.

Lemma history_set_ne k k' v d :
  k <> k' ->
  get_customer_escalation_history (dict_set k v d) k'
  = get_customer_escalation_history d k'.
Proof.
  intros Hne. unfold get_customer_escalation_history.
  rewrite dict_get_set_ne by exact Hne. reflexivity.
Qed.

(** X19.  Logging a ticket adds it at the end of its customer's
    history, whatever the store, counts it and dates the history with it;
    the histories of the other customers are what they were. *)
Theorem log_to_crm_appends :
  forall (crm_store : dict CustomerRecord) (ticket : EscalationTicket)
         (customer : string),
    let before := get_customer_escalation_history crm_store customer in
    let after :=
      get_customer_escalation_history
        (_log_to_crm isoformat crm_store ticket) customer in
    if String.eqb customer (customer_id ticket)
    then tickets after = (tickets before ++ [row_of isoformat ticket])%list
         /\ total_escalations after = total_escalations before + 1
         /\ last_escalation after
            = Some (isoformat (ticket_created_at ticket))
         /\ record_customer_id after = record_customer_id before
    else after = before.
Proof.
  intros crm_store ticket customer. cbn zeta.
  rewrite log_to_crm_unfold. cbn zeta.
  destruct (String.eqb_spec customer (customer_id ticket)) as [->|Hne].
  - rewrite history_set_eq.
    cbn [tickets total_escalations last_escalation record_customer_id].
    repeat split; reflexivity.
  - rewrite history_set_ne by congruence.
    destruct (dict_mem (customer_id ticket) crm_store); [reflexivity|].
    apply history_set_ne. congruence.
Qed.

(** *** Updating a status *)

Lemma NoDup_app_inv {A} (l1 l2 : list A) :
  List.NoDup (l1 ++ l2) ->
  List.NoDup l1 /\ List.NoDup l2 /\ forall a, In a l1 -> ~ In a l2.
Proof.
  induction l1 as [|x l1 IH]; cbn; intros Hnd.
  - split; [constructor|]. split; [exact Hnd|]. intros a [].
  - inversion Hnd as [|? ? Hx Hrest]; subst.
    destruct (IH Hrest) as (H1 & H2 & H3).
    split.
    { constructor; [|exact H1]. intros Hin. apply Hx.
      apply in_or_app. left. exact Hin. }
    split; [exact H2|].
    intros a [<-|Ha] Hin2; [|exact (H3 a Ha Hin2)].
    apply Hx. apply in_or_app. right. exact Hin2.
Qed.

(** The identifiers of all the tickets of a store. *)
Definition ticket_ids (crm_store : dict CustomerRecord) : list string :=
  flat_map (fun kr => map row_ticket_id (tickets (snd kr))) crm_store.

(** What [update_ticket_status] does to a ticket. *)
Definition updated (ticket_id status : string) (row : TicketRow) : TicketRow :=
  if String.eqb (row_ticket_id row) ticket_id
  then with_status row status else row.

Lemma updated_other ticket_id status rows :
  ~ In ticket_id (map row_ticket_id rows) ->
  map (updated ticket_id status) rows = rows.
Proof.
  induction rows as [|row rows IH]; cbn; [reflexivity|].
  intros H. unfold updated at 1.
  destruct (String.eqb_spec (row_ticket_id row) ticket_id) as [E|E].
  - exfalso. apply H. left. exact E.
  - rewrite IH; [reflexivity|]. intros Hin. apply H. right. exact Hin.
Qed.

Lemma update_tickets_None rows ticket_id status :
  update_tickets rows ticket_id status = None
  <-> ~ In ticket_id (map row_ticket_id rows).
Proof.
  induction rows as [|row rows IH]; cbn; [tauto|].
  destruct (String.eqb_spec (row_ticket_id row) ticket_id) as [E|E].
  - split; [discriminate|]. intros H. exfalso. apply H. left. exact E.
  - destruct (update_tickets rows ticket_id status) as [rest'|].
    + split; [discriminate|]. intros H. exfalso.
      apply (proj1 (not_iff_compat IH)); [discriminate|].
      intros Hin. apply H. right. exact Hin.
    + split; [|reflexivity]. intros _ [H|H]; [contradiction|].
      exact (proj1 IH eq_refl H).
Qed.

Lemma update_tickets_Some rows ticket_id status rows' :
  List.NoDup (map row_ticket_id rows) ->
  update_tickets rows ticket_id status = Some rows' ->
  rows' = map (updated ticket_id status) rows
  /\ In ticket_id (map row_ticket_id rows).
Proof.
  revert rows'. induction rows as [|row rows IH]; intros rows' Hnd; cbn;
    [discriminate|].
  inversion Hnd as [|? ? Hhead Htail]; subst.
  unfold updated at 1.
  destruct (String.eqb_spec (row_ticket_id row) ticket_id) as [E|E].
  - intros [= <-]. split; [|left; exact E].
    rewrite updated_other; [reflexivity|]. rewrite <- E. exact Hhead.
  - destruct (update_tickets rows ticket_id status) as [rest'|] eqn:Hrest;
      [|discriminate].
    intros [= <-]. destruct (IH rest' Htail eq_refl) as [-> Hin].
    split; [reflexivity | right; exact Hin].
Qed.

Lemma ticket_ids_history crm_store customer ticket_id :
  In ticket_id
     (map row_ticket_id
        (tickets (get_customer_escalation_history crm_store customer))) ->
  In ticket_id (ticket_ids crm_store).
Proof.
  unfold get_customer_escalation_history.
  destruct (dict_get customer crm_store) as [r|] eqn:E; [|intros []].
  intros Hin. unfold ticket_ids. apply in_flat_map.
  exists (customer, r). split; [apply dict_get_In; exact E | exact Hin].
Qed.

(** X20.  [update_ticket_status], on a store whose tickets have
    distinct identifiers: it answers [True] exactly when a ticket of that
    identifier is logged; the ticket then has the new status, and nothing
    else is changed, neither another ticket nor a count or a date; when it
    answers [False] the store is what it was. *)
Theorem update_ticket_status_contract :
  forall (crm_store : dict CustomerRecord) (ticket_id status : string),
    List.NoDup (ticket_ids crm_store) ->
    let crm_store' := fst (update_ticket_status crm_store ticket_id status) in
    let found := snd (update_ticket_status crm_store ticket_id status) in
    (found = true <-> In ticket_id (ticket_ids crm_store))
    /\ (found = false -> crm_store' = crm_store)
    /\ keys crm_store' = keys crm_store
    /\ forall customer,
         let before := get_customer_escalation_history crm_store customer in
         let after := get_customer_escalation_history crm_store' customer in
         tickets after = map (updated ticket_id status) (tickets before)
         /\ record_customer_id after = record_customer_id before
         /\ total_escalations after = total_escalations before
         /\ last_escalation after = last_escalation before.
Proof.
  intros crm_store ticket_id status. cbn zeta.
  induction crm_store as [|[key r] rest IH]; intros Hnd.
  - cbn. repeat split; try discriminate; try tauto.
  - cbn [ticket_ids flat_map snd] in Hnd.
    apply NoDup_app_inv in Hnd as (Hnd_r & Hnd_rest & Hdisj).
    fold (ticket_ids rest) in Hnd_rest, Hdisj.
    specialize (IH Hnd_rest).
    destruct IH as (IHfound & IHsame & IHkeys & IHhist).
    cbn [update_ticket_status].
    destruct (update_tickets (tickets r) ticket_id status) as [rows'|] eqn:E.
    + destruct (update_tickets_Some _ _ _ _ Hnd_r E) as [-> Hin].
      cbn [fst snd].
      split.
      { split; [intros _ | reflexivity].
        cbn [ticket_ids flat_map snd]. apply in_or_app. left. exact Hin. }
      split; [discriminate|]. split; [reflexivity|].
      intros customer. unfold get_customer_escalation_history.
      cbn [dict_get].
      destruct (String.eqb customer key); [cbn; auto|].
      fold (get_customer_escalation_history rest customer).
      rewrite updated_other; [auto|].
      intros Hcust. apply ticket_ids_history in Hcust.
      exact (Hdisj ticket_id Hin Hcust).
    + apply update_tickets_None in E.
      destruct (update_ticket_status rest ticket_id status)
        as [rest' found] eqn:Hrest.
      cbn [fst snd] in *.
      split.
      { rewrite IHfound. cbn [ticket_ids flat_map snd].
        fold (ticket_ids rest). rewrite in_app_iff. tauto. }
      split; [intros Hf; rewrite (IHsame Hf); reflexivity|].
      split; [unfold keys in *; cbn [map fst]; rewrite IHkeys; reflexivity|].
      intros customer. unfold get_customer_escalation_history.
      cbn [dict_get].
      destruct (String.eqb customer key).
      * rewrite updated_other by exact E. auto.
      * exact (IHhist customer).
Qed.

(** *** Key issues *)

Lemma existsb_eqb_In x l : existsb (String.eqb x) l = true <-> In x l.
Proof.
  rewrite existsb_exists. split.
  - intros (y & Hin & E). apply String.eqb_eq in E. subst. exact Hin.
  - intros Hin. exists x. split; [exact Hin | apply String.eqb_refl].
Qed.

Definition mentions (content_lower : string) (keywords : list string) : bool :=
  existsb (fun keyword => contains keyword content_lower) keywords.

Lemma scan_categories_spec content_lower categories : forall detected,
  List.NoDup detected ->
  List.NoDup (scan_categories content_lower categories detected)
  /\ forall category,
       In category (scan_categories content_lower categories detected)
       <-> In category detected
           \/ exists keywords,
                In (category, keywords) categories
                /\ mentions content_lower keywords = true.
Proof.
  induction categories as [|[cat kws] rest IH]; intros detected Hnd;
    cbn [scan_categories].
  - split; [exact Hnd|]. intros category. split; [auto|].
    intros [H|(kws & [] & _)]. exact H.
  - fold (mentions content_lower kws).
    destruct (mentions content_lower kws) eqn:Hm.
    + destruct (existsb (String.eqb cat) detected) eqn:Hseen; cbn [negb].
      * destruct (IH detected Hnd) as [IH1 IH2]. split; [exact IH1|].
        intros category. rewrite IH2. split.
        -- intros [H|(k & Hin & Hk)]; [left; exact H|].
           right. exists k. split; [right; exact Hin | exact Hk].
        -- intros [H|(k & [[= <- <-]|Hin] & Hk)]; [left; exact H| |].
           ++ left. apply existsb_eqb_In. exact Hseen.
           ++ right. exists k. auto.
      * assert (Hnew : ~ In cat detected).
        { intros H. apply existsb_eqb_In in H. congruence. }
        assert (Hnd' : List.NoDup (detected ++ [cat])).
        { apply List.NoDup_app; [exact Hnd | repeat constructor; intros [] |].
          intros x Hx [<-|[]]. exact (Hnew Hx). }
        destruct (IH _ Hnd') as [IH1 IH2]. split; [exact IH1|].
        intros category. rewrite IH2, in_app_iff. cbn [In]. split.
        -- intros [[H|[<-|[]]]|(k & Hin & Hk)].
           ++ left. exact H.
           ++ right. exists kws. split; [left; reflexivity | exact Hm].
           ++ right. exists k. split; [right; exact Hin | exact Hk].
        -- intros [H|(k & [[= <- <-]|Hin] & Hk)].
           ++ left. left. exact H.
           ++ left. right. left. reflexivity.
           ++ right. exists k. auto.
    + destruct (IH detected Hnd) as [IH1 IH2]. split; [exact IH1|].
      intros category. rewrite IH2. split.
      * intros [H|(k & Hin & Hk)]; [left; exact H|].
        right. exists k. split; [right; exact Hin | exact Hk].
      * intros [H|(k & [[= <- <-]|Hin] & Hk)]; [left; exact H| |].
        -- congruence.
        -- right. exists k. auto.
Qed.

Lemma scan_messages_spec messages : forall detected,
  List.NoDup detected ->
  List.NoDup (scan_messages messages detected)
  /\ forall category,
       In category (scan_messages messages detected)
       <-> In category detected
           \/ exists message keywords,
                In message messages
                /\ In (category, keywords) issue_keywords
                /\ mentions (lower (content message)) keywords = true.
Proof.
  induction messages as [|message rest IH]; intros detected Hnd;
    cbn [scan_messages].
  - split; [exact Hnd|]. intros category. split; [auto|].
    intros [H|(m & k & [] & _)]. exact H.
  - destruct (scan_categories_spec (lower (content message)) issue_keywords
                detected Hnd) as [Hnd1 Hcat].
    destruct (IH _ Hnd1) as [IH1 IH2]. split; [exact IH1|].
    intros category. rewrite IH2, Hcat. split.
    + intros [[H|(k & Hin & Hk)]|(m & k & Hm & Hin & Hk)].
      * left. exact H.
      * right. exists message, k. split; [left; reflexivity | auto].
      * right. exists m, k. split; [right; exact Hm | auto].
    + intros [H|(m & k & [<-|Hm] & Hin & Hk)].
      * left. left. exact H.
      * left. right. exists k. auto.
      * right. exists m, k. auto.
Qed.

Lemma join_starts_with category rest :
  In category (keys issue_keywords) ->
  join ", " (category :: rest) <> "general inquiry".
Proof.
  intros Hin.
  assert (Hshape : exists tail,
            join ", " (category :: rest) = category +:+ tail).
  { destruct rest as [|next rest].
    - exists EmptyString. cbn [join]. clear Hin.
      induction category as [|ch category IH]; [reflexivity|].
      change (String ch category = String ch (category +:+ EmptyString)).
      rewrite <- IH. reflexivity.
    - eexists. reflexivity. }
  destruct Hshape as [tail ->].
  cbn in Hin.
  destruct Hin as [<-|[<-|[<-|[<-|[<-|[]]]]]]; discriminate.
Qed.

(** X21.  The key issues of an escalation summary: a category is
    named exactly when some message contains, in any case of letters, one
    of the category's keywords; no category is named twice; and the text
    is "general inquiry" exactly when no keyword occurs in any message,
    the categories joined by commas otherwise. *)
Theorem key_issues_are_the_mentioned_categories :
  forall user_messages : list ConversationMessage,
    let detected_issues := scan_messages user_messages [] in
    List.NoDup detected_issues
    /\ (forall category,
          In category detected_issues
          <-> exists message keywords,
                In message user_messages
                /\ In (category, keywords) issue_keywords
                /\ existsb (fun keyword =>
                              contains keyword (lower (content message)))
                           keywords = true)
    /\ (_extract_key_issues user_messages = "general inquiry"
        <-> detected_issues = [])
    /\ (detected_issues <> [] ->
        _extract_key_issues user_messages = join ", " detected_issues).
Proof.
  intros user_messages detected_issues.
  destruct (scan_messages_spec user_messages [] (List.NoDup_nil _))
    as [Hnd Hin].
  fold detected_issues in Hnd, Hin.
  split; [exact Hnd|]. split.
  { intros category. rewrite Hin. cbn [In]. unfold mentions. tauto. }
  unfold _extract_key_issues. fold detected_issues.
  destruct detected_issues as [|first rest] eqn:E.
  - split; [tauto|]. intros H. contradiction.
  - split; [|reflexivity]. split; [|discriminate].
    intros Hjoin. exfalso. revert Hjoin. apply join_starts_with.
    destruct (proj1 (Hin first) (or_introl eq_refl))
      as [[]|(m & k & _ & Hk & _)].
    exact (in_map fst _ _ Hk).
Qed.

End TicketFacts.

Section TicketExamples.
Import Py Cache Escalation Tickets.

(** Stand-ins for [isoformat] and [generate_escalation_summary]. *)
Definition stamp (t : Z) : string :=
  if t =? 0 then "1970-01-01T00:00:00" else "1970-01-01T00:00:05".

Definition brief (history : list ConversationMessage)
    (reasons : list string) : string :=
  join ", " reasons.

Definition first_ticket : EscalationTicket :=
  {| ticket_id := "id-1"; customer_id := "customer-1";
     ticket_created_at := 5; reason := "complexity";
     summary := "complexity"; conversation_history := [];
     priority := "high"; status := "open";
     escalation_score := 85 # 100 |}.

Lemma escalated_query_ticket_witness :
  exists ticket,
    create_escalation_ticket stamp brief [] "customer-1" []
      (snd (should_escalate (85 # 100) 0)) (py_max (85 # 100) (Qabs 0))
      "id-1" 5
    = (_log_to_crm stamp [] ticket, Some ticket)
    /\ (priority ticket = "critical" \/ priority ticket = "high").
Proof.
  destruct (escalated_query_ticket stamp brief [] "customer-1" []
              (85 # 100) 0 "id-1" 5 eq_refl)
    as (ticket & Hcreate & _ & _ & _ & _ & Hpriority & _).
  exists ticket. split; [exact Hcreate | exact Hpriority].
Defined.

Lemma escalation_history_is_consistent_witness :
  let h :=
    get_customer_escalation_history
      (fst (update_ticket_status (_log_to_crm stamp [] first_ticket)
              "id-1" "resolved"))
      "customer-1" in
  record_customer_id h = "customer-1"
  /\ total_escalations h = Z.of_nat (length (tickets h))
  /\ last_escalation h = last_created_at (tickets h).
Proof.
  apply (escalation_history_is_consistent stamp).
  apply reachable_update, reachable_log, reachable_init.
Defined.

Lemma update_ticket_status_contract_witness :
  snd (update_ticket_status (_log_to_crm stamp [] first_ticket)
         "id-1" "resolved") = true
  <-> In "id-1" (ticket_ids (_log_to_crm stamp [] first_ticket)).
Proof.
  apply (update_ticket_status_contract (_log_to_crm stamp [] first_ticket)
           "id-1" "resolved").
  vm_compute. repeat constructor. intros [].
Defined.

End TicketExamples.

(** ** app/routes/query.py, continued: the effort of a dispatch *)

Section DispatchEffort.
Import Py Query.
Variable network : nat -> string -> string -> post_outcome.

(** The seconds slept. *)
Definition total (seconds : list Z) : Z := fold_right Z.add 0 seconds.

Lemma total_app a b : total (a ++ b) = total a + total b.
Proof. unfold total. induction a as [|x a IH]; cbn; [reflexivity|]. lia. Qed.

(** From [w] to [w'] at most [p] requests were posted and at most [s]
    seconds slept, fewer sleeps than [p], and nothing else was done to
    the requests and sleeps on record. *)
Definition effort (w w' : World) (p : nat) (s : Z) : Prop :=
  exists more_posts more_sleeps,
    posts w' = (posts w ++ more_posts)%list
    /\ sleeps w' = (sleeps w ++ more_sleeps)%list
    /\ (length more_posts <= p)%nat
    /\ (length more_sleeps <= length more_posts)%nat
    /\ 0 <= total more_sleeps <= s.

Lemma effort_refl w : effort w w 0 0.
Proof.
  exists [], []. rewrite !app_nil_r. cbn. repeat split; lia.
Qed.

Lemma effort_trans w1 w2 w3 p1 s1 p2 s2 :
  effort w1 w2 p1 s1 -> effort w2 w3 p2 s2 ->
  effort w1 w3 (p1 + p2) (s1 + s2).
Proof.
  intros (mp1 & ms1 & Hp1 & Hs1 & Hl1 & Hc1 & Ht1)
         (mp2 & ms2 & Hp2 & Hs2 & Hl2 & Hc2 & Ht2).
  exists (mp1 ++ mp2)%list, (ms1 ++ ms2)%list.
  rewrite Hp2, Hp1, Hs2, Hs1, !app_assoc, !length_app, total_app.
  repeat split; lia.
Qed.

Lemma effort_weaken w w' p s p' s' :
  effort w w' p s -> (p <= p')%nat -> s <= s' -> effort w w' p' s'.
Proof.
  intros (mp & ms & Hp & Hs & Hl & Hc & Ht) Hpp Hss.
  exists mp, ms. repeat split; try assumption; lia.
Qed.

Lemma effort_record_error a b c w :
  effort w (snd (record_error a b c w)) 0 0.
Proof. exact (effort_refl w). Qed.

Lemma effort_post url model w :
  effort w (snd (post network url model w)) 1 0.
Proof.
  exists [(url, model)], []. cbn. rewrite app_nil_r. repeat split; lia.
Qed.

(** The seconds that [n] passes may sleep, from pass [attempt] on, when
    pass [a] sleeps [W a] at most. *)
Fixpoint budget (W : Z -> Z) (attempt : Z) (n : nat) : Z :=
  match n with
  | O => 0
  | S n' => W attempt + budget W (attempt + 1) n'
  end.

Lemma budget_nonneg W : (forall a, 0 <= W a) ->
  forall n attempt, 0 <= budget W attempt n.
Proof.
  intros HW. induction n as [|n IH]; intros attempt; cbn; [lia|].
  specialize (IH (attempt + 1)). specialize (HW attempt). lia.
Qed.

Lemma attempts_effort body url failure max_retries model (W : Z -> Z) :
  (forall a, 0 <= W a) ->
  (forall a o wait, body a max_retries o = Continue wait -> 0 <= wait <= W a) ->
  forall n attempt w,
    effort w
      (snd (attempts network body url failure n attempt max_retries model w))
      n (budget W attempt n).
Proof.
  intros HW Hbody. induction n as [|n IH]; intros attempt w.
  - exact (effort_refl w).
  - rewrite attempts_S. cbn [budget].
    pose proof (budget_nonneg W HW n (attempt + 1)) as Hb.
    pose proof (HW attempt) as Ha.
    destruct (body attempt max_retries (network (length (posts w)) url model))
      as [r|wait| |e] eqn:E; cbn [snd].
    + eapply effort_weaken; [exact (effort_post url model w) | lia | lia].
    + specialize (Hbody _ _ _ E).
      specialize (IH (attempt + 1)
                    (snd (sleep wait (snd (post network url model w))))).
      destruct IH as (mp & ms & Hp & Hs & Hl & Hc & Ht).
      exists ((url, model) :: mp), (wait :: ms).
      rewrite Hp, Hs. cbn. rewrite <- !app_assoc. cbn.
      fold (total ms). repeat split; lia.
    + eapply effort_weaken; [exact (effort_post url model w) | lia | lia].
    + eapply effort_weaken; [exact (effort_post url model w) | lia | lia].
Qed.

(** The longest sleep after pass [a] of the two loops, with their
    default numbers of retries. *)
Definition kong_wait (a : Z) : Z := if a <? 2 then 2 ^ a else 0.

Definition groq_wait (a : Z) : Z :=
  if a <? 3 then Z.max (2 ^ a) (Z.min 60 (2 ^ a * 5)) else 0.

Lemma kong_wait_nonneg a : 0 <= kong_wait a.
Proof.
  unfold kong_wait. destruct (a <? 2); [|lia].
  destruct (Z_lt_le_dec a 0); [rewrite Z.pow_neg_r by lia; lia|].
  apply Z.pow_nonneg. lia.
Qed.

Lemma groq_wait_nonneg a : 0 <= groq_wait a.
Proof.
  unfold groq_wait. destruct (a <? 3); [|lia].
  assert (0 <= 2 ^ a).
  { destruct (Z_lt_le_dec a 0); [rewrite Z.pow_neg_r by lia; lia|].
    apply Z.pow_nonneg. lia. }
  lia.
Qed.

Lemma kong_pass_wait a o wait :
  kong_pass a 2 o = Continue wait -> 0 <= wait <= kong_wait a.
Proof.
  unfold kong_pass, retry_or_break, kong_wait.
  assert (H2 : 0 <= 2 ^ a).
  { destruct (Z_lt_le_dec a 0); [rewrite Z.pow_neg_r by lia; lia|].
    apply Z.pow_nonneg. lia. }
  destruct o as [code [[content tokens]|] hit| | |];
    repeat match goal with
           | |- context [if ?b then _ else _] => destruct b
           end;
    intros [= <-] || discriminate; lia.
Qed.

Lemma groq_pass_wait a o wait :
  groq_pass a 3 o = Continue wait -> 0 <= wait <= groq_wait a.
Proof.
  unfold groq_pass, retry_or_break, groq_wait.
  assert (H2 : 0 <= 2 ^ a).
  { destruct (Z_lt_le_dec a 0); [rewrite Z.pow_neg_r by lia; lia|].
    apply Z.pow_nonneg. lia. }
  destruct o as [code [[content tokens]|] hit| | |];
    repeat match goal with
           | |- context [if ?b then _ else _] => destruct b
           end;
    intros [= <-] || discriminate; lia.
Qed.

Lemma kong_effort q model w :
  effort w (snd (_call_llm_via_kong network q model 2 w)) 3 3.
Proof.
  exact (attempts_effort kong_pass kong_url "kong_gateway_failure" 2 model
           kong_wait kong_wait_nonneg kong_pass_wait 3 0 w).
Qed.

Lemma groq_effort q model w :
  effort w (snd (_call_groq_direct network q model 3 w)) 4 35.
Proof.
  exact (attempts_effort groq_pass groq_url "groq_api_failure" 3 model
           groq_wait groq_wait_nonneg groq_pass_wait 4 0 w).
Qed.

Lemma attempt_step_effort q method model w :
  effort w (snd (attempt_step network q method model w))
    (if String.eqb method "kong" then 3 else 4)
    (if String.eqb method "kong" then 3 else 35).
Proof.
  unfold attempt_step.
  destruct (String.eqb method "kong").
  - pose proof (kong_effort q model w) as H. unfold bind.
    destruct (_call_llm_via_kong network q model 2 w) as [[[[r t] c]|e] w1];
      exact H.
  - destruct (String.eqb method "direct").
    + pose proof (groq_effort q model w) as H. unfold bind at 1.
      destruct (_call_groq_direct network q model 3 w) as [[[[r t] c]|e] w1];
        exact H.
    + cbn. eapply effort_weaken; [apply effort_refl | lia | lia].
Qed.

Lemma try_chain_step_effort q method model rest w p s :
  (forall w1, effort w1 (snd (try_chain network q rest w1)) p s) ->
  effort w (snd (try_chain network q ((method, model) :: rest) w))
    ((if String.eqb method "kong" then 3 else 4) + p)
    ((if String.eqb method "kong" then 3 else 35) + s).
Proof.
  intros Hrest. rewrite try_chain_cons.
  pose proof (attempt_step_effort q method model w) as Hstep.
  destruct (attempt_step network q method model w) as [[[a|]|e] w1];
    cbn [snd] in *.
  - destruct (Hrest w) as (mp & ms & _ & _ & _ & _ & Hs0 & Hs).
    eapply effort_weaken; [exact Hstep | lia | lia].
  - eapply effort_trans; [exact Hstep | apply Hrest].
  - eapply effort_trans; [|apply Hrest]. exact Hstep.
Qed.

(** X22.  A dispatch is bounded: whatever the network does, it posts
    at least one request and at most fifteen (three to the gateway, four
    for each direct step) and sleeps no more than 108 seconds in all (3
    for the gateway, 35 for each direct step), never more often than it
    posts; the requests and sleeps already on record are kept. *)
Theorem dispatch_effort_is_bounded :
  forall (query preferred_model : string) (w : World),
    let w' :=
      snd (_process_llm_request_with_fallbacks network query preferred_model
             w) in
    exists more_posts more_sleeps,
      posts w' = (posts w ++ more_posts)%list
      /\ sleeps w' = (sleeps w ++ more_sleeps)%list
      /\ (1 <= length more_posts <= 15)%nat
      /\ (length more_sleeps <= length more_posts)%nat
      /\ 0 <= total more_sleeps <= 108.
Proof.
  intros query preferred_model w.
  assert (Hend : forall w1,
            effort w1 (snd (try_chain network query [] w1)) 0 0).
  { intros w1. exact (effort_refl w1). }
  pose proof (fun w1 =>
    try_chain_step_effort query "direct" "llama-3.1-8b-instant" [] w1 0 0
      Hend) as H3.
  pose proof (fun w1 =>
    try_chain_step_effort query "direct" "llama-3.3-70b-versatile" _ w1 _ _
      H3) as H2.
  pose proof (fun w1 =>
    try_chain_step_effort query "direct" preferred_model _ w1 _ _ H2) as H1.
  pose proof (try_chain_step_effort query "kong" preferred_model _ w _ _ H1)
    as H0.
  cbn [String.eqb Ascii.eqb Bool.eqb] in H0.
  fold (fallback_chain preferred_model) in H0.
  fold (_process_llm_request_with_fallbacks network query preferred_model w)
    in H0.
  destruct H0 as (mp & ms & Hp & Hs & Hl & Hc & Ht).
  destruct (dispatch_first_post network query preferred_model w)
    as (rest & Hfirst).
  cbn zeta. exists mp, ms.
  assert (Hone : (1 <= length mp)%nat).
  { rewrite Hp in Hfirst. apply app_inv_head in Hfirst. subst mp. cbn. lia. }
  repeat split; try assumption; try lia.
Qed.

(** *** Where an answer comes from *)

Lemma kong_pass_return a max_retries o r :
  kong_pass a max_retries o = Return r ->
  exists content tokens hit,
    o = Replied 200 (Some (content, tokens)) hit
    /\ r = (content, tokens, hit).
Proof.
  unfold kong_pass, retry_or_break.
  destruct o as [code [[content tokens]|] hit| | |];
    try (destruct (a <? max_retries); discriminate).
  - destruct (code =? 200) eqn:E.
    + apply Z.eqb_eq in E. subst code. intros [= <-]. eauto.
    + repeat match goal with
             | |- context [if ?b then _ else _] => destruct b
             end; discriminate.
  - repeat match goal with
           | |- context [if ?b then _ else _] => destruct b
           end; discriminate.
Qed.

Lemma groq_pass_return a max_retries o r :
  groq_pass a max_retries o = Return r ->
  exists content tokens hit,
    o = Replied 200 (Some (content, tokens)) hit
    /\ r = (content, tokens, false).
Proof.
  unfold groq_pass, retry_or_break.
  destruct o as [code [[content tokens]|] hit| | |];
    try (destruct (a <? max_retries); discriminate).
  - destruct (code =? 200) eqn:E.
    + apply Z.eqb_eq in E. subst code. intros [= <-]. eauto.
    + repeat match goal with
             | |- context [if ?b then _ else _] => destruct b
             end; discriminate.
  - repeat match goal with
           | |- context [if ?b then _ else _] => destruct b
           end; discriminate.
Qed.

(** A value returned by a retry loop is returned by one of its passes,
    on the outcome of a request posted during the call. *)
Lemma attempts_return body url failure max_retries model : forall n attempt w r w',
  attempts network body url failure n attempt max_retries model w = (inl r, w') ->
  exists i a,
    (length (posts w) <= i < length (posts w'))%nat
    /\ body a max_retries (network i url model) = Return r.
Proof.
  induction n as [|n IH]; intros attempt w r w'.
  - cbn. discriminate.
  - rewrite attempts_S.
    destruct (body attempt max_retries (network (length (posts w)) url model))
      as [r0|wait| |e] eqn:E.
    + intros [= <- <-]. exists (length (posts w)), attempt.
      split; [|exact E]. cbn. rewrite length_app. cbn. lia.
    + intros H. destruct (IH _ _ _ _ H) as (i & a & Hi & Ha).
      exists i, a. split; [|exact Ha].
      cbn in Hi. rewrite length_app in Hi. cbn in Hi. lia.
    + discriminate.
    + discriminate.
Qed.

(** An answer that is not the canned one. *)
Definition served_by (url : string) (first last : nat) (a : answer) : Prop :=
  let '(response, tokens, cached, model) := a in
  exists i hit,
    (first <= i < last)%nat
    /\ network i url model = Replied 200 (Some (response, tokens)) hit
    /\ cached = (if String.eqb url kong_url then hit else false).

Lemma attempt_step_answer q method model w a w' :
  attempt_step network q method model w = (inl (Some a), w') ->
  (method = "kong" /\ served_by kong_url (length (posts w)) (length (posts w')) a
   \/ method = "direct"
      /\ served_by groq_url (length (posts w)) (length (posts w')) a)
  /\ snd a = model.
Proof.
  unfold attempt_step.
  destruct (String.eqb_spec method "kong") as [->|Hk].
  - unfold bind, _call_llm_via_kong.
    destruct (attempts network kong_pass kong_url "kong_gateway_failure"
                (Z.to_nat (2 + 1)) 0 2 model w) as [[[[r t] c]|e] w1] eqn:E;
      [|discriminate].
    intros [= <- <-].
    destruct (attempts_return _ _ _ _ _ _ _ _ _ _ E) as (i & at_ & Hi & Hpass).
    apply kong_pass_return in Hpass as (content & tokens & hit & Ho & [= -> -> ->]).
    split; [|reflexivity]. left. split; [reflexivity|].
    cbn. exists i, hit. auto.
  - destruct (String.eqb_spec method "direct") as [->|Hd]; [|discriminate].
    unfold bind at 1, _call_groq_direct.
    destruct (attempts network groq_pass groq_url "groq_api_failure"
                (Z.to_nat (3 + 1)) 0 3 model w) as [[[[r t] c]|e] w1] eqn:E;
      [|discriminate].
    intros [= <- <-].
    destruct (attempts_return _ _ _ _ _ _ _ _ _ _ E) as (i & at_ & Hi & Hpass).
    apply groq_pass_return in Hpass as (content & tokens & hit & Ho & [= -> -> ->]).
    split; [|reflexivity]. right. split; [reflexivity|].
    cbn. exists i, hit. auto.
Qed.

Lemma attempt_step_posts_le q method model w :
  (length (posts w)
   <= length (posts (snd (attempt_step network q method model w))))%nat.
Proof.
  destruct (attempt_step_effort q method model w)
    as (mp & ms & Hp & _). rewrite Hp, length_app. lia.
Qed.

Lemma try_chain_answer q chain : forall w,
  Forall (fun step => fst step = "kong" \/ fst step = "direct") chain ->
  let run := try_chain network q chain w in
  exists a, fst run = inl a
    /\ (a = (_generate_fallback_response q, Some 0, false, "fallback")
        \/ exists method model,
             In (method, model) chain /\ snd a = model
             /\ served_by (if String.eqb method "kong" then kong_url
                           else groq_url)
                  (length (posts w)) (length (posts (snd run))) a).
Proof.
  induction chain as [|[method model] rest IH]; intros w Hchain.
  - cbn. eexists. split; [reflexivity|]. left. reflexivity.
  - inversion Hchain as [|? ? Hm Hrest]; subst. cbn [fst] in Hm.
    cbn zeta. rewrite try_chain_cons.
    pose proof (attempt_step_posts_le q method model w) as Hle.
    destruct (attempt_step network q method model w) as [[[a|]|e] w1] eqn:E;
      cbn [snd] in Hle.
    + exists a. split; [reflexivity|]. right. exists method, model.
      destruct (attempt_step_answer _ _ _ _ _ _ E) as [[[-> H]|[-> H]] Hmodel];
        (split; [left; reflexivity|]); (split; [exact Hmodel|]); exact H.
    + exfalso. unfold attempt_step in E.
      destruct Hm as [-> | ->]; cbn [String.eqb Ascii.eqb Bool.eqb] in E;
        unfold bind in E.
      * destruct (_call_llm_via_kong network q model 2 w) as [[[[r t] c]|e] w2];
          discriminate.
      * destruct (_call_groq_direct network q model 3 w) as [[[[r t] c]|e] w2];
          discriminate.
    + specialize (IH (snd (record_error (method +:+ "_failure") "/api/query"
                             model w1)) Hrest).
      cbn zeta in IH. destruct IH as (a & Ha & Hcases).
      exists a. split; [exact Ha|].
      destruct Hcases as [->|(method' & model' & Hin & Hmodel & Hserved)];
        [left; reflexivity|].
      right. exists method', model'. split; [right; exact Hin|].
      split; [exact Hmodel|].
      destruct a as [[[response tokens] cached] model0]. cbn in *.
      destruct Hserved as (i & hit & Hi & Hrest').
      exists i, hit. split; [lia | exact Hrest'].
Qed.

(** X23.  A dispatch never invents an answer.  It always returns, and
    what it returns is either the canned response, with 0 tokens, not
    cached, under the model name "fallback", or the content and token
    count of a reply with status 200 that the network gave, during this
    dispatch, to a request for the very model reported: a reply of the
    gateway for the preferred model, flagged as cached exactly when the
    gateway's header says HIT, or a reply of the direct API for the
    preferred model or one of the two fallback models, never flagged as
    cached. *)
Theorem dispatch_answer_provenance :
  forall (query preferred_model : string) (w : World),
    let run :=
      _process_llm_request_with_fallbacks network query preferred_model w in
    exists response tokens cached model,
      fst run = inl (response, tokens, cached, model)
      /\ ((response = _generate_fallback_response query
           /\ tokens = Some 0 /\ cached = false /\ model = "fallback")
          \/ (exists i hit,
                (length (posts w) <= i < length (posts (snd run)))%nat
                /\ network i kong_url model
                   = Replied 200 (Some (response, tokens)) hit
                /\ cached = hit /\ model = preferred_model)
          \/ (exists i hit,
                (length (posts w) <= i < length (posts (snd run)))%nat
                /\ network i groq_url model
                   = Replied 200 (Some (response, tokens)) hit
                /\ cached = false
                /\ In model [preferred_model; "llama-3.3-70b-versatile";
                             "llama-3.1-8b-instant"])).
Proof.
  intros query preferred_model w. cbn zeta.
  unfold _process_llm_request_with_fallbacks.
  destruct (try_chain_answer query (fallback_chain preferred_model) w)
    as (a & Ha & Hcases).
  { unfold fallback_chain.
    repeat (apply List.Forall_cons; [cbn; auto|]). apply List.Forall_nil. }
  destruct a as [[[response tokens] cached] model].
  exists response, tokens, cached, model. split; [exact Ha|].
  destruct Hcases as [[= -> -> -> ->]|(method & model' & Hin & Hmodel & Hserved)].
  - left. auto.
  - right. cbn in Hmodel. subst model'.
    destruct Hserved as (i & hit & Hi & Hnet & Hcached).
    cbn in Hin.
    assert (Hgroq : String.eqb groq_url kong_url = false)
      by (vm_compute; reflexivity).
    destruct Hin as [[= <- <-]|[[= <- <-]|[[= <- <-]|[[= <- <-]|[]]]]];
      cbn [String.eqb Ascii.eqb Bool.eqb] in Hnet, Hcached;
      rewrite ?String.eqb_refl, ?Hgroq in Hcached.
    + left. exists i, hit. repeat (split; [assumption|]). reflexivity.
    + right. exists i, hit. repeat (split; [assumption|]). cbn [In]. auto.
    + right. exists i, hit. repeat (split; [assumption|]). cbn [In]. auto.
    + right. exists i, hit. repeat (split; [assumption|]). cbn [In]. auto.
Qed.

(** *** Retrying *)

Lemma kong_pass_failing a max_retries o :
  match o with Replied 200 (Some _) _ => False | _ => True end ->
  kong_pass a max_retries o
  = if a <? max_retries then Continue (2 ^ a) else Break.
Proof.
  unfold kong_pass, retry_or_break.
  destruct o as [code [[content tokens]|] hit| | |]; try reflexivity.
  - destruct (code =? 200) eqn:E.
    + apply Z.eqb_eq in E. subst code. contradiction.
    + intros _. destruct (a <? max_retries), (code =? 429), (code >=? 500);
        reflexivity.
  - intros _. destruct (a <? max_retries), (code =? 200), (code =? 429),
      (code >=? 500); reflexivity.
Qed.

Lemma gateway_schedule model max_retries :
  forall n attempt w,
    attempt + Z.of_nat n = max_retries ->
    (forall i, (length (posts w) <= i)%nat ->
       match network i kong_url model with
       | Replied 200 (Some _) _ => False
       | _ => True
       end) ->
    attempts network kong_pass kong_url "kong_gateway_failure" (S n) attempt
      max_retries model w
    = (inr Exception,
       {| posts := (posts w ++ repeat (kong_url, model) (S n))%list;
          sleeps :=
            (sleeps w
             ++ map (fun k => 2 ^ (attempt + Z.of_nat k)) (seq 0 n))%list;
          error_rates :=
            (error_rates w
             ++ [("kong_gateway_failure", "/api/query", model)])%list;
          handler := handler w |}).
Proof.
  induction n as [|n IH]; intros attempt w Hn Hnet.
  - rewrite attempts_S, kong_pass_failing by (apply Hnet; lia).
    assert (E : (attempt <? max_retries) = false) by (apply Z.ltb_ge; lia).
    rewrite E. cbn. rewrite app_nil_r. reflexivity.
  - rewrite attempts_S, kong_pass_failing by (apply Hnet; lia).
    assert (E : (attempt <? max_retries) = true) by (apply Z.ltb_lt; lia).
    rewrite E. rewrite IH.
    + cbn [posts sleeps error_rates handler snd sleep post].
      f_equal. f_equal.
      * rewrite <- app_assoc. reflexivity.
      * rewrite <- app_assoc. f_equal.
        change (seq 0 (S n)) with (0%nat :: seq 1 n).
        rewrite <- seq_shift. cbn [map app]. rewrite List.map_map.
        f_equal; [f_equal; cbn; lia|].
        apply map_ext. intros k. f_equal. lia.
    + lia.
    + intros i Hi. apply Hnet. cbn in Hi. rewrite length_app in Hi. lia.
Qed.

(** X24.  The retry schedule of the gateway call.  When no request to
    the gateway is answered with status 200 and a readable body, whatever
    goes wrong, a refused connection, a timeout, a rate limit, a server
    error or a client error such as 401, the call posts max_retries + 1
    requests, sleeps 1, 2, 4, ... seconds between them (2 to the power of
    the attempt), records one "kong_gateway_failure" and raises a plain
    exception. *)
Theorem gateway_failure_schedule :
  forall (query model : string) (max_retries : Z) (w : World),
    0 <= max_retries ->
    (forall i, (length (posts w) <= i)%nat ->
       match network i kong_url model with
       | Replied 200 (Some _) _ => False
       | _ => True
       end) ->
    _call_llm_via_kong network query model max_retries w
    = (inr Exception,
       {| posts :=
            (posts w
             ++ repeat (kong_url, model) (Z.to_nat (max_retries + 1)))%list;
          sleeps :=
            (sleeps w
             ++ map (fun k => 2 ^ Z.of_nat k)
                  (seq 0 (Z.to_nat max_retries)))%list;
          error_rates :=
            (error_rates w
             ++ [("kong_gateway_failure", "/api/query", model)])%list;
          handler := handler w |}).
Proof.
  intros query model max_retries w Hmax Hnet.
  unfold _call_llm_via_kong.
  replace (Z.to_nat (max_retries + 1)) with (S (Z.to_nat max_retries))
    by lia.
  apply gateway_schedule; [lia | exact Hnet].
Qed.

(** X25.  The direct call does not retry a client error.  When the
    API answers the first request with a status that is neither 200 nor
    429 and is below 500 (401, 400, 404, ...), the call raises an
    [HTTPException] of that status at once: one request posted, no sleep,
    no failure recorded.  (The gateway call retries the same reply, by
    its schedule.) *)
Theorem direct_client_error_is_not_retried :
  forall (query model : string) (max_retries : Z) (w : World)
         (status : Z) (parsed : option (string * option Z)) (hit : bool),
    0 <= max_retries ->
    network (length (posts w)) groq_url model = Replied status parsed hit ->
    status <> 200 -> status <> 429 -> status < 500 ->
    _call_groq_direct network query model max_retries w
    = (inr (HTTPException status),
       {| posts := (posts w ++ [(groq_url, model)])%list;
          sleeps := sleeps w;
          error_rates := error_rates w;
          handler := handler w |}).
Proof.
  intros query model max_retries w status parsed hit Hmax Hnet H200 H429 H500.
  unfold _call_groq_direct.
  replace (Z.to_nat (max_retries + 1)) with (S (Z.to_nat max_retries))
    by lia.
  rewrite attempts_S, Hnet. unfold groq_pass.
  assert (E200 : (status =? 200) = false) by (apply Z.eqb_neq; exact H200).
  assert (E429 : (status =? 429) = false) by (apply Z.eqb_neq; exact H429).
  assert (E500 : (status >=? 500) = false).
  { rewrite Z.geb_leb. apply Z.leb_gt. exact H500. }
  rewrite E200, E429, E500.
  destruct (status =? 401) eqn:E401; [|reflexivity].
  apply Z.eqb_eq in E401. subst status. reflexivity.
Qed.

End DispatchEffort.

Section DispatchEffortExamples.
Import Py Query.

(** The API refuses the key. *)
Definition unauthorized : nat -> string -> string -> post_outcome :=
  fun _ _ _ => Replied 401 None false.

Lemma gateway_failure_schedule_witness :
  _call_llm_via_kong unauthorized "hello" "m" 2 fresh_world
  = (inr Exception,
     {| posts := ([] ++ repeat (kong_url, "m") (Z.to_nat (2 + 1)))%list;
        sleeps := ([] ++ map (fun k => 2 ^ Z.of_nat k)
                           (seq 0 (Z.to_nat 2)))%list;
        error_rates := ([] ++ [("kong_gateway_failure", "/api/query", "m")])%list;
        handler := ErrorHandler.init |}).
Proof.
  apply (gateway_failure_schedule unauthorized "hello" "m" 2 fresh_world).
  - lia.
  - intros i _. exact I.
Defined.

Lemma direct_client_error_is_not_retried_witness :
  _call_groq_direct unauthorized "hello" "m" 3 fresh_world
  = (inr (HTTPException 401),
     {| posts := ([] ++ [(groq_url, "m")])%list; sleeps := [];
        error_rates := []; handler := ErrorHandler.init |}).
Proof.
  apply (direct_client_error_is_not_retried unauthorized "hello" "m" 3
           fresh_world 401 None false); try lia. reflexivity.
Defined.

End DispatchEffortExamples.

(* ===================================================================== *)

(** ** app/services/complexity_analyzer.py: the score in binary64 *)

Module Complexity64.
Import Py Complexity.
#[local] Set Warnings "-inexact-float".

(** [min(a, b)] on floats: the first of the smallest. *)
Definition py_min (a b : float) : float := if (b <? a)%float then b else a.

(** An [int] as a float (exact below 2^53); [n / d] of two such ints is
    the division of their floats. *)
Definition of_int (n : Z) : float := PrimFloat.of_uint63 (Uint63.of_Z n).

(** [_calculate_length_score] *)
Definition _calculate_length_score (query : string) : float :=
  let word_count := word_count query in
  py_min (of_int word_count / of_int 40)%float 0.5%float.

(** [_calculate_technical_score] *)
Definition _calculate_technical_score (query : string) : float :=
  let technical_count := _count_technical_terms query in
  py_min (of_int technical_count / of_int 8 * 0.4)%float 0.4%float.

(** [complexity_weights] *)
Definition complexity_weights (t : QueryType) : float :=
  match t with
  | SIMPLE_FAQ => 0.0%float
  | TECHNICAL => 0.15%float
  | MULTI_STEP => 0.25%float
  | TROUBLESHOOTING => 0.2%float
  | INTEGRATION => 0.3%float
  end.

(** [_analyze_question_type_score] *)
Definition _analyze_question_type_score (query : string) : float :=
  complexity_weights (_analyze_question_type query).

(** [calculate_complexity] *)
Definition calculate_complexity (query : string) : float :=
  if blank query then 0.0%float
  else
    let query :=
      if len query >? 10000 then take (Z.to_nat 10000) query else query in
    let query_lower := strip (lower query) in
    let length_score := _calculate_length_score query_lower in
    let technical_score := _calculate_technical_score query_lower in
    let question_complexity_score :=
      _analyze_question_type_score query_lower in
    py_min (length_score + technical_score + question_complexity_score)%float
      1.0%float.

End Complexity64.

Section Complexity64Facts.
Import Py Complexity.
#[local] Set Warnings "-inexact-float".

(** *** The formula of the specification *)

(** The words of a text: its maximal runs of characters that are not
    white space. *)
Definition wordCount (text : string) : Z := Z.of_nat (length (split text)).

(** The technical terms of a text: its maximal runs of word characters
    that are in the list of technical terms. *)
Definition isTechnicalTerm (word : string) : bool :=
  if in_dec String.string_dec word technical_terms then true else false.

Definition technicalTermCount (text : string) : Z :=
  Z.of_nat (length (List.filter isTechnicalTerm (findall_words text))).

Definition lengthScore (text : string) : float :=
  Complexity64.py_min
    (Complexity64.of_int (wordCount text) / Complexity64.of_int 40)%float
    0.5%float.

Definition technicalTermScore (text : string) : float :=
  Complexity64.py_min
    (Complexity64.of_int (technicalTermCount text) / Complexity64.of_int 8
     * 0.4)%float
    0.4%float.

Definition questionTypeScore (t : QueryType) : float :=
  match t with
  | SIMPLE_FAQ => 0%float
  | TECHNICAL => 0.15%float
  | TROUBLESHOOTING => 0.2%float
  | MULTI_STEP => 0.25%float
  | INTEGRATION => 0.3%float
  end.

(** min(lengthScore + technicalTermScore + questionTypeScore, 1.0) *)
Definition complexity_formula (text : string) : float :=
  Complexity64.py_min
    (lengthScore text + technicalTermScore text
     + questionTypeScore (question_type_spec text))%float
    1.0%float.

(** *** The code computes the formula on the normalized text *)

Lemma isTechnicalTerm_existsb word :
  existsb (String.eqb word) technical_terms = isTechnicalTerm word.
Proof.
  unfold isTechnicalTerm.
  destruct (in_dec String.string_dec word technical_terms) as [Hin|Hout].
  - apply existsb_exists. exists word. split; [exact Hin|].
    apply String.eqb_refl.
  - destruct (existsb (String.eqb word) technical_terms) eqn:E; [|reflexivity].
    exfalso. apply Hout. apply existsb_exists in E as (y & Hy & Heq).
    apply String.eqb_eq in Heq. subst. exact Hy.
Qed.

Lemma lower_normalized query : lower (normalized query) = normalized query.
Proof.
  unfold normalized. rewrite <- strip_lower, lower_idem. reflexivity.
Qed.

Lemma count_technical_terms_normalized query :
  _count_technical_terms (normalized query)
  = technicalTermCount (normalized query).
Proof.
  unfold _count_technical_terms, technicalTermCount.
  rewrite lower_normalized. f_equal. f_equal.
  apply List.filter_ext. intros word. apply isTechnicalTerm_existsb.
Qed.

Lemma weights_match t :
  Complexity64.complexity_weights t = questionTypeScore t.
Proof. destruct t; reflexivity. Qed.

Lemma formula_of_empty : complexity_formula EmptyString = 0%float.
Proof. vm_compute. reflexivity. Qed.

Lemma calculate_complexity_is_formula query :
  Complexity64.calculate_complexity query
  = complexity_formula (normalized query).
Proof.
  unfold Complexity64.calculate_complexity.
  destruct (blank query) eqn:Hb.
  - rewrite (normalized_blank query Hb), formula_of_empty. reflexivity.
  - fold (normalized query). unfold complexity_formula.
    unfold Complexity64._calculate_length_score,
      Complexity64._calculate_technical_score,
      Complexity64._analyze_question_type_score, lengthScore,
      technicalTermScore, wordCount, word_count.
    rewrite count_technical_terms_normalized, weights_match,
      question_type_spec_ok.
    reflexivity.
Qed.

(** *** The score lies between 0 and 1 *)

Lemma length_take n : forall s, (String.length (take n s) <= n)%nat.
Proof.
  unfold take. induction n as [|n IH]; intros [|c s]; cbn; try lia.
  specialize (IH s). lia.
Qed.

Lemma length_take_le n : forall s,
  (String.length (take n s) <= String.length s)%nat.
Proof.
  unfold take. induction n as [|n IH]; intros [|c s]; cbn; try lia.
  specialize (IH s). lia.
Qed.

Lemma length_lstrip s : (String.length (lstrip s) <= String.length s)%nat.
Proof.
  induction s as [|c s IH]; cbn; [lia|].
  destruct (is_space c); cbn; lia.
Qed.

Lemma length_rstrip s : (String.length (rstrip s) <= String.length s)%nat.
Proof.
  induction s as [|c s IH]; cbn; [lia|].
  destruct (is_space c && is_empty (rstrip s)); cbn; lia.
Qed.

Lemma length_normalized query :
  (String.length (normalized query) <= Z.to_nat 10000)%nat.
Proof.
  unfold normalized, strip.
  eapply Nat.le_trans; [apply length_rstrip|].
  eapply Nat.le_trans; [apply length_lstrip|].
  rewrite length_lower.
  destruct (len query >? 10000) eqn:E.
  - apply length_take.
  - rewrite Z.gtb_ltb in E. apply Z.ltb_ge in E. unfold len in E. lia.
Qed.

Lemma length_runs sep s : forall cur,
  (length (runs sep s cur)
   <= String.length s + (if is_empty cur then 0 else 1))%nat.
Proof.
  induction s as [|c s IH]; intros cur; cbn [runs String.length].
  - destruct (is_empty cur); cbn; lia.
  - destruct (sep c).
    + specialize (IH EmptyString). cbn [is_empty] in IH.
      destruct (is_empty cur); cbn [length]; lia.
    + specialize (IH (cur +:+ String c EmptyString)).
      destruct (is_empty (cur +:+ String c EmptyString));
        destruct (is_empty cur); lia.
Qed.

Lemma word_count_normalized query :
  (length (split (normalized query)) <= Z.to_nat 10000)%nat.
Proof.
  pose proof (length_runs is_space (normalized query) EmptyString) as H.
  pose proof (length_normalized query). cbn [is_empty] in H.
  unfold split. lia.
Qed.

Lemma term_count_normalized query :
  (length (List.filter isTechnicalTerm (findall_words (normalized query)))
   <= Z.to_nat 10000)%nat.
Proof.
  pose proof (length_runs (fun c => negb (is_word_char c)) (normalized query)
                EmptyString) as H.
  pose proof (length_normalized query). cbn [is_empty] in H.
  pose proof (List.filter_length_le isTechnicalTerm
                (findall_words (normalized query))).
  unfold findall_words in *. lia.
Qed.

(** The two capped scores as functions of the count. *)
Definition length_score_of (n : nat) : float :=
  Complexity64.py_min
    (Complexity64.of_int (Z.of_nat n) / Complexity64.of_int 40)%float
    0.5%float.

Definition technical_score_of (n : nat) : float :=
  Complexity64.py_min
    (Complexity64.of_int (Z.of_nat n) / Complexity64.of_int 8 * 0.4)%float
    0.4%float.

(** From 20 words and from 8 terms on the scores are the caps: checked
    on every count that a text of 10000 characters can have. *)
Lemma length_score_capped :
  forallb (fun n => PrimFloat.Leibniz.eqb (length_score_of n)
                      (length_score_of (Nat.min n 20)))
          (seq 0 (Z.to_nat 10001)) = true.
Proof. vm_compute. reflexivity. Qed.

Lemma technical_score_capped :
  forallb (fun n => PrimFloat.Leibniz.eqb (technical_score_of n)
                      (technical_score_of (Nat.min n 8)))
          (seq 0 (Z.to_nat 10001)) = true.
Proof. vm_compute. reflexivity. Qed.

Definition in_unit_interval (x : float) : bool :=
  ((0 <=? x) && (x <=? 1))%float.

(** Every sum of a length score, a technical score and a weight, capped
    at 1, is between 0 and 1. *)
Lemma capped_sums_in_unit_interval :
  forallb (fun a =>
    forallb (fun b =>
      forallb (fun t =>
        in_unit_interval
          (Complexity64.py_min
             (length_score_of a + technical_score_of b
              + questionTypeScore t)%float 1.0%float))
        [SIMPLE_FAQ; TECHNICAL; MULTI_STEP; TROUBLESHOOTING; INTEGRATION])
      (seq 0 9))
    (seq 0 21) = true.
Proof. vm_compute. reflexivity. Qed.

Lemma formula_in_unit_interval query :
  in_unit_interval (complexity_formula (normalized query)) = true.
Proof.
  set (text := normalized query).
  set (a := length (split text)).
  set (b := length (List.filter isTechnicalTerm (findall_words text))).
  assert (Ha : (a <= Z.to_nat 10000)%nat) by apply word_count_normalized.
  assert (Hb : (b <= Z.to_nat 10000)%nat) by apply term_count_normalized.
  assert (HL : lengthScore text = length_score_of (Nat.min a 20)).
  { change (lengthScore text) with (length_score_of a).
    apply FloatAxioms.Leibniz.eqb_spec.
    apply (proj1 (forallb_forall _ _) length_score_capped).
    apply in_seq. lia. }
  assert (HT : technicalTermScore text = technical_score_of (Nat.min b 8)).
  { change (technicalTermScore text) with (technical_score_of b).
    apply FloatAxioms.Leibniz.eqb_spec.
    apply (proj1 (forallb_forall _ _) technical_score_capped).
    apply in_seq. lia. }
  unfold complexity_formula. rewrite HL, HT.
  pose proof (proj1 (forallb_forall _ _) capped_sums_in_unit_interval
                (Nat.min a 20)) as H1.
  cbv beta in H1.
  assert (Hin1 : In (Nat.min a 20) (seq 0 21)) by (apply in_seq; lia).
  pose proof (proj1 (forallb_forall _ _) (H1 Hin1) (Nat.min b 8)) as H2.
  cbv beta in H2.
  assert (Hin2 : In (Nat.min b 8) (seq 0 9)) by (apply in_seq; lia).
  pose proof (proj1 (forallb_forall _ _) (H2 Hin2)
                (question_type_spec text)) as H3.
  cbv beta in H3. apply H3.
  destruct (question_type_spec text); cbn; auto 6.
Qed.

(** C8 (as the code has it).  The score of [calculate_complexity] is
    the formula of the specification, min(lengthScore + technicalTermScore
    + questionTypeScore, 1.0), where lengthScore = min(wordCount/40, 0.5),
    technicalTermScore = min(technicalTermCount/8 * 0.4, 0.4) and
    questionTypeScore is the weight of the question type, the type of the
    first pattern group that matches (in the order simple, integration,
    troubleshooting, multi-step, technical) or else that of the
    length/keyword fallback: computed in binary64, in this order of
    operations, on the normalized text, which is the query cut to its
    first 10000 characters, in lower case and stripped, not on the text
    itself.  For a query of at most 10000 characters the normalized text
    is the lower-cased, stripped query.  The score lies between 0 and
    1. *)
Theorem calculate_complexity_formula :
  forall query : string,
    Complexity64.calculate_complexity query
    = complexity_formula (normalized query)
    /\ (normalized query
        = strip (lower (if len query >? 10000
                        then take (Z.to_nat 10000) query else query)))
    /\ (len query <= 10000 -> normalized query = strip (lower query))
    /\ (0 <=? Complexity64.calculate_complexity query)%float = true
    /\ (Complexity64.calculate_complexity query <=? 1)%float = true.
Proof.
  intros query.
  split; [apply calculate_complexity_is_formula|].
  split; [reflexivity|].
  split.
  { intros Hlen. unfold normalized.
    assert (E : (len query >? 10000) = false)
      by (rewrite Z.gtb_ltb; apply Z.ltb_ge; exact Hlen).
    rewrite E. reflexivity. }
  rewrite calculate_complexity_is_formula.
  pose proof (formula_in_unit_interval query) as H.
  unfold in_unit_interval in H. apply andb_true_iff in H. exact H.
Qed.

End Complexity64Facts.

Section Complexity64Examples.
Import Py Complexity.
#[local] Set Warnings "-inexact-float".

Fixpoint repeat_string (n : nat) (s : string) : string :=
  match n with
  | O => EmptyString
  | S n' => s +:+ repeat_string n' s
  end.

(** Twenty words of 500 letters each, 10020 characters with their
    spaces, followed by three technical terms. *)
Definition long_text : string :=
  repeat_string 20 (repeat_string 500 "a" +:+ " ") +:+ "api api api".

(** The search with the length of the text taken once, and the question
    type found with it: the same functions, quicker to run. *)
Definition re_search_once (r : regex) (s : string) : bool :=
  let whole := String.length s in
  existsb (fun t => match matches whole r t with
                    | [] => false
                    | _ => true
                    end) (suffixes s).

Definition question_type_once (text : string) : QueryType :=
  match List.find (fun g => existsb (fun p => re_search_once p text) (fst g))
                  ordered_groups with
  | Some g => snd g
  | None => fallback_type text
  end.

Lemma question_type_once_ok text :
  question_type_spec text = question_type_once text.
Proof. reflexivity. Qed.

Lemma formula_once text :
  complexity_formula text
  = Complexity64.py_min
      (lengthScore text + technicalTermScore text
       + questionTypeScore (question_type_once text))%float
      1.0%float.
Proof. reflexivity. Qed.

(** C8, as stated, fails for a text of more than 10000 characters.
    [long_text] is in lower case and stripped already; the code scores
    its first 10000 characters, 20 words without a technical term, and
    returns 0.5, whereas the formula on the text itself counts 23 words
    and 3 technical terms, of a technical question, and gives 0.8. *)
Lemma long_text_is_scored_on_its_first_10000_characters :
  len long_text = 10031
  /\ String.eqb (strip (lower long_text)) long_text = true
  /\ wordCount (normalized long_text) = 20
  /\ technicalTermCount (normalized long_text) = 0
  /\ Complexity64.calculate_complexity long_text = 0.5%float
  /\ wordCount long_text = 23
  /\ technicalTermCount long_text = 3
  /\ complexity_formula long_text = 0.8%float
  /\ Complexity64.calculate_complexity long_text
     <> complexity_formula long_text.
Proof.
  assert (Hcode : Complexity64.calculate_complexity long_text = 0.5%float).
  { rewrite calculate_complexity_is_formula, formula_once.
    vm_compute. reflexivity. }
  assert (Hformula : complexity_formula long_text = 0.8%float).
  { rewrite formula_once. vm_compute. reflexivity. }
  repeat (split; [first [exact Hcode | exact Hformula
                        | vm_compute; reflexivity]|]).
  rewrite Hcode, Hformula. intros H.
  assert (E : (0.5 <? 0.5)%float = (0.5 <? 0.8)%float)
    by (rewrite H at 2; reflexivity).
  vm_compute in E. discriminate E.
Qed.

End Complexity64Examples.
